(** * pylbm: the distance-field construction of a lattice-Boltzmann domain

    A shallow embedding of [pyLBM/domain.py] (the class [Domain]),
    [pyLBM/elements/cylinder.py] (the class [Cylinder]) and
    [pylbm/elements/sphere.py] (the class [Sphere]), followed by the
    properties established about them.

    Conventions of the embedding.
    - NumPy floats are exact rationals ([Q]); [==] on arrays is [Qeq].
      Rounding, infinities and NaN are outside the model.
    - A dense NumPy array is a total function from index tuples to values,
      together with the shape kept by the owner of the array; a whole-array
      statement of the source is the pointwise definition of the new array.
    - Python exceptions are the [Raise] results of a small error monad. *)

From Stdlib Require Import ZArith QArith Qminmax Qabs Lia Lqa List Bool String.
From stdpp Require Import base list gmap strings.
Import ListNotations.
Open Scope Q_scope.

(** ** Python values, exceptions and indexing *)

Module Py.

Inductive exn :=
| IndexError
| ValueError
| AttributeError (name : string)
| SystemExit
| Misaligned.
(** [Misaligned] is not an exception of the source: it marks the runs of
    [Domain.__add_elem] that the embedding does not follow.
    [__add_elem] combines a view of the grid with the same view shifted by
    a velocity.  When a bound of one of the two slices is negative NumPy
    counts it from the end of the axis, and when the two views differ in
    shape NumPy broadcasts or raises [ValueError] according to the sizes.
    Neither happens when the upper bounds of the element are not below the
    first node of the grid and no velocity exceeds [vmax] (the lemma
    [views_line_up] below); of the other runs nothing is stated. *)

Inductive result (A : Type) :=
| Ok (a : A)
| Raise (e : exn).
Arguments Ok {A} a.
Arguments Raise {A} e.

Definition bind {A B} (m : result A) (f : A -> result B) : result B :=
  match m with
  | Ok a => f a
  | Raise e => Raise e
  end.

Notation "'let!' x ':=' e 'in' k" := (bind e (fun x => k))
  (at level 10, x pattern, e at level 100, k at level 200,
   format "'[v' 'let!'  x  ':='  e  'in' '/' k ']'").

(** [for x in l: s = body(x, s)], stopping at the first exception. *)
Fixpoint for_ {A S} (l : list A) (body : A -> S -> result S) (s : S) : result S :=
  match l with
  | [] => Ok s
  | x :: l' => let! s' := body x s in for_ l' body s'
  end.

(** [range(n)] *)
Definition range (n : Z) : list Z := map Z.of_nat (seq 0 (Z.to_nat n)).

(** [enumerate(l)] *)
Definition enumerate {A} (l : list A) : list (nat * A) := imap (fun i x => (i, x)) l.

(** [l[i]] for a Python list or a one-dimensional array: negative indices
    count from the end, anything outside [-len, len) raises. *)
Definition index {A} (l : list A) (i : Z) : result A :=
  let len := Z.of_nat (length l) in
  let j := (if i <? 0 then i + len else i)%Z in
  if ((0 <=? j) && (j <? len))%Z
  then match l !! Z.to_nat j with Some x => Ok x | None => Raise IndexError end
  else Raise IndexError.

(** The bounds [lo, hi) designated by [slice(a, b)] on an axis of length
    [len] (step 1): a negative bound counts from the end, and both are
    clamped to the axis. *)
Definition clamp (len x : Z) : Z :=
  (if x <? 0 then Z.max (x + len) 0 else Z.min x len)%Z.

Definition slice_bounds (len a b : Z) : Z * Z := (clamp len a, clamp len b).

(** [l[a:b]] *)
Definition slice {A} (l : list A) (a b : Z) : list A :=
  let '(lo, hi) := slice_bounds (Z.of_nat (length l)) a b in
  take (Z.to_nat (hi - lo)) (drop (Z.to_nat lo) l).

(** [l[:b]] *)
Definition slice_to {A} (l : list A) (b : Z) : list A := slice l 0 b.

End Py.

Import Py.

(** ** Rational arithmetic as the source uses it *)

Definition Qltb (a b : Q) : bool := negb (Qle_bool b a).
Definition Qleb (a b : Q) : bool := Qle_bool a b.
Definition Qeqb (a b : Q) : bool := Qeq_bool a b.

Infix "<?" := Qltb : Q_scope.
Infix "<=?" := Qleb : Q_scope.
Infix "=?" := Qeqb : Q_scope.

(** [np.array(x, np.int)]: truncation towards zero. *)
Definition trunc (q : Q) : Z := Z.quot (Qnum q) (Zpos (Qden q)).

(** [float.is_integer()] *)
Definition is_integer (q : Q) : bool := inject_Z (trunc q) =? q.

Definition vec3 : Type := Q * Q * Q.

Record mat3 := Mat3 {
  m00 : Q; m01 : Q; m02 : Q;
  m10 : Q; m11 : Q; m12 : Q;
  m20 : Q; m21 : Q; m22 : Q }.

(** [M.dot(v)] *)
Definition dot (M : mat3) (v : vec3) : vec3 :=
  let '(a, b, c) := v in
  (m00 M * a + m01 M * b + m02 M * c,
   m10 M * a + m11 M * b + m12 M * c,
   m20 M * a + m21 M * b + m22 M * c).

(** ** elements/cylinder.py *)

Module Cylinder.

(** The two-dimensional cross-section of a cylinder ([Base_Circle],
    [Base_Ellipse], [Base_Triangle]).  Its classes live in
    [elements/base.py], which is not part of the sources at hand: the
    cylinder is parameterised by their three methods, taken as functions
    that return.  A base whose [distance] raises (on an empty list of
    labels, say) makes the query of the cylinder raise at its first call,
    before anything that is established below. *)
Record Base := {
  base_get_bounds : vec3 * vec3;
  base_point_inside : Q -> Q -> bool;
  base_distance : Q -> Q -> Q * Q -> option Q -> list Z -> Q * Z }.

(** The attributes of a [Cylinder] object.  [iA] is the matrix stored by
    [change_of_variables], the inverse (by [np.linalg.inv]) of the matrix
    whose columns are [v1], [v2] and [w]. *)
Record Cylinder := {
  center : vec3;
  v1 : vec3;
  v2 : vec3;
  w : vec3;
  iA : mat3;
  base : Base;
  label : list Z;
  isfluid : bool }.

(** The matrix [A] of [change_of_variables]. *)
Definition A (c : Cylinder) : mat3 :=
  let '(a0, a1, a2) := v1 c in
  let '(b0, b1, b2) := v2 c in
  let '(c0, c1, c2) := w c in
  Mat3 a0 b0 c0 a1 b1 c1 a2 b2 c2.

(** The coordinates of a point in the frame of the cylinder. *)
Definition to_cyl (c : Cylinder) (p : vec3) : vec3 :=
  let '(x, y, z) := p in
  let '(c0, c1, c2) := center c in
  let xx := x - c0 in
  let yy := y - c1 in
  let zz := z - c2 in
  let M := iA c in
  (m00 M * xx + m01 M * yy + m02 M * zz,
   m10 M * xx + m11 M * yy + m12 M * zz,
   m20 M * xx + m21 M * yy + m22 M * zz).

Definition get_bounds (c : Cylinder) : vec3 * vec3 :=
  let '(w0, w1, w2) := w c in
  let '((l0, l1, l2), (u0, u1, u2)) := base_get_bounds (base c) in
  ((l0 - Qabs w0, l1 - Qabs w1, l2 - Qabs w2),
   (u0 + Qabs w0, u1 + Qabs w1, u2 + Qabs w2)).

Definition point_inside (c : Cylinder) (p : vec3) : bool :=
  let '(x_cyl, y_cyl, z_cyl) := to_cyl c p in
  base_point_inside (base c) x_cyl y_cyl && (Qabs z_cyl <=? 1).

(** The value standing for "no intersection" inside [distance]. *)
Definition big : Q := 10000000000000000.

(** The offset added to a zero axial velocity. *)
Definition tiny : Q := 1 # 10000000000000000.

Definition decal (vz : Q) : Q := if vz =? 0 then tiny else 0.

(** The candidate of the infinite cylinder, as returned by the base. *)
Definition lateral (c : Cylinder) (p v : vec3) (dmax : option Q) : Q * Z :=
  let '(vx, vy, _) := dot (iA c) v in
  let '(x_cyl, y_cyl, _) := to_cyl c p in
  base_distance (base c) x_cyl y_cyl (vx, vy) dmax (slice_to (label c) (-2)).

(** The parameters at which the line meets the planes [z' = 1] and
    [z' = -1]. *)
Definition top_param (c : Cylinder) (p v : vec3) : Q :=
  let '(_, _, vz) := dot (iA c) v in
  let '(_, _, z_cyl) := to_cyl c p in
  (1 - z_cyl) / (vz + decal vz).

Definition bot_param (c : Cylinder) (p v : vec3) : Q :=
  let '(_, _, vz) := dot (iA c) v in
  let '(_, _, z_cyl) := to_cyl c p in
  - (1 + z_cyl) / (vz + decal vz).

(** The test of the base at the point reached with parameter [t]. *)
Definition cap_inside (c : Cylinder) (p v : vec3) (t : Q) : bool :=
  let '(vx, vy, _) := dot (iA c) v in
  let '(x_cyl, y_cyl, _) := to_cyl c p in
  base_point_inside (base c) (x_cyl + t * vx) (y_cyl + t * vy).

(** The three candidates of [distance] once the rejected ones are replaced
    by [big]; the lateral one comes with its label. *)
Definition side_candidate (c : Cylinder) (p v : vec3) (dmax : option Q) : Q * Z :=
  let '(_, _, vz) := dot (iA c) v in
  let '(_, _, z_cyl) := to_cyl c p in
  let '(alpha, border) := lateral c p v dmax in
  let alpha := if alpha <? 0 then big else alpha in
  let ind := (0 <? alpha) && (1 <? Qabs (z_cyl + alpha * vz)) in
  let alpha := if ind then big else alpha in
  let border := if ind then (-1)%Z else border in
  (alpha, border).

Definition top_candidate (c : Cylinder) (p v : vec3) : Q :=
  let alpha_top := top_param c p v in
  let ind := (alpha_top <? 0) || negb (cap_inside c p v alpha_top) in
  if ind then big else alpha_top.

Definition bot_candidate (c : Cylinder) (p v : vec3) : Q :=
  let alpha_bot := bot_param c p v in
  let ind := (alpha_bot <? 0) || negb (cap_inside c p v alpha_bot) in
  if ind then big else alpha_bot.

(** [np.amin([alpha, alpha_top, alpha_bot], axis=0)] *)
Definition first_candidate (c : Cylinder) (p v : vec3) (dmax : option Q) : Q :=
  Qmin (fst (side_candidate c p v dmax)) (Qmin (top_candidate c p v) (bot_candidate c p v)).

(** [Cylinder.distance] at one point [p], direction [v]. *)
Definition distance (c : Cylinder) (p v : vec3) (dmax : option Q) : result (Q * Z) :=
  (* considering the infinite cylinder *)
  let '(_, border) := side_candidate c p v dmax in
  (* considering the two planes *)
  let alpha_top := top_candidate c p v in
  let alpha_bot := bot_candidate c p v in
  (* considering the first intersection point *)
  let alpha := first_candidate c p v dmax in
  let! l1 := index (label c) (-1) in
  let border := if alpha =? alpha_top then l1 else border in
  let! l2 := index (label c) (-2) in
  let border := if alpha =? alpha_bot then l2 else border in
  let alpha := if alpha =? big then -1 else alpha in
  Ok (alpha, border).

(** The axial coordinate reached with the parameter [t]. *)
Definition axial (c : Cylinder) (p v : vec3) (t : Q) : Q :=
  let '(_, _, vz) := dot (iA c) v in
  let '(_, _, z_cyl) := to_cyl c p in
  z_cyl + t * vz.

End Cylinder.

(** ** elements/sphere.py *)

Module Sphere.

(** The values held by the attributes of a shape object. *)
Inductive value :=
| VInt (n : Z)
| VNum (q : Q)
| VBool (b : bool)
| VVec (v : list Q)
| VLabels (l : list Z).

(** The [label] argument of a constructor: one integer or a list. *)
Inductive label_arg :=
| LInt (n : Z)
| LList (l : list Z).

(** An object is its attribute dictionary; reading an attribute that was
    never set raises [AttributeError] (the class [Sphere] declares no class
    attribute). *)
Definition getattr (self : gmap string value) (name : string) : result value :=
  match self !! name with
  | Some v => Ok v
  | None => Raise (AttributeError name)
  end.

Section Init.

(** [Element.__init__] is defined in [elements/base.py], which is not part
    of the sources at hand; so is the rendering of a value by [str]. *)
Variable Element_init :
  gmap string value -> label_arg -> bool -> result (gmap string value).
Variable str : value -> string.

(** [Sphere.__str__] *)
Definition __str__ (self : gmap string value) : result string :=
  let! c := getattr self "center" in
  let! r := getattr self "radius" in
  let s := ("Sphere(" ++ str c ++ "," ++ str r ++ ") ")%string in
  let! f := getattr self "isfluid" in
  match f with
  | VBool false => Ok (s ++ "(solid)")%string
  | _ => Ok (s ++ "(fluid)")%string
  end.

(** [Sphere.__init__].  [log.error] and [log.info] record a message and
    return; the argument of [log.info] is evaluated before the call. *)
Definition __init__ (center : list Q) (radius : Q) (label : label_arg)
    (isfluid : bool) : result (gmap string value) :=
  let self : gmap string value := ∅ in
  let self := <["number_of_bounds" := VInt 1]> self in
  let self := <["center" := VVec center]> self in
  let self := if 0 <=? radius then <["radius" := VNum radius]> self else self in
  let! self := Element_init self label isfluid in
  let! _ := __str__ self in
  Ok self.

End Init.

(** Modelled from the spec: [Element.__init__] of [elements/base.py] is
    missing; a shape carries [isfluid] and "a small ordered list of boundary
    labels (one per distinguishable sub-surface)", an integer label standing
    for that many copies of it. *)
Definition Element_init (self : gmap string value) (label : label_arg)
    (isfluid : bool) : result (gmap string value) :=
  let self := <["isfluid" := VBool isfluid]> self in
  let! n := getattr self "number_of_bounds" in
  match label, n with
  | LInt l, VInt n => Ok (<["label" := VLabels (replicate (Z.to_nat n) l)]> self)
  | LList l, _ => Ok (<["label" := VLabels l]> self)
  | _, _ => Raise ValueError
  end.

(** A constructed sphere, as the methods below read it. *)
Record Sphere := {
  center : vec3;
  radius : Q;
  label : list Z;
  isfluid : bool }.

Definition get_bounds (s : Sphere) : vec3 * vec3 :=
  let '(c0, c1, c2) := center s in
  let r := radius s in
  ((c0 - r, c1 - r, c2 - r), (c0 + r, c1 + r, c2 + r)).

Definition point_inside (s : Sphere) (grid : vec3) : bool :=
  let '(x, y, z) := grid in
  let '(c0, c1, c2) := center s in
  let '(a, b, c) := (x - c0, y - c1, z - c2) in
  (a ^ 2 + b ^ 2 + c ^ 2 <=? radius s ^ 2).

Section Distance.

(** [utils.distance_ellipsoid] is not part of the sources at hand. *)
Variable distance_ellipsoid :
  Q -> Q -> Q -> vec3 -> vec3 -> vec3 -> vec3 -> vec3 -> option Q -> list Z -> Q * Z.

Definition distance (s : Sphere) (grid v : vec3) (dmax : option Q) : Q * Z :=
  let '(x, y, z) := grid in
  let r := radius s in
  let v1 := (r * 1, r * 0, r * 0) in
  let v2 := (r * 0, r * 1, r * 0) in
  let v3 := (r * 0, r * 0, r * 1) in
  distance_ellipsoid x y z v (center s) v1 v2 v3 dmax (label s).

End Distance.

End Sphere.

(** ** The interface of the elements, as [Domain] uses it *)

Module Element.

(** What [Domain.__add_elem] asks of an element: the attribute [isfluid]
    and the methods [get_bounds], [point_inside(grid)] and
    [distance(grid, v, dmax)].  The two queries are vectorised over the
    grid in the source and are given here at one point; [distance] takes
    the point, the direction and [dmax] and yields the pair
    [(alpha, border)].  [Sphere] has these methods; the methods of
    [Cylinder] take the coordinates one by one ([point_inside(x, y, z)],
    [distance(x, y, z, v, dmax)]), so that a cylinder is no element in this
    sense. *)
Record Element := {
  isfluid : bool;
  get_bounds : list Q * list Q;
  point_inside : list Q -> bool;
  distance : list Q -> list Q -> Q -> Q * Z }.

Definition of_vec3 (v : vec3) : list Q := let '(a, b, c) := v in [a; b; c].

(** A sphere as an element.  [x, y, z = grid] raises in the source when the
    grid does not have three axes; the instance is meant for three. *)
Definition of_sphere
    (distance_ellipsoid :
       Q -> Q -> Q -> vec3 -> vec3 -> vec3 -> vec3 -> vec3 -> option Q -> list Z -> Q * Z)
    (s : Sphere.Sphere) : Element :=
  {| isfluid := Sphere.isfluid s;
     get_bounds := (of_vec3 (fst (Sphere.get_bounds s)), of_vec3 (snd (Sphere.get_bounds s)));
     point_inside := fun p =>
       match p with
       | [x; y; z] => Sphere.point_inside s (x, y, z)
       | _ => false
       end;
     distance := fun p v dmax =>
       match p, v with
       | [x; y; z], [a; b; c] =>
           Sphere.distance distance_ellipsoid s (x, y, z) (a, b, c) (Some dmax)
       | _, _ => (-1, (-1)%Z)
       end |}.

End Element.

(** ** domain.py *)

Module Domain.

Import Element.

Definition valin : Q := 999.
Definition valout : Q := -1.

(** [valin] in the array [flag], whose entries are integers. *)
Definition valin_flag : Z := 999.

(** Modelled from the spec: the class [Stencil] is missing.  It is "the
    discrete velocity set used by the solver": the list of the distinct
    velocities, each a list of integer components, and, per axis, the
    maximum absolute velocity component [vmax]. *)
Record Stencil := {
  unique_velocities : list (list Z);
  vmax : list Z }.

Definition unvtot (s : Stencil) : nat := length (unique_velocities s).

(** [s.uvx], [s.uvy], [s.uvz]: the components of the velocities along one
    axis. *)
Definition uv (s : Stencil) (axis : nat) : list Z :=
  map (fun v => nth axis v 0%Z) (unique_velocities s).

(** What [Domain] reads of the class [Geometry], which is missing: the
    dimension, the bounds of the box, the labels of its faces and the list
    of the elements. *)
Record Geometry := {
  dim : nat;
  bounds : list (Q * Q);
  geom_box_label : list Z;
  list_elem : list Element }.

Definition field : Type := list Z -> Q.

(** The attributes of a [Domain] object. *)
Record Domain := {
  geom : Geometry;
  stencil : Stencil;
  dx : Q;
  box_label : list Z;
  global_size : list Q;
  coords_halo : list (list Q);
  coords : list (list Q);
  in_or_out : list Z -> Q;
  distance : nat -> list Z -> Q;
  flag : nat -> list Z -> Z }.

Definition shape_halo (d : Domain) : list Z :=
  map (fun c => Z.of_nat (length c)) (coords_halo d).

Definition shape_in (d : Domain) : list Z :=
  map (fun c => Z.of_nat (length c)) (coords d).

(** Membership of a node in the product of the intervals [lo, hi). *)
Fixpoint in_box (box : list (Z * Z)) (n : list Z) : bool :=
  match box, n with
  | [], [] => true
  | (lo, hi) :: box', i :: n' => (lo <=? i)%Z && (i <? hi)%Z && in_box box' n'
  | _, _ => false
  end.

(** [np.linspace(a, b, num)] *)
Definition linspace (a b : Q) (num : Z) : result (list Q) :=
  if (num <? 0)%Z then Raise ValueError
  else Ok (map (fun i => inject_Z i * ((b - a) / inject_Z (num - 1)) + a) (range num)).

(** [l[i] = x] on a Python list *)
Definition setitem {A} (l : list A) (i : Z) (x : A) : result (list A) :=
  let len := Z.of_nat (length l) in
  let j := (if i <? 0 then i + len else i)%Z in
  if ((0 <=? j) && (j <? len))%Z then Ok (<[Z.to_nat j := x]> l) else Raise IndexError.

Section Create.

Variable g : Geometry.
Variable s : Stencil.
Variable space_step : Q.

(** [mpi_topo.get_region]: the range of indices of this worker on every
    axis.  The class [MPI_topology] is missing. *)
Variable get_region : list Q -> list (Z * Z).

(** The loop of [create_coords] that validates the space step.  A zero step
    ends in the same exit (the quotient is then infinite or undefined). *)
Definition global_sizes : result (list Q) :=
  for_ (range (Z.of_nat (dim g)))
    (fun k gs =>
       let! b := index (bounds g) k in
       if space_step =? 0 then Raise SystemExit
       else
         let size := (snd b - fst b) / space_step in
         if is_integer size then Ok (gs ++ [size]) else Raise SystemExit)
    [].

(** The rest of [create_coords]: the coordinates with and without halo. *)
Definition create_coords (gsize : list Q) : result (list (list Q) * list (list Q)) :=
  let region := get_region gsize in
  let! halo := for_ (range (Z.of_nat (dim g)))
    (fun k acc =>
       let! b := index (bounds g) k in
       let! r := index region k in
       let! h := index (vmax s) k in
       let halo_beg := space_step * (inject_Z h - (1 # 2)) in
       let region_size := (snd r - fst r)%Z in
       let! c := linspace (fst b + space_step * inject_Z (fst r) - halo_beg)
                          (fst b + space_step * inject_Z (snd r) + halo_beg)
                          (region_size + 2 * h) in
       Ok (acc ++ [c]))
    [] in
  let! inner := for_ (range (Z.of_nat (dim g)))
    (fun k acc =>
       let! c := index halo k in
       let! h := index (vmax s) k in
       Ok (acc ++ [slice c h (- h)]))
    [] in
  Ok (halo, inner).

(** "Modify box_label if the border becomes an interface" *)
Definition relabel (gsize : list Q) (label : list Z) : result (list Z) :=
  let region := get_region gsize in
  for_ (range (Z.of_nat (dim g)))
    (fun i label =>
       let! r := index region i in
       let! label :=
         if negb (fst r =? 0)%Z then setitem label (2 * i) (-2)%Z else Ok label in
       let! size := index gsize i in
       if negb (inject_Z (snd r) =? size) then setitem label (2 * i + 1) (-2)%Z
       else Ok label)
    label.

End Create.

(** *** [__add_init]: the distances to the faces of the box *)

(** [phys_domain]: the bounds of the slices [slice(h, -h)]. *)
Definition phys_domain (d : Domain) : list (Z * Z) :=
  zip_with (fun len h => slice_bounds len h (- h)) (shape_halo d) (vmax (stencil d)).

(** The index [i] of a row on the axis [iuv] of the views, counted from the
    start of the view; an index outside the view raises [IndexError]. *)
Definition row_index (d : Domain) (iuv : nat) (i : Z) : result Z :=
  let! b := index (phys_domain d) (Z.of_nat iuv) in
  let size := Z.max (snd b - fst b) 0 in
  let j := (if i <? 0 then i + size else i)%Z in
  if ((0 <=? j) && (j <? size))%Z then Ok (fst b + j)%Z else Raise IndexError.

(** The nodes of the views whose coordinate on the axis [iuv] is [x]. *)
Definition row (d : Domain) (iuv : nat) (x : Z) (n : list Z) : bool :=
  in_box (phys_domain d) n && (nth iuv n 0 =? x)%Z.

(** [new_indices]: the nodes of the row where the stored distance is
    larger than [dvik].  In one dimension [new_indices] replaces no index
    and returns the whole row (one node). *)
Definition new_indices (d : Domain) (dvik : Q) (iuv : nat) (x : Z)
    (dist_k : list Z -> Q) (n : list Z) : bool :=
  row d iuv x n && ((dim (geom d) =? 1)%nat || (dvik <? dist_k n)).

(** The two assignments through [new_indices], along the row [i] of the
    axis [iuv], for the velocity of rank [k]. *)
Definition write_row (d : Domain) (iuv k : nat) (i : Z) (dvik : Q) (lab : Z)
    (df : (nat -> list Z -> Q) * (nat -> list Z -> Z))
  : result ((nat -> list Z -> Q) * (nat -> list Z -> Z)) :=
  let '(dist, flg) := df in
  let! x := row_index d iuv i in
  let nind := new_indices d dvik iuv x (dist k) in
  Ok (fun k' n => if (k' =? k)%nat && nind n then dvik else dist k' n,
      fun k' n => if (k' =? k)%nat && nind n then lab else flg k' n).

(** The body of the two loops of [__add_init] for the axis [iuv] and the
    velocity of rank [k], whose component along the axis is [vk]. *)
Definition add_init_velocity (d : Domain) (label : list Z) (iuv k : nat) (vk : Z)
    (df : (nat -> list Z -> Q) * (nat -> list Z -> Z))
  : result ((nat -> list Z -> Q) * (nat -> list Z -> Z)) :=
  let! lower :=
    if (vk <? 0)%Z
    then let! l := index label (2 * Z.of_nat iuv) in Ok (negb (l =? -2)%Z)
    else Ok false in
  if lower then
    let! l := index label (2 * Z.of_nat iuv) in
    for_ (range (- vk))
      (fun i df =>
         let dvik := - (inject_Z i + (1 # 2)) / inject_Z vk in
         write_row d iuv k i dvik l df)
      df
  else
    let! upper :=
      if (0 <? vk)%Z
      then let! l := index label (2 * Z.of_nat iuv + 1) in Ok (negb (l =? -2)%Z)
      else Ok false in
    if upper then
      let! l := index label (2 * Z.of_nat iuv + 1) in
      for_ (range vk)
        (fun i df =>
           let dvik := (inject_Z i + (1 # 2)) / inject_Z vk in
           write_row d iuv k (- i - 1) dvik l df)
        df
    else Ok df.

(** [__add_init].  The stencil gives one halo width per axis: with another
    number of widths [create_coords] or the first view has already raised
    [IndexError]. *)
Definition add_init (d : Domain) (label : list Z) : result Domain :=
  if negb (length (vmax (stencil d)) =? dim (geom d))%nat then Raise IndexError
  else
    let phys := phys_domain d in
    let ioo : list Z -> Q := fun _ => valout in
    let ioo : list Z -> Q := fun n => if in_box phys n then valin else ioo n in
    let uvel := [uv (stencil d) 0; uv (stencil d) 1; uv (stencil d) 2] in
    let! df := for_ (enumerate (take (dim (geom d)) uvel))
      (fun '(iuv, uv) df =>
         for_ (enumerate uv) (fun '(k, vk) df => add_init_velocity d label iuv k vk df) df)
      (distance d, flag d) in
    Ok {| geom := geom d; stencil := stencil d; dx := dx d;
          box_label := box_label d; global_size := global_size d;
          coords_halo := coords_halo d; coords := coords d;
          in_or_out := ioo; distance := fst df; flag := snd df |}.

(** *** [__add_elem]: one element of the geometry *)

Definition get_bounds_halo (d : Domain) : result (list Q * list Q) :=
  let! bottom_right := for_ (range (Z.of_nat (dim (geom d))))
    (fun k acc => let! c := index (coords_halo d) k in
                  let! x := index c 0 in Ok (acc ++ [x])) [] in
  let! upper_left := for_ (range (Z.of_nat (dim (geom d))))
    (fun k acc => let! c := index (coords_halo d) k in
                  let! x := index c (-1) in Ok (acc ++ [x])) [] in
  Ok (bottom_right, upper_left).

(** "compute the box around the element adding vmax safety points": the
    lists [nmin] and [nmax].  The arithmetic is on arrays with one entry per
    axis; arrays of other lengths do not combine (a broadcast from length
    one aside). *)
Definition elem_box (d : Domain) (e : Element) : result (list Z * list Z) :=
  let vmax := vmax (stencil d) in
  let '(elem_bl, elem_ur) := get_bounds e in
  let! (phys_bl, phys_ur) := get_bounds_halo d in
  let n := dim (geom d) in
  if negb ((length vmax =? n)%nat && (length elem_bl =? n)%nat
           && (length elem_ur =? n)%nat && (length (shape_in d) =? n)%nat)
  then Raise ValueError
  else
    let cell b := zip_with (fun x p => trunc ((x - p) / dx d)) b phys_bl in
    let tmp := zip_with Z.sub (cell elem_bl) vmax in
    let nmin := zip_with Z.max vmax tmp in
    let tmp := zip_with (fun t h => (t + h + 1)%Z) (cell elem_ur) vmax in
    let nmax := zip_with Z.min (zip_with Z.add vmax (shape_in d)) tmp in
    Ok (nmin, nmax).

(** The bounds of the views taken with [slice(imin + v, imax + v)] on every
    axis; [v] is the zero vector for [space_slice] itself. *)
Definition view_box (d : Domain) (nmin nmax v : list Z) : list (Z * Z) :=
  zip_with (fun len ab => slice_bounds len (fst ab) (snd ab)) (shape_halo d)
    (zip_with (fun ab c => (fst ab + c, snd ab + c)%Z) (zip nmin nmax) v).

Definition zeros (d : Domain) : list Z := replicate (dim (geom d)) 0%Z.

(** The views line up when no bound is negative and the shifted view has
    the shape of the view of the element. *)
Definition aligned (d : Domain) (nmin nmax v : list Z) : bool :=
  forallb (fun x => 0 <=? x)%Z (nmin ++ nmax ++ zip_with Z.add nmin v ++ zip_with Z.add nmax v)
  && forallb (fun '(b, b') => (Z.max (snd b - fst b) 0 =? Z.max (snd b' - fst b') 0)%Z)
       (zip (view_box d nmin nmax (zeros d)) (view_box d nmin nmax v)).

(** The coordinates of a node: [grid] at the node. *)
Definition point (d : Domain) (n : list Z) : list Q :=
  zip_with (fun c i => nth (Z.to_nat i) c 0) (coords_halo d) n.

(** The node read through the shifted view at the place of [n]. *)
Definition neighbour (d : Domain) (nmin nmax v n : list Z) : list Z :=
  zip_with (fun i bb => (fst (snd bb) + (i - fst (fst bb)))%Z) n
    (zip (view_box d nmin nmax (zeros d)) (view_box d nmin nmax v)).

Section Sweep.

Variable d : Domain.
Variable e : Element.
Variables nmin nmax : list Z.

(** [ind_solid], [ind_fluid] and the array [in_or_out] once the element is
    written into it. *)
Definition region : list (Z * Z) := view_box d nmin nmax (zeros d).

Definition ind_solid (n : list Z) : bool :=
  if isfluid e then negb (point_inside e (point d n)) else point_inside e (point d n).

Definition ind_fluid (n : list Z) : bool :=
  if isfluid e then point_inside e (point d n) else negb (point_inside e (point d n)).

Definition ioo_elem : list Z -> Q :=
  fun n =>
    if in_box region n then
      if isfluid e
      then (if ind_fluid n then valin else in_or_out d n)
      else (if ind_solid n then valout else in_or_out d n)
    else in_or_out d n.

(** The arrays of the body of the loop on the velocities, for the velocity
    [vk] of rank [k] and the current arrays [dist] and [flg]. *)
Section Velocity.

Variable k : nat.
Variable vk : list Z.
Variable dist : nat -> list Z -> Q.
Variable flg : nat -> list Z -> Z.

Definition out_cells (n : list Z) : bool :=
  ioo_elem (neighbour d nmin nmax vk n) =? valout.

Definition candidate (n : list Z) : Q * Z :=
  Element.distance e (point d n) (map (fun c => dx d * inject_Z c) vk) 1.

Definition indx (n : list Z) : bool :=
  (0 <? fst (candidate n)) && ind_fluid n && out_cells n.

Definition borderToInt (n : list Z) : bool :=
  negb (out_cells n) && (ioo_elem n =? valin).

(** [dist_view[k]] and [flag_view[k]] after the reset to [valin]. *)
Definition dist_reset (n : list Z) : Q :=
  if isfluid e
  then (if borderToInt n then valin else dist k n)
  else (if ind_solid n then valin else dist k n).

Definition flag_reset (n : list Z) : Z :=
  if isfluid e
  then (if borderToInt n then valin_flag else flg k n)
  else (if ind_solid n then valin_flag else flg k n).

(** [ind3] among the nodes of [ind4]. *)
Definition ind3 (n : list Z) : bool :=
  if negb (isfluid e)
  then fst (candidate n) <? dist_reset n
  else (dist_reset n <? fst (candidate n)) || (dist_reset n =? valin).

(** "set distance" *)
Definition dist_set (n : list Z) : Q :=
  if indx n && ind3 n then fst (candidate n) else dist_reset n.

Definition flag_set (n : list Z) : Z :=
  if indx n && ind3 n then snd (candidate n) else flag_reset n.

End Velocity.

(** [np.any(vk != 0)] *)
Definition nonzero (vk : list Z) : bool := existsb (fun c => negb (c =? 0)%Z) vk.

(** One turn of the loop on the velocities. *)
Definition sweep (k : nat) (df : (nat -> list Z -> Q) * (nat -> list Z -> Z))
  : result ((nat -> list Z -> Q) * (nat -> list Z -> Z)) :=
  let '(dist, flg) := df in
  let! vk := index (unique_velocities (stencil d)) (Z.of_nat k) in
  if nonzero vk then
    if (length vk <? dim (geom d))%nat then Raise IndexError
    else if negb (aligned d nmin nmax vk) then Raise Misaligned
    else
      Ok (fun k' n => if (k' =? k)%nat && in_box region n
                      then dist_set k vk dist n else dist k' n,
          fun k' n => if (k' =? k)%nat && in_box region n
                      then flag_set k vk dist flg n else flg k' n)
  else Ok df.

End Sweep.

Definition add_elem (d : Domain) (e : Element) : result Domain :=
  let! (nmin, nmax) := elem_box d e in
  if negb (aligned d nmin nmax (zeros d)) then Raise Misaligned
  else
  let! df := for_ (seq 0 (unvtot (stencil d))) (sweep d e nmin nmax) (distance d, flag d) in
  Ok {| geom := geom d; stencil := stencil d; dx := dx d;
        box_label := box_label d; global_size := global_size d;
        coords_halo := coords_halo d; coords := coords d;
        in_or_out := ioo_elem d e nmin nmax; distance := fst df; flag := snd df |}.

(** *** [__init__] *)

Definition __init__ (g : Geometry) (s : Stencil) (space_step : Q)
    (get_region : list Q -> list (Z * Z)) : result Domain :=
  let! gsize := global_sizes g space_step in
  let! (halo, inner) := create_coords g s space_step get_region gsize in
  let! label := relabel g get_region gsize (geom_box_label g) in
  let d := {| geom := g; stencil := s; dx := space_step;
              box_label := label; global_size := gsize;
              coords_halo := halo; coords := inner;
              in_or_out := fun _ => valin;
              distance := fun _ _ => valin;
              flag := fun _ _ => valin_flag |} in
  let! d := add_init d label in
  for_ (list_elem g) (fun elem d => add_elem d elem) d.

End Domain.

(** ** The sweep on the faces of the box, row by row *)

Module PhaseA.

Import Domain.

(** One turn of the innermost loops of [__add_init]: the row [op_i] of the
    axis [op_iuv] receives [op_dvik] and [op_lab] for the velocity of rank
    [op_k]. *)
Record row_op := {
  op_iuv : nat;
  op_k : nat;
  op_i : Z;
  op_dvik : Q;
  op_lab : Z }.

Definition apply_row (d : Domain) (op : row_op)
    (df : (nat -> list Z -> Q) * (nat -> list Z -> Z)) :=
  write_row d (op_iuv op) (op_k op) (op_i op) (op_dvik op) (op_lab op) df.

(** The nodes that the row writes, given the distances stored for its
    velocity. *)
Definition written (d : Domain) (op : row_op) (dist : nat -> list Z -> Q)
    (n : list Z) : bool :=
  match row_index d (op_iuv op) (op_i op) with
  | Ok x => new_indices d (op_dvik op) (op_iuv op) x (dist (op_k op)) n
  | Raise _ => false
  end.

(** The labels of the two faces of the axis [i] once the range [r] of the
    worker is compared with the global size. *)
Definition lower_label (label : list Z) (i : nat) (r : Z * Z) : option Z :=
  if (fst r =? 0)%Z then label !! (2 * i)%nat else Some (-2)%Z.

Definition upper_label (label : list Z) (i : nat) (r : Z * Z) (size : Q) : option Z :=
  if inject_Z (snd r) =? size then label !! (2 * i + 1)%nat else Some (-2)%Z.

(** The label of the face through which a velocity of component [vk] along
    the axis [iuv] leaves the box, unless the face is an interface. *)
Definition face (iuv : nat) (vk : Z) : Z :=
  (if vk <? 0 then 2 * Z.of_nat iuv else 2 * Z.of_nat iuv + 1)%Z.

Definition face_label (label : list Z) (iuv : nat) (vk : Z) : option Z :=
  if (vk =? 0)%Z then None
  else match index label (face iuv vk) with
       | Ok l => if (l =? -2)%Z then None else Some l
       | Raise _ => None
       end.

(** The rows written for one axis and one velocity, in order. *)
Definition velocity_rows (label : list Z) (iuv k : nat) (vk : Z) : list row_op :=
  match face_label label iuv vk with
  | Some l =>
      if (vk <? 0)%Z
      then map (fun i => {| op_iuv := iuv; op_k := k; op_i := i;
                            op_dvik := - (inject_Z i + (1 # 2)) / inject_Z vk;
                            op_lab := l |}) (range (- vk))
      else map (fun i => {| op_iuv := iuv; op_k := k; op_i := (- i - 1)%Z;
                            op_dvik := (inject_Z i + (1 # 2)) / inject_Z vk;
                            op_lab := l |}) (range vk)
  | None => []
  end.

(** All the rows written by [__add_init], in order. *)
Definition schedule (d : Domain) (label : list Z) : list row_op :=
  let s := stencil d in
  flat_map (fun '(iuv, uv) => flat_map (fun '(k, vk) => velocity_rows label iuv k vk)
                                (enumerate uv))
    (enumerate (take (dim (geom d)) [uv s 0; uv s 1; uv s 2])).

(** The node [n] lies on the row of [op], for the velocity of rank [k]. *)
Definition reaches (d : Domain) (op : row_op) (k : nat) (n : list Z) : bool :=
  (op_k op =? k)%nat &&
  match row_index d (op_iuv op) (op_i op) with
  | Ok x => row d (op_iuv op) x n
  | Raise _ => false
  end.

(** The fractional distances of the faces that the node [n] reaches along
    the velocity of rank [k]. *)
Definition reaching (d : Domain) (label : list Z) (k : nat) (n : list Z) : list Q :=
  map op_dvik (filter (fun op => reaches d op k n = true) (schedule d label)).

Definition minimum (l : list Q) : Q := fold_right Qmin valin l.

End PhaseA.

(** ** The part of the grid that an element may touch *)

Module PhaseB.

Import Element Domain.

(** The whole local grid, halo included. *)
Definition halo_grid (d : Domain) : list (Z * Z) :=
  map (fun len => (0%Z, len)) (shape_halo d).

(** The spec's words for the part of the grid that an element may touch:
    "the shape's bounding box expanded by vmax per axis".  The point of
    the node [n] lies in the bounding box of the element widened, on every
    axis, by [vmax + lower] space steps below and by [vmax + upper] space
    steps above. *)
Definition widened (d : Domain) (e : Element) (lower upper : Z) (n : list Z) : bool :=
  forallb
    (fun i =>
       let x := nth i (point d n) 0 in
       let lo := nth i (fst (get_bounds e)) 0 in
       let hi := nth i (snd (get_bounds e)) 0 in
       let h := nth i (vmax (stencil d)) 0%Z in
       (lo - dx d * inject_Z (h + lower) <=? x) && (x <=? hi + dx d * inject_Z (h + upper)))
    (seq 0 (dim (geom d))).

(** The upper bounds of the element are not below the first node of the
    grid, on any axis. *)
Definition reaches_grid (d : Domain) (e : Element) : bool :=
  forallb
    (fun i => nth 0 (nth i (coords_halo d) []) 0 <=? nth i (snd (get_bounds e)) 0)
    (seq 0 (dim (geom d))).

(** No velocity of the stencil exceeds [vmax] on any axis. *)
Definition within_vmax (s : Stencil) : bool :=
  forallb
    (fun v => forallb (fun i => (Z.abs (nth i v 0) <=? nth i (vmax s) 0)%Z)
                      (seq 0 (length (vmax s))))
    (unique_velocities s).

(** The node [n] holds after the element what it held before. *)
Definition untouched (d d' : Domain) (n : list Z) : Prop :=
  in_or_out d' n = in_or_out d n /\
  forall k, distance d' k n = distance d k n /\ flag d' k n = flag d k n.

(** The entries of [distance] and [flag] for the velocity of rank [k] once
    the loop on the velocities has run on the arrays [dist] and [flg]. *)
Definition swept (d : Domain) (e : Element) (nmin nmax : list Z)
    (dist : nat -> list Z -> Q) (flg : nat -> list Z -> Z)
    (k : nat) (n : list Z) : Q * Z :=
  match unique_velocities (stencil d) !! k with
  | Some vk =>
      if nonzero vk && in_box (region d nmin nmax) n
      then (dist_set d e nmin nmax k vk dist n, flag_set d e nmin nmax k vk dist flg n)
      else (dist k n, flg k n)
  | None => (dist k n, flg k n)
  end.

(** A stored distance is the sentinel or a fraction of one step. *)
Definition in_range (x : Q) : Prop := x == valin \/ (0 < x /\ x <= 1).

(** An element honours [dmax] when its positive answers do not exceed
    it. *)
Definition honours_dmax (e : Element) : Prop :=
  forall p v dmax,
    0 < fst (Element.distance e p v dmax) -> fst (Element.distance e p v dmax) <= dmax.

End PhaseB.

(** ** Concrete scenes *)

Module Scenes.

Import Element Domain.

(** The square root of a rational, exact on the squares of rationals and
    rounded down to a multiple of the inverse of the denominator otherwise.
    The values that the properties below read off the scenes come from
    nodes where the discriminant is a square. *)
Definition sqrtQ (q : Q) : Q := Z.sqrt (Qnum q * Zpos (Qden q)) # Qden q.

(** The smallest root of [a t^2 + b t + c] within (0, dmax], or -1. *)
Definition smallest_root (a b c : Q) (dmax : option Q) : Q :=
  let delta := b ^ 2 - 4 * a * c in
  if (delta <? 0) || (a =? 0) then -1
  else
    let d1 := (- b - sqrtQ delta) / (2 * a) in
    let d2 := (- b + sqrtQ delta) / (2 * a) in
    let ok t := (0 <? t) && match dmax with Some m => t <=? m | None => true end in
    if ok (Qmin d1 d2) then Qmin d1 d2
    else if ok (Qmax d1 d2) then Qmax d1 d2
    else -1.

(** Modelled from the spec: [utils.distance_ellipsoid] is missing.  For a
    sphere, "[distance] solves the quadratic |p + t v - center|^2 = radius^2
    for the smallest non-negative root within (0, max_step]; no real root
    or all roots out of range => sentinel"; the radius is read off the
    first axis vector. *)
Definition distance_ellipsoid (x y z : Q) (v c v1 v2 v3 : vec3) (dmax : option Q)
    (label : list Z) : Q * Z :=
  let '(vx, vy, vz) := v in
  let '(c0, c1, c2) := c in
  let '(r, _, _) := v1 in
  let '(X, Y, Z) := (x - c0, y - c1, z - c2) in
  let t := smallest_root (vx ^ 2 + vy ^ 2 + vz ^ 2)
                         (2 * (X * vx + Y * vy + Z * vz))
                         (X ^ 2 + Y ^ 2 + Z ^ 2 - r ^ 2) dmax in
  if 0 <? t then (t, nth 0 label (-1)%Z) else (-1, (-1)%Z).

(** Modelled from the spec: the class [Base_Circle] of [elements/base.py]
    is missing.  The base is "a 2D base-shape primitive (circle/ellipse/
    triangle) operating on (x', y')": in the frame of the cylinder the
    circle is the unit circle; its bounds are those of "the axis-aligned box
    exactly containing the shape" spanned by [v1] and [v2] around the
    centre. *)
Definition Base_Circle (center v1 v2 : vec3) : Cylinder.Base :=
  let '(c0, c1, c2) := center in
  let '(a0, a1, a2) := v1 in
  let '(b0, b1, b2) := v2 in
  let e0 := sqrtQ (a0 ^ 2 + b0 ^ 2) in
  let e1 := sqrtQ (a1 ^ 2 + b1 ^ 2) in
  let e2 := sqrtQ (a2 ^ 2 + b2 ^ 2) in
  {| Cylinder.base_get_bounds := ((c0 - e0, c1 - e1, c2 - e2), (c0 + e0, c1 + e1, c2 + e2));
     Cylinder.base_point_inside := fun x y => x ^ 2 + y ^ 2 <=? 1;
     Cylinder.base_distance := fun x y v dmax label =>
       let '(vx, vy) := v in
       let t := smallest_root (vx ^ 2 + vy ^ 2) (2 * (x * vx + y * vy))
                              (x ^ 2 + y ^ 2 - 1) dmax in
       if 0 <? t then (t, nth 0 label (-1)%Z) else (-1, (-1)%Z) |}.

(** The six axis-aligned velocities of speed one. *)
Definition d3q6 : Stencil :=
  {| unique_velocities := [[1; 0; 0]; [-1; 0; 0]; [0; 1; 0]; [0; -1; 0]; [0; 0; 1]; [0; 0; -1]]%Z;
     vmax := [1; 1; 1]%Z |}.

(** One worker owns the whole box. *)
Definition whole (gsize : list Q) : list (Z * Z) := map (fun g => (0%Z, trunc g)) gsize.

(** The first of two workers that share the box along the first axis. *)
Definition first_half (gsize : list Q) : list (Z * Z) :=
  match gsize with
  | g :: rest => (0%Z, trunc g / 2)%Z :: whole rest
  | [] => []
  end.

(** *** Two overlapping solid spheres in the box [0,8]^3 *)

Definition ball (c : vec3) (r : Q) (l : Z) (fluid : bool) : Element :=
  of_sphere distance_ellipsoid
    {| Sphere.center := c; Sphere.radius := r; Sphere.label := [l]; Sphere.isfluid := fluid |}.

Definition large_ball : Element := ball (3, 9 # 2, 9 # 2) 2 7 false.
Definition small_ball : Element := ball (5, 9 # 2, 9 # 2) 1 8 false.

Definition cube (elems : list Element) : Geometry :=
  {| dim := 3; bounds := [(0, 8); (0, 8); (0, 8)];
     geom_box_label := [0; 1; 2; 3; 4; 5]%Z; list_elem := elems |}.

Definition one_ball : result Domain := __init__ (cube [large_ball]) d3q6 1 whole.

Definition two_balls : result Domain := __init__ (cube [large_ball; small_ball]) d3q6 1 whole.

(** *** A fluid sphere across the lower face of the same box *)

Definition bubble : Element := ball (0, 9 # 2, 9 # 2) 1 9 true.

Definition empty_cube : result Domain := __init__ (cube []) d3q6 1 whole.

(** *** A cylinder along the first axis, and a channel shared by two workers

    The cylinder has its axis along the first axis and spans 5 <= x <= 7
    around the line [y = z = 3/2]; its caps carry the labels 11 (at
    [x = 5], the cap [z' = -1]) and 12.  The channel is the box
    [0,8] x [0,4] x [0,4]. *)

Definition rod : Cylinder.Cylinder :=
  {| Cylinder.center := (6, 3 # 2, 3 # 2);
     Cylinder.v1 := (0, 1, 0);
     Cylinder.v2 := (0, 0, 1);
     Cylinder.w := (1, 0, 0);
     Cylinder.iA := Mat3 0 1 0 0 0 1 1 0 0;
     Cylinder.base := Base_Circle (6, 3 # 2, 3 # 2) (0, 1, 0) (0, 0, 1);
     Cylinder.label := [10; 11; 12]%Z;
     Cylinder.isfluid := false |}.

Definition slab (elems : list Element) : Geometry :=
  {| dim := 3; bounds := [(0, 8); (0, 4); (0, 4)];
     geom_box_label := [0; 1; 2; 3; 4; 5]%Z; list_elem := elems |}.

(** *** A corner of the square [0,4]^2 with velocities of speed one and two *)

Definition d2q4 : Stencil :=
  {| unique_velocities := [[1; 0]; [0; 1]; [1; 1]; [2; 1]]%Z; vmax := [2; 1]%Z |}.

Definition square : Geometry :=
  {| dim := 2; bounds := [(0, 4); (0, 4)];
     geom_box_label := [0; 1; 2; 3]%Z; list_elem := [] |}.

(** The arrays as [__init__] hands them to [__add_init]. *)
Definition blank (g : Geometry) (s : Stencil) (space_step : Q)
    (get_region : list Q -> list (Z * Z)) : result Domain :=
  let! gsize := global_sizes g space_step in
  let! (halo, inner) := create_coords g s space_step get_region gsize in
  let! label := relabel g get_region gsize (geom_box_label g) in
  Ok {| geom := g; stencil := s; dx := space_step;
        box_label := label; global_size := gsize;
        coords_halo := halo; coords := inner;
        in_or_out := fun _ => valin;
        distance := fun _ _ => valin;
        flag := fun _ _ => valin_flag |}.



(** The domain that a construction yields (an empty one when it fails). *)
Definition void : Domain :=
  {| geom := {| dim := 0; bounds := []; geom_box_label := []; list_elem := [] |};
     stencil := {| unique_velocities := []; vmax := [] |};
     dx := 1; box_label := []; global_size := [];
     coords_halo := []; coords := [];
     in_or_out := fun _ => valin;
     distance := fun _ _ => valin;
     flag := fun _ _ => valin_flag |}.

Definition built (r : result Domain) : Domain :=
  match r with
  | Ok d => d
  | Raise _ => void
  end.

Definition succeeds {A} (r : result A) : bool :=
  match r with
  | Ok _ => true
  | Raise _ => false
  end.

(** The rendering of values is immaterial to the construction. *)
Definition str (v : Sphere.value) : string := EmptyString.

End Scenes.

(** ** The mesh of a worker *)

Module Mesh.

Import Element Domain.

(** The number of cells along an axis of bounds [b]: the quotient that
    [create_coords] appends to [global_size]. *)
Definition cells (space_step : Q) (b : Q * Q) : Q := (snd b - fst b) / space_step.

(** The centre of the cell of rank [j] (counted over all the workers) on an
    axis that starts at [x0]. *)
Definition centre (x0 space_step : Q) (j : Z) : Q :=
  x0 + space_step * (inject_Z j + (1 # 2)).

(** The coordinates without halo are those with halo less [vmax] nodes at
    each end of every axis, as [create_coords] slices them; the stencil
    gives one width per axis. *)
Definition sliced (d : Domain) : Prop :=
  coords d = zip_with (fun c h => slice c h (- h)) (coords_halo d) (vmax (stencil d))
  /\ length (coords_halo d) = dim (geom d)
  /\ length (vmax (stencil d)) = dim (geom d).

(** The nodes of every axis are one space step apart. *)
Definition uniform (d : Domain) : Prop :=
  forall k c i x0 x,
    coords_halo d !! k = Some c -> c !! 0%nat = Some x0 -> c !! i = Some x ->
    x == x0 + dx d * inject_Z (Z.of_nat i).

(** The bounds of an element contain the points that it holds. *)
Definition bounded (e : Element) : Prop :=
  forall p, point_inside e p = true ->
    Forall2 Qle (fst (get_bounds e)) p /\ Forall2 Qle p (snd (get_bounds e)).

End Mesh.

(** ** The bounds of the nodes of a worker *)

Module Bounds.

Import Domain.

(** [Domain.get_bounds]: the first and the last coordinate without halo of
    every axis. *)
Definition get_bounds (d : Domain) : result (list Q * list Q) :=
  let! bottom_right := for_ (range (Z.of_nat (dim (geom d))))
    (fun k acc => let! c := index (coords d) k in
                  let! x := index c 0 in Ok (acc ++ [x])) [] in
  let! upper_left := for_ (range (Z.of_nat (dim (geom d))))
    (fun k acc => let! c := index (coords d) k in
                  let! x := index c (-1) in Ok (acc ++ [x])) [] in
  Ok (bottom_right, upper_left).

End Bounds.

(** ** The constructors of the cylinders *)

Module CylinderInit.

Import Cylinder.

(** The matrix whose columns are [v1], [v2] and [w]. *)
Definition columns (v1 v2 w : vec3) : mat3 :=
  let '(a0, a1, a2) := v1 in
  let '(b0, b1, b2) := v2 in
  let '(c0, c1, c2) := w in
  Mat3 a0 b0 c0 a1 b1 c1 a2 b2 c2.

(** The matrix [N] undoes the matrix [M]: [N.dot(M.dot(u))] is [u] for
    every vector [u]. *)
Definition undoes (N M : mat3) : Prop :=
  forall u : vec3,
    let '(x, y, z) := dot N (dot M u) in
    let '(a, b, c) := u in
    x == a /\ y == b /\ z == c.

Section Init.

(** [np.linalg.inv] is a function of NumPy and a parameter here: the
    properties that need it suppose that a matrix it returns undoes its
    argument, and nothing about the matrices on which it raises. *)
Variable inv : mat3 -> result mat3.

(** The class of the base ([Base_Circle], [Base_Ellipse] or
    [Base_Triangle]) and [Element.test_label] are defined in
    [elements/base.py], which is not part of the sources at hand;
    [number_of_bounds] is the class attribute of the cylinder (3, 3 and 5). *)
Variable mk_base : vec3 -> vec3 -> vec3 -> Base.
Variable test_label : list Z -> nat -> result unit.
Variable number_of_bounds : nat.

(** [change_of_variables]: the matrix whose columns are [v1], [v2] and
    [w], and its inverse. *)
Definition change_of_variables (v1 v2 w : vec3) : result (mat3 * mat3) :=
  let A := columns v1 v2 w in
  let! iA := inv A in
  Ok (A, iA).

(** [Cylinder_Circle.__init__], [Cylinder_Ellipse.__init__] and
    [Cylinder_Triangle.__init__], which differ by the class of the base and
    by [number_of_bounds], followed by [Cylinder.__init__].  The
    description that is logged at the end reads attributes that are all
    set. *)
Definition __init__ (center v1 v2 w : vec3) (label : Sphere.label_arg)
    (isfluid : bool) : result Cylinder :=
  let! (_, iA) := change_of_variables v1 v2 w in
  let base := mk_base center v1 v2 in
  let label :=
    match label with
    | Sphere.LInt l => replicate number_of_bounds l
    | Sphere.LList l => l
    end in
  let! _ := test_label label number_of_bounds in
  Ok {| center := center; v1 := v1; v2 := v2; w := w; iA := iA;
        base := base; label := label; isfluid := isfluid |}.

End Init.

(** The point reached from [p] with the parameter [t] along [v]. *)
Definition move (p v : vec3) (t : Q) : vec3 :=
  let '(x, y, z) := p in
  let '(a, b, c) := v in
  (x + t * a, y + t * b, z + t * c).

End CylinderInit.

(** ** The stages of the construction of a domain *)

Module Construction.

Import Element Domain PhaseA.

(** The domain after Phase A and the first [n] elements of the geometry. *)
Definition stage (g : Geometry) (s : Stencil) (space_step : Q)
    (get_region : list Q -> list (Z * Z)) (n : nat) : result Domain :=
  let! d0 := Scenes.blank g s space_step get_region in
  let! da := add_init d0 (box_label d0) in
  for_ (take n (list_elem g)) (fun elem d => add_elem d elem) da.


End Construction.

(** ** More scenes *)

Module Cases.

Import Element Domain Scenes.

(** The six velocities of speed one together with the velocity zero. *)
Definition d3q7 : Stencil :=
  {| unique_velocities :=
       [[0; 0; 0]; [1; 0; 0]; [-1; 0; 0]; [0; 1; 0]; [0; -1; 0]; [0; 0; 1]; [0; 0; -1]]%Z;
     vmax := [1; 1; 1]%Z |}.

(** Two velocities along the first axis of the plane: nothing moves along
    the second axis, whose halo has width zero. *)
Definition d2q2 : Stencil :=
  {| unique_velocities := [[1; 0]; [-1; 0]]%Z; vmax := [1; 0]%Z |}.

(** A solid sphere far beyond the upper face of the cube. *)
Definition far_ball : Element := ball (20, 9 # 2, 9 # 2) 1 9 false.

(** Cramer's rule: one function that returns a matrix which undoes its
    argument when the determinant is not zero; it stands for the inversion
    of NumPy in the examples, which invert matrices of determinant one or
    four. *)
Definition det (M : mat3) : Q :=
  m00 M * (m11 M * m22 M - m12 M * m21 M)
  - m01 M * (m10 M * m22 M - m12 M * m20 M)
  + m02 M * (m10 M * m21 M - m11 M * m20 M).

Definition cramer (M : mat3) : result mat3 :=
  let dt := det M in
  if dt =? 0 then Raise ValueError
  else Ok (Mat3 ((m11 M * m22 M - m12 M * m21 M) / dt)
                ((m02 M * m21 M - m01 M * m22 M) / dt)
                ((m01 M * m12 M - m02 M * m11 M) / dt)
                ((m12 M * m20 M - m10 M * m22 M) / dt)
                ((m00 M * m22 M - m02 M * m20 M) / dt)
                ((m02 M * m10 M - m00 M * m12 M) / dt)
                ((m10 M * m21 M - m11 M * m20 M) / dt)
                ((m01 M * m20 M - m00 M * m21 M) / dt)
                ((m00 M * m11 M - m01 M * m10 M) / dt)).

End Cases.

(** * Properties *)

(** ** Boolean tests on rationals *)

Lemma Qltb_spec (a b : Q) : BoolSpec (a < b) (b <= a) (a <? b).
Proof.
  unfold Qltb. destruct (Qle_bool b a) eqn:E; simpl; constructor.
  - now apply Qle_bool_iff.
  - apply Qnot_le_lt. intros H. apply Qle_bool_iff in H. congruence.
Qed.

Lemma Qleb_spec (a b : Q) : BoolSpec (a <= b) (b < a) (a <=? b).
Proof.
  unfold Qleb. destruct (Qle_bool a b) eqn:E; constructor.
  - now apply Qle_bool_iff.
  - apply Qnot_le_lt. intros H. apply Qle_bool_iff in H. congruence.
Qed.

Lemma Qeqb_spec (a b : Q) : BoolSpec (a == b) (~ a == b) (a =? b).
Proof.
  unfold Qeqb. destruct (Qeq_bool a b) eqn:E; constructor.
  - now apply Qeq_bool_iff.
  - now apply Qeq_bool_neq.
Qed.

(** Case analysis on every test of the goal, keeping the facts. *)
Ltac qtests :=
  repeat match goal with
  | |- context [?a <? ?b] => destruct (Qltb_spec a b)
  | |- context [?a <=? ?b] => destruct (Qleb_spec a b)
  | |- context [?a =? ?b] => destruct (Qeqb_spec a b)
  end.

Lemma Qmin3_cases (x y z : Q) :
  let m := Qmin x (Qmin y z) in
  m <= x /\ m <= y /\ m <= z /\ (m == x \/ m == y \/ m == z).
Proof.
  simpl.
  destruct (Q.min_spec y z) as [[H1 E1] | [H1 E1]];
  destruct (Q.min_spec x (Qmin y z)) as [[H2 E2] | [H2 E2]];
  rewrite E2; rewrite ?E1 in *; repeat split; try lra; auto.
  all: try (right; left; lra); try (right; right; lra).
Qed.

Section CylinderCaps.

Import Cylinder Scenes.

(** C5, failing run. A point on the axis of the cylinder [rod], one and a
    half steps before its bottom cap, is queried along the axis.  Whatever
    the maximal step [dmax] is (one, as [Domain.__add_elem] passes it, or
    a thousandth), [Cylinder.distance] returns the parameter [3/2] with the
    label of the cap: [dmax] goes to the base for the lateral surface only
    and the hits of the caps are never compared with it.  A point on the
    cap itself gets the parameter [0], which is neither in (0, [dmax]] nor
    the negative value that stands for no intersection. *)
Theorem cylinder_cap_hit_ignores_max_step :
  forall dmax : option Q,
    (exists alpha,
        distance rod (7 # 2, 3 # 2, 3 # 2) (1, 0, 0) dmax = Ok (alpha, 11%Z) /\
        alpha == 3 # 2 /\
        (forall m, dmax = Some m -> m < 3 # 2 -> ~ alpha <= m)) /\
    (exists alpha,
        distance rod (5, 3 # 2, 3 # 2) (1, 0, 0) dmax = Ok (alpha, 11%Z) /\
        alpha == 0).
Proof.
  intros dmax. split.
  - eexists. split; [vm_compute; reflexivity |]. split; [reflexivity |].
    intros m _ Hm. apply Qlt_not_le. 
    setoid_replace (48 # 32) with (3 # 2) using relation Qeq by reflexivity. exact Hm.
  - eexists. split; [vm_compute; reflexivity |]. reflexivity.
Qed.

End CylinderCaps.

Lemma index_in_range {A} (l : list A) (i : Z) :
  (- Z.of_nat (length l) <= i < Z.of_nat (length l))%Z ->
  exists x, index l i = Ok x.
Proof.
  intros Hi. unfold index.
  set (j := (if (i <? 0)%Z then (i + Z.of_nat (length l))%Z else i)).
  assert (Hj : (0 <= j < Z.of_nat (length l))%Z).
  { subst j. destruct (Z.ltb_spec i 0); lia. }
  destruct (Z.leb_spec 0 j); [| lia]. destruct (Z.ltb_spec j (Z.of_nat (length l))); [| lia].
  cbn [andb]. destruct (l !! Z.to_nat j) as [x |] eqn:E; [eauto |].
  apply lookup_ge_None in E. lia.
Qed.

Section CylinderNoHit.

Import Cylinder.

Variable c : Cylinder.
Variables p v : vec3.
Variable dmax : option Q.

(** C10. For a cylinder with at least two labels, [label[-2]] exists and:
    when the lateral, top and bottom candidates are all invalid,
    [Cylinder.distance] returns the parameter [-1] together with the label
    [label[-2]] of the bottom cap, not a sentinel; and whenever the smallest
    candidate equals the bottom candidate (in particular when both caps
    give the same smallest parameter) the label returned is [label[-2]],
    the assignment for the bottom cap being the last one. *)
Theorem cylinder_distance_no_hit_reports_bottom :
  (2 <= length (label c))%nat ->
  exists l2,
    index (label c) (-2) = Ok l2 /\
    ((fst (lateral c p v dmax) < 0 \/
      (0 < fst (lateral c p v dmax) /\ 1 < Qabs (axial c p v (fst (lateral c p v dmax))))) ->
     (top_param c p v < 0 \/ cap_inside c p v (top_param c p v) = false) ->
     (bot_param c p v < 0 \/ cap_inside c p v (bot_param c p v) = false) ->
     distance c p v dmax = Ok (-1, l2)) /\
    (forall alpha border,
       distance c p v dmax = Ok (alpha, border) ->
       first_candidate c p v dmax == bot_candidate c p v ->
       border = l2).
Proof.
  intros Hlen.
  destruct (index_in_range (label c) (-1)) as [l1 E1]; [lia |].
  destruct (index_in_range (label c) (-2)) as [l2 E2]; [lia |].
  exists l2. split; [exact E2 |]. split.
  - intros Hs Ht Hb.
    assert (Ks : fst (side_candidate c p v dmax) = big).
    { unfold side_candidate, axial in *.
      destruct (dot (iA c) v) as [[vx vy] vz], (to_cyl c p) as [[x y] z].
      destruct (lateral c p v dmax) as [a b]. cbn [fst snd] in *.
      destruct Hs as [Ha | [Ha Hz]].
      - destruct (Qltb_spec a 0); [| lra].
        now destruct ((0 <? big) && (1 <? Qabs (z + big * vz))).
      - destruct (Qltb_spec a 0); [lra |].
        destruct (Qltb_spec 0 a); [| lra]. destruct (Qltb_spec 1 (Qabs (z + a * vz))); [| lra].
        reflexivity. }
    assert (Kt : top_candidate c p v = big).
    { unfold top_candidate. destruct Ht as [Ht | Ht].
      - destruct (Qltb_spec (top_param c p v) 0); [reflexivity | lra].
      - rewrite Ht. now rewrite orb_true_r. }
    assert (Kb : bot_candidate c p v = big).
    { unfold bot_candidate. destruct Hb as [Hb | Hb].
      - destruct (Qltb_spec (bot_param c p v) 0); [reflexivity | lra].
      - rewrite Hb. now rewrite orb_true_r. }
    unfold distance, first_candidate. rewrite E1, E2, Kt, Kb.
    destruct (side_candidate c p v dmax) as [sa sb]. cbn [fst] in Ks. subst sa.
    cbn [fst bind]. reflexivity.
  - intros alpha border. unfold distance. rewrite E1, E2.
    destruct (side_candidate c p v dmax) as [sa sb]. cbn [bind].
    intros H Htie. inversion H; subst.
    destruct (Qeqb_spec (first_candidate c p v dmax) (bot_candidate c p v)); [reflexivity | contradiction].
Qed.

End CylinderNoHit.

Lemma cylinder_distance_no_hit_reports_bottom_witness :
  Cylinder.distance Scenes.rod (7 # 2, 7 # 2, 3 # 2) (1, 0, 0) (Some 1) = Ok (-1, 11%Z)
  /\ Cylinder.distance Scenes.rod (7 # 2, 3 # 2, 3 # 2) (1, 0, 0) (Some 1) = Ok (48 # 32, 11%Z).
Proof.
  split.
  - destruct (cylinder_distance_no_hit_reports_bottom Scenes.rod (7 # 2, 7 # 2, 3 # 2) (1, 0, 0) (Some 1))
      as (l2 & E & Hno & _).
    + vm_compute. lia.
    + vm_compute in E. inversion E; subst l2. apply Hno.
      * left. vm_compute. reflexivity.
      * right. vm_compute. reflexivity.
      * right. vm_compute. reflexivity.
  - destruct (cylinder_distance_no_hit_reports_bottom Scenes.rod (7 # 2, 3 # 2, 3 # 2) (1, 0, 0) (Some 1))
      as (l2 & E & _ & Htie).
    + vm_compute. lia.
    + vm_compute in E. inversion E; subst l2.
      destruct (Cylinder.distance Scenes.rod (7 # 2, 3 # 2, 3 # 2) (1, 0, 0) (Some 1))
        as [[alpha border] | e] eqn:D; [| vm_compute in D; discriminate].
      rewrite (Htie alpha border eq_refl); [| vm_compute; reflexivity].
      vm_compute in D. inversion D; subst. reflexivity.
Defined.

Section SphereInit.

Import Sphere.

Variable Element_init :
  gmap string value -> label_arg -> bool -> result (gmap string value).
Variable str : value -> string.

(** C8. Constructing a [Sphere] with a negative radius aborts: [__init__]
    raises and yields no object.  ([self.radius] is not assigned, and the
    description logged at the end of [__init__] reads it.)  The initialiser
    of the base class, whose code is in another file, is supposed not to
    define [radius] itself. *)
Theorem sphere_negative_radius_aborts (center : list Q) (radius : Q)
    (label : label_arg) (isfluid : bool) :
  (forall self self' : gmap string value,
      self !! "radius"%string = None ->
      Element_init self label isfluid = Ok self' ->
      self' !! "radius"%string = None) ->
  radius < 0 ->
  exists e, __init__ Element_init str center radius label isfluid = Raise e.
Proof.
  intros Hbase Hneg. unfold __init__.
  destruct (Qleb_spec 0 radius) as [H | _]; [lra |].
  destruct (Element_init _ label isfluid) as [self' | e] eqn:E; cbn [bind]; [| eauto].
  apply Hbase in E.
  - unfold __str__, getattr. rewrite E.
    destruct (self' !! "center"%string); cbn [bind]; eauto.
  - rewrite !lookup_insert_ne by discriminate. apply lookup_empty.
Qed.

End SphereInit.

Lemma sphere_negative_radius_aborts_witness :
  exists e, Sphere.__init__ Sphere.Element_init Scenes.str [0; 0; 0] (-1) (Sphere.LInt 0) false
            = Raise e.
Proof.
  apply sphere_negative_radius_aborts.
  - intros self self' Hr. unfold Sphere.Element_init, Sphere.getattr.
    destruct (<["isfluid"%string:=Sphere.VBool false]> self !! "number_of_bounds"%string) as [[] |];
      cbn [bind]; intros H; inversion H; subst.
    rewrite !lookup_insert_ne by discriminate. exact Hr.
  - reflexivity.
Defined.

Example sphere_unit_radius_is_built :
  exists self, Sphere.__init__ Sphere.Element_init Scenes.str [0; 0; 0] 1 (Sphere.LInt 0) false
               = Ok self.
Proof. eexists. vm_compute. reflexivity. Qed.

Example sphere_negative_radius_exception :
  Sphere.__init__ Sphere.Element_init Scenes.str [0; 0; 0] (-1) (Sphere.LInt 0) false
  = Raise (AttributeError "radius").
Proof. vm_compute. reflexivity. Qed.

(** ** Loops *)

Section Loops.

Context {A S : Type}.

Lemma for_app (l1 l2 : list A) (body : A -> S -> result S) (s : S) :
  for_ (l1 ++ l2) body s = let! s' := for_ l1 body s in for_ l2 body s'.
Proof.
  revert s. induction l1 as [| x l1 IH]; intros s; cbn [for_ app bind]; [reflexivity |].
  destruct (body x s); cbn [bind]; auto.
Qed.

Lemma for_map {B} (f : B -> A) (l : list B) (body : A -> S -> result S) (s : S) :
  for_ (map f l) body s = for_ l (fun x => body (f x)) s.
Proof.
  revert s. induction l as [| x l IH]; intros s; cbn [for_ map bind]; [reflexivity |].
  destruct (body (f x) s); cbn [bind]; auto.
Qed.

Lemma for_flat_map {B} (f : B -> list A) (l : list B) (body : A -> S -> result S) (s : S) :
  for_ (flat_map f l) body s = for_ l (fun x s => for_ (f x) body s) s.
Proof.
  revert s. induction l as [| x l IH]; intros s; cbn [for_ flat_map]; [reflexivity |].
  rewrite for_app. destruct (for_ (f x) body s); cbn [bind]; auto.
Qed.

(** A loop whose turns succeed like those of another one succeeds like
    it. *)
Lemma for_refines (l : list A) (body body' : A -> S -> result S) (s s' : S) :
  (forall x t t', body x t = Ok t' -> body' x t = Ok t') ->
  for_ l body s = Ok s' -> for_ l body' s = Ok s'.
Proof.
  intros Hb. revert s. induction l as [| x l IH]; intros s; cbn [for_]; [auto |].
  destruct (body x s) as [t |] eqn:E; cbn [bind]; [| discriminate].
  rewrite (Hb _ _ _ E). cbn [bind]. apply IH.
Qed.

(** An invariant indexed by the number of turns done. *)
Lemma for_invariant (P : nat -> S -> Prop) (l : list A) (body : A -> S -> result S) (s : S) :
  P 0%nat s ->
  (forall i x t, l !! i = Some x -> P i t -> exists t', body x t = Ok t' /\ P (Datatypes.S i) t') ->
  exists s', for_ l body s = Ok s' /\ P (length l) s'.
Proof.
  revert P s. induction l as [| x l IH]; intros P s H0 Hstep; cbn [for_ length].
  - eauto.
  - destruct (Hstep 0%nat x s eq_refl H0) as (t & E & Ht). rewrite E. cbn [bind].
    apply (IH (fun i => P (Datatypes.S i))); [exact Ht |].
    intros i y u Hy. apply (Hstep (Datatypes.S i)). exact Hy.
Qed.

(** The states met by a loop that succeeds. *)
Lemma for_prefix (l1 l2 : list A) (body : A -> S -> result S) (s s' : S) :
  for_ (l1 ++ l2) body s = Ok s' ->
  exists t, for_ l1 body s = Ok t /\ for_ l2 body t = Ok s'.
Proof.
  rewrite for_app. destruct (for_ l1 body s) as [t |]; cbn [bind]; [eauto | discriminate].
Qed.

End Loops.

Lemma range_lookup (n : Z) (i : nat) :
  (Z.of_nat i < n)%Z -> range n !! i = Some (Z.of_nat i).
Proof.
  intros H. unfold range. rewrite list_lookup_fmap.
  rewrite lookup_seq_lt by lia. reflexivity.
Qed.

Lemma range_length (n : Z) : length (range n) = Z.to_nat n.
Proof. unfold range. now rewrite length_map, length_seq. Qed.

Lemma range_lookup_Some (n : Z) (i : nat) (x : Z) :
  range n !! i = Some x -> x = Z.of_nat i /\ (Z.of_nat i < n)%Z.
Proof.
  intros H. pose proof (lookup_lt_Some _ _ _ H) as Hl. rewrite range_length in Hl.
  rewrite range_lookup in H by lia. inversion H. lia.
Qed.

Lemma In_range (n x : Z) : In x (range n) <-> (0 <= x < n)%Z.
Proof.
  unfold range. rewrite in_map_iff. split.
  - intros (i & <- & Hi). apply in_seq in Hi. lia.
  - intros H. exists (Z.to_nat x). split; [lia |]. apply in_seq. lia.
Qed.

Lemma index_nat {A} (l : list A) (i : nat) (x : A) :
  l !! i = Some x -> index l (Z.of_nat i) = Ok x.
Proof.
  intros H. pose proof (lookup_lt_Some _ _ _ H) as Hl. unfold index.
  destruct (Z.ltb_spec (Z.of_nat i) 0); [lia |].
  destruct (Z.leb_spec 0 (Z.of_nat i)); [| lia].
  destruct (Z.ltb_spec (Z.of_nat i) (Z.of_nat (length l))); [| lia].
  cbn [andb]. rewrite Nat2Z.id, H. reflexivity.
Qed.

Lemma index_Ok {A} (l : list A) (i : Z) (x : A) :
  index l i = Ok x ->
  exists j : nat, l !! j = Some x /\
    Z.of_nat j = (if (i <? 0)%Z then i + Z.of_nat (length l) else i)%Z.
Proof.
  unfold index.
  set (j := (if (i <? 0)%Z then (i + Z.of_nat (length l))%Z else i)).
  destruct (Z.leb_spec 0 j); cbn [andb]; [| discriminate].
  destruct (Z.ltb_spec j (Z.of_nat (length l))); [| discriminate].
  destruct (l !! Z.to_nat j) as [y |] eqn:E; [| discriminate].
  intros H'. inversion H'; subst. exists (Z.to_nat j). split; [exact E | lia].
Qed.

Lemma setitem_nat {A} (l : list A) (j : nat) (x : A) :
  (j < length l)%nat -> Domain.setitem l (Z.of_nat j) x = Ok (<[j := x]> l).
Proof.
  intros H. unfold Domain.setitem.
  destruct (Z.ltb_spec (Z.of_nat j) 0); [lia |].
  destruct (Z.leb_spec 0 (Z.of_nat j)); [| lia].
  destruct (Z.ltb_spec (Z.of_nat j) (Z.of_nat (length l))); [| lia].
  cbn [andb]. now rewrite Nat2Z.id.
Qed.

Section Relabel.

Import Domain PhaseA.

Variable g : Geometry.
Variable get_region : list Q -> list (Z * Z).
Variable gsize : list Q.

Lemma relabel_spec (label : list Z) :
  length label = (2 * dim g)%nat ->
  (dim g <= length (get_region gsize))%nat ->
  (dim g <= length gsize)%nat ->
  exists label',
    relabel g get_region gsize label = Ok label' /\
    length label' = length label /\
    forall i r size,
      (i < dim g)%nat ->
      get_region gsize !! i = Some r -> gsize !! i = Some size ->
      label' !! (2 * i)%nat = lower_label label i r /\
      label' !! (2 * i + 1)%nat = upper_label label i r size.
Proof.
  intros Hlen Hreg Hsize. unfold relabel.
  pose (P := fun (i : nat) (lab : list Z) =>
    length lab = length label /\
    (forall j r size, (j < i)%nat ->
        get_region gsize !! j = Some r -> gsize !! j = Some size ->
        lab !! (2 * j)%nat = lower_label label j r /\
        lab !! (2 * j + 1)%nat = upper_label label j r size) /\
    (forall m, (2 * i <= m)%nat -> lab !! m = label !! m)).
  edestruct (for_invariant P (range (Z.of_nat (dim g)))) as (label' & E & HP).
  3: { rewrite E. exists label'. split; [reflexivity |].
       rewrite range_length, Nat2Z.id in HP. destruct HP as (H1 & H2 & _).
       split; [exact H1 |]. intros i r size Hi. apply H2, Hi. }
  - subst P. cbn beta. split; [reflexivity |]. split; [intros; lia | reflexivity].
  - intros i x lab Hx (Hl & Hdone & Hrest).
    apply range_lookup_Some in Hx. destruct Hx as [-> Hi].
    assert (Hi' : (i < dim g)%nat) by lia.
    destruct (lookup_lt_is_Some_2 (get_region gsize) i) as [r Hr]; [lia |].
    destruct (lookup_lt_is_Some_2 gsize i) as [size Hs]; [lia |].
    rewrite (index_nat _ _ _ Hr). cbn [bind].
    replace (2 * Z.of_nat i)%Z with (Z.of_nat (2 * i)) by lia.
    replace (Z.of_nat (2 * i) + 1)%Z with (Z.of_nat (2 * i + 1)) by lia.
    set (lab1 := if (fst r =? 0)%Z then lab else <[(2 * i)%nat := (-2)%Z]> lab).
    assert (E1 : (if negb (fst r =? 0)%Z then setitem lab (Z.of_nat (2 * i)) (-2)%Z else Ok lab)
                 = Ok lab1).
    { subst lab1. destruct (fst r =? 0)%Z; cbn [negb]; [reflexivity |].
      apply setitem_nat. lia. }
    rewrite E1. cbn [bind]. rewrite (index_nat _ _ _ Hs). cbn [bind].
    assert (Hl1 : length lab1 = length label).
    { subst lab1. destruct (fst r =? 0)%Z; [exact Hl |]. now rewrite length_insert. }
    set (lab2 := if inject_Z (snd r) =? size then lab1 else <[(2 * i + 1)%nat := (-2)%Z]> lab1).
    exists lab2. split.
    { subst lab2. destruct (inject_Z (snd r) =? size); cbn [negb]; [reflexivity |].
      apply setitem_nat. lia. }
    assert (Hl2 : length lab2 = length label).
    { subst lab2. destruct (inject_Z (snd r) =? size); [exact Hl1 |]. now rewrite length_insert. }
    assert (Hget : forall m, lab2 !! m =
              if decide (m = (2 * i + 1)%nat)
              then (if inject_Z (snd r) =? size then lab !! m else Some (-2)%Z)
              else if decide (m = (2 * i)%nat)
              then (if (fst r =? 0)%Z then lab !! m else Some (-2)%Z)
              else lab !! m).
    { intros m. subst lab2 lab1.
      destruct (inject_Z (snd r) =? size), (fst r =? 0)%Z;
        repeat case_decide; subst; try lia; try reflexivity;
        rewrite ?list_lookup_insert_ne by lia;
        rewrite ?list_lookup_insert_eq by (rewrite ?length_insert; lia);
        rewrite ?list_lookup_insert_ne by lia;
        try reflexivity. }
    split; [exact Hl2 |]. split.
    + intros j r' size' Hj Hr' Hs'.
      destruct (decide (j = i)) as [-> | Hne].
      * rewrite Hr in Hr'. rewrite Hs in Hs'. inversion Hr'; inversion Hs'; subst r' size'.
        rewrite !Hget. repeat case_decide; try lia.
        unfold lower_label, upper_label.
        rewrite (Hrest (2 * i)%nat), (Hrest (2 * i + 1)%nat) by lia. split; reflexivity.
      * rewrite !Hget. repeat case_decide; try lia.
        apply Hdone; [lia | assumption | assumption].
    + intros m Hm. rewrite Hget. repeat case_decide; try lia. apply Hrest. lia.
Qed.

End Relabel.

Section PhaseA_schedule.

Import Domain PhaseA.

Variable d : Domain.
Variable label : list Z.

Lemma face_label_Some (iuv : nat) (vk l : Z) :
  face_label label iuv vk = Some l <->
  vk <> 0%Z /\ index label (face iuv vk) = Ok l /\ l <> (-2)%Z.
Proof.
  unfold face_label. destruct (Z.eqb_spec vk 0).
  - split; [discriminate | tauto].
  - destruct (index label (face iuv vk)) as [l' |].
    + destruct (Z.eqb_spec l' (-2)).
      * split; [discriminate |]. intros (_ & H & H'). inversion H; subst. contradiction.
      * split.
        -- intros H; inversion H; subst. auto.
        -- intros (_ & H & _). inversion H; subst. reflexivity.
    + split; [discriminate |]. intros (_ & H & _). discriminate.
Qed.

(** The body of the loops of [__add_init] writes the rows of
    [velocity_rows], in order. *)
Lemma add_init_velocity_rows (iuv k : nat) (vk : Z) df df' :
  add_init_velocity d label iuv k vk df = Ok df' ->
  for_ (velocity_rows label iuv k vk) (apply_row d) df = Ok df'.
Proof.
  unfold add_init_velocity, velocity_rows, face_label, face.
  destruct (Z.ltb_spec vk 0) as [Hneg | Hpos].
  - destruct (Z.eqb_spec vk 0); [lia |].
    destruct (index label (2 * Z.of_nat iuv)) as [l |]; cbn [bind]; [| discriminate].
    destruct (Z.eqb_spec l (-2)); cbn [negb bind].
    + destruct (Z.ltb_spec 0 vk); [lia |]. cbn [bind]. auto.
    + rewrite for_map. auto.
  - cbn [bind]. destruct (Z.ltb_spec 0 vk) as [Hp | Hz].
    + destruct (Z.eqb_spec vk 0); [lia |].
      destruct (index label (2 * Z.of_nat iuv + 1)) as [l |]; cbn [bind]; [| discriminate].
      destruct (Z.eqb_spec l (-2)); cbn [negb bind]; [auto |].
      rewrite for_map. auto.
    + cbn [bind]. assert (vk = 0%Z) as -> by lia. cbn [Z.eqb for_]. auto.
Qed.

(** [__add_init] writes the rows of the schedule, in order. *)
Lemma add_init_schedule (d' : Domain) :
  add_init d label = Ok d' ->
  for_ (schedule d label) (apply_row d) (distance d, flag d) = Ok (distance d', flag d')
  /\ in_or_out d' = (fun n => if in_box (phys_domain d) n then valin else valout)
  /\ length (vmax (stencil d)) = dim (geom d).
Proof.
  unfold add_init.
  destruct (Nat.eqb_spec (length (vmax (stencil d))) (dim (geom d))) as [Hv | Hv];
    cbn [negb]; [| discriminate].
  match goal with |- context [for_ ?l ?b ?s] => destruct (for_ l b s) as [df |] eqn:E end;
    cbn [bind]; [| discriminate].
  intros H. inversion H; subst; clear H. cbn [distance flag in_or_out].
  split; [| split; [reflexivity | exact Hv]].
  unfold schedule. rewrite for_flat_map.
  destruct df as [dist' flg']. cbn [fst snd].
  eapply for_refines; [| exact E].
  intros [iuv uv] t t' Ht. rewrite for_flat_map.
  eapply for_refines; [| exact Ht].
  intros [k vk] u u'. apply add_init_velocity_rows.
Qed.

(** The rows of the schedule belong to faces that are not interfaces. *)
Lemma velocity_rows_label (iuv k : nat) (vk : Z) (op : row_op) :
  In op (velocity_rows label iuv k vk) ->
  op_iuv op = iuv /\ op_k op = k /\
  index label (face iuv vk) = Ok (op_lab op) /\ op_lab op <> (-2)%Z /\
  (((vk < 0)%Z /\ (0 <= op_i op < - vk)%Z /\
      op_dvik op = - (inject_Z (op_i op) + (1 # 2)) / inject_Z vk) \/
   ((0 < vk)%Z /\ (- vk <= op_i op < 0)%Z /\
      op_dvik op = (inject_Z (- op_i op - 1) + (1 # 2)) / inject_Z vk)).
Proof.
  unfold velocity_rows. destruct (face_label label iuv vk) as [l |] eqn:F; [| intros []].
  apply face_label_Some in F. destruct F as (Hnz & Hl & Hl2).
  destruct (Z.ltb_spec vk 0); rewrite in_map_iff; intros (i & <- & Hi); apply In_range in Hi;
    cbn [op_iuv op_k op_i op_lab op_dvik];
    (split; [reflexivity |]); (split; [reflexivity |]); (split; [exact Hl |]);
    (split; [exact Hl2 |]).
  - left. split; [lia |]. split; [lia | reflexivity].
  - right. split; [lia |]. split; [lia |].
    replace (- (- i - 1) - 1)%Z with i by lia. reflexivity.
Qed.

Lemma schedule_In (op : row_op) :
  In op (schedule d label) ->
  exists vk, (op_iuv op < dim (geom d))%nat /\
    In op (velocity_rows label (op_iuv op) (op_k op) vk) /\
    uv (stencil d) (op_iuv op) !! op_k op = Some vk.
Proof.
  unfold schedule. rewrite in_flat_map. intros ([iuv uvl] & Hi & Hop).
  rewrite in_flat_map in Hop. destruct Hop as ([k vk] & Hk & Hop).
  pose proof (velocity_rows_label _ _ _ _ Hop) as (E1 & E2 & _). subst iuv k.
  exists vk.
  apply list_elem_of_In, list_elem_of_lookup in Hi. destruct Hi as [i Hi].
  unfold enumerate in Hi. rewrite list_lookup_imap in Hi.
  destruct (take (dim (geom d)) [uv (stencil d) 0; uv (stencil d) 1; uv (stencil d) 2] !! i)
    as [u |] eqn:Hu; [| discriminate].
  cbn in Hi. inversion Hi; subst; clear Hi.
  apply list_elem_of_In, list_elem_of_lookup in Hk. destruct Hk as [j Hj].
  unfold enumerate in Hj. rewrite list_lookup_imap in Hj.
  destruct (uvl !! j) as [x |] eqn:Hx; [| discriminate].
  cbn in Hj. inversion Hj; subst; clear Hj.
  pose proof (lookup_lt_Some _ _ _ Hu) as Hlt. rewrite length_take in Hlt.
  rewrite lookup_take_lt in Hu by lia.
  split; [lia |]. split; [exact Hop |].
  destruct (op_iuv op) as [| [| [| ?]]]; cbn in Hu; inversion Hu; subst; exact Hx.
Qed.

End PhaseA_schedule.

(** ** Minima of lists of rationals *)

Lemma fold_min_base (a a' : Q) (l : list Q) :
  a == a' -> fold_right Qmin a l == fold_right Qmin a' l.
Proof.
  intros H. induction l as [| x l IH]; cbn [fold_right]; [exact H |].
  destruct (Q.min_spec x (fold_right Qmin a l)) as [[? ->] | [? ->]];
  destruct (Q.min_spec x (fold_right Qmin a' l)) as [[? ->] | [? ->]]; lra.
Qed.

Lemma fold_min_push (x a : Q) (l : list Q) :
  fold_right Qmin (Qmin x a) l == Qmin x (fold_right Qmin a l).
Proof.
  induction l as [| y l IH]; cbn [fold_right]; [reflexivity |].
  destruct (Q.min_spec y (fold_right Qmin (Qmin x a) l)) as [[? ->] | [? ->]];
  destruct (Q.min_spec y (fold_right Qmin a l)) as [[? E] | [? E]]; rewrite E;
  destruct (Q.min_spec x (fold_right Qmin a l)) as [[? E'] | [? E']];
  try (destruct (Q.min_spec x y) as [[? ->] | [? ->]]); try rewrite E'; lra.
Qed.

Lemma fold_min_le_base (a : Q) (l : list Q) : fold_right Qmin a l <= a.
Proof.
  induction l as [| y l IH]; cbn [fold_right]; [lra |].
  destruct (Q.min_spec y (fold_right Qmin a l)) as [[? ->] | [? ->]]; lra.
Qed.

Lemma fold_min_le_In (a x : Q) (l : list Q) : In x l -> fold_right Qmin a l <= x.
Proof.
  induction l as [| y l IH]; cbn [fold_right]; intros []; subst.
  - apply Q.le_min_l.
  - apply Qle_trans with (fold_right Qmin a l); [apply Q.le_min_r | auto].
Qed.

Section PhaseA_rows.

Import Domain PhaseA.

Variable d : Domain.

Lemma apply_row_spec (op : row_op) df df' :
  apply_row d op df = Ok df' ->
  forall k n,
    fst df' k n = (if (k =? op_k op)%nat && written d op (fst df) n
                   then op_dvik op else fst df k n) /\
    snd df' k n = (if (k =? op_k op)%nat && written d op (fst df) n
                   then op_lab op else snd df k n).
Proof.
  unfold apply_row, write_row, written. destruct df as [dist flg].
  destruct (row_index d (op_iuv op) (op_i op)); cbn [bind]; [| discriminate].
  intros H. inversion H; subst. cbn [fst snd]. intros; split; reflexivity.
Qed.

Lemma written_reaches (op : row_op) dist n :
  written d op dist n = true -> reaches d op (op_k op) n = true.
Proof.
  unfold written, reaches, new_indices. rewrite Nat.eqb_refl.
  destruct (row_index d (op_iuv op) (op_i op)); [| discriminate].
  intros H. apply andb_true_iff in H. cbn [andb]. tauto.
Qed.

(** In two or three dimensions a row is written where the stored distance
    is larger, and nowhere else on the row. *)
Lemma written_iff (op : row_op) dist n :
  dim (geom d) <> 1%nat ->
  written d op dist n = reaches d op (op_k op) n && (op_dvik op <? dist (op_k op) n).
Proof.
  intros Hd. unfold written, reaches, new_indices. rewrite Nat.eqb_refl.
  destruct (row_index d (op_iuv op) (op_i op)); [| reflexivity].
  destruct (Nat.eqb_spec (dim (geom d)) 1); [contradiction |]. reflexivity.
Qed.

(** The rows that do not reach a node leave it as it is. *)
Lemma rows_elsewhere (pre : list row_op) df0 df k n :
  for_ pre (apply_row d) df0 = Ok df ->
  (forall op, In op pre -> reaches d op k n = false) ->
  fst df k n = fst df0 k n /\ snd df k n = snd df0 k n.
Proof.
  revert df0. induction pre as [| op pre IH]; intros df0; cbn [for_].
  - intros H _. inversion H. auto.
  - destruct (apply_row d op df0) as [df1 |] eqn:E; cbn [bind]; [| discriminate].
    intros H Hno. destruct (IH _ H) as [I1 I2]; [intros; apply Hno; now right |].
    destruct (apply_row_spec _ _ _ E k n) as [S1 S2]. rewrite I1, I2, S1, S2.
    destruct (Nat.eqb_spec k (op_k op)) as [-> | _]; cbn [andb]; [| auto].
    destruct (written d op (fst df0) n) eqn:W; [| auto].
    apply written_reaches in W. rewrite Hno in W by now left. discriminate.
Qed.

(** When every row is written only where it lowers the stored distance,
    the distance stored in the end is the smallest of those that reach the
    node and of the one stored at first. *)
Lemma rows_minimum (ops : list row_op) df0 df :
  (forall pre op post dfp,
      ops = pre ++ op :: post ->
      for_ pre (apply_row d) df0 = Ok dfp ->
      forall n, written d op (fst dfp) n = true -> op_dvik op <= fst dfp (op_k op) n) ->
  (forall pre op post dfp,
      ops = pre ++ op :: post ->
      for_ pre (apply_row d) df0 = Ok dfp ->
      forall n, reaches d op (op_k op) n = true -> written d op (fst dfp) n = false ->
                fst dfp (op_k op) n <= op_dvik op) ->
  for_ ops (apply_row d) df0 = Ok df ->
  forall k n,
    fst df k n ==
    fold_right Qmin (fst df0 k n)
      (map op_dvik (filter (fun op => reaches d op k n = true) ops)).
Proof.
  revert df0. induction ops as [| op ops IH]; intros df0 Hw Hu; cbn [for_].
  - intros H k n. inversion H. reflexivity.
  - destruct (apply_row d op df0) as [df1 |] eqn:E; cbn [bind]; [| discriminate].
    intros H k n.
    assert (Hw1 : forall pre op' post dfp,
      ops = pre ++ op' :: post -> for_ pre (apply_row d) df1 = Ok dfp ->
      forall n, written d op' (fst dfp) n = true -> op_dvik op' <= fst dfp (op_k op') n).
    { intros pre op' post dfp -> Hp. apply (Hw (op :: pre) op' post dfp); [reflexivity |].
      cbn [for_]. rewrite E. exact Hp. }
    assert (Hu1 : forall pre op' post dfp,
      ops = pre ++ op' :: post -> for_ pre (apply_row d) df1 = Ok dfp ->
      forall n, reaches d op' (op_k op') n = true -> written d op' (fst dfp) n = false ->
                fst dfp (op_k op') n <= op_dvik op').
    { intros pre op' post dfp -> Hp. apply (Hu (op :: pre) op' post dfp); [reflexivity |].
      cbn [for_]. rewrite E. exact Hp. }
    rewrite (IH df1 Hw1 Hu1 H k n).
    destruct (apply_row_spec _ _ _ E k n) as [S1 _].
    rewrite filter_cons. destruct (decide (reaches d op k n = true)) as [R | R].
    + cbn [map fold_right]. rewrite <- fold_min_push. apply fold_min_base.
      assert (k = op_k op) as ->.
      { unfold reaches in R. apply andb_true_iff in R. destruct R as [R _].
        apply Nat.eqb_eq in R. auto. }
      rewrite S1, Nat.eqb_refl. cbn [andb].
      destruct (written d op (fst df0) n) eqn:W.
      * specialize (Hw [] op ops df0 eq_refl eq_refl n W).
        symmetry. apply Q.min_l. exact Hw.
      * specialize (Hu [] op ops df0 eq_refl eq_refl n R W).
        symmetry. apply Q.min_r. exact Hu.
    + apply fold_min_base. rewrite S1.
      destruct (Nat.eqb_spec k (op_k op)) as [-> | _]; cbn [andb]; [| reflexivity].
      destruct (written d op (fst df0) n) eqn:W; [| reflexivity].
      apply written_reaches in W. contradiction.
Qed.

End PhaseA_rows.

(** ** Ordered pairs of a list *)

Section OrdPairs.

Context {A : Type} (R : A -> A -> Prop).

Lemma FOP_app (l1 l2 : list A) :
  ForallOrdPairs R l1 -> ForallOrdPairs R l2 ->
  (forall a b, In a l1 -> In b l2 -> R a b) ->
  ForallOrdPairs R (l1 ++ l2).
Proof.
  induction l1 as [| x l1 IH]; intros H1 H2 H12; cbn [app]; [exact H2 |].
  inversion H1 as [| ? ? Hx Hl1]; subst. constructor.
  - apply Forall_app. split; [assumption |].
    apply List.Forall_forall. intros b Hb. apply H12; [now left | exact Hb].
  - apply IH; auto. intros a b Ha Hb. apply H12; [now right | exact Hb].
Qed.

Lemma FOP_before (pre post : list A) (x : A) :
  ForallOrdPairs R (pre ++ x :: post) -> forall a, In a pre -> R a x.
Proof.
  induction pre as [| y pre IH]; cbn [app]; intros H a [];
    inversion H as [| ? ? Hy Hrest]; subst.
  - rewrite List.Forall_forall in Hy. apply Hy. apply in_or_app. right. now left.
  - apply IH; assumption.
Qed.

Lemma FOP_map_seq (f : Z -> A) (m s : nat) :
  (forall i j, (s <= i < j)%nat -> (j < s + m)%nat ->
      R (f (Z.of_nat i)) (f (Z.of_nat j))) ->
  ForallOrdPairs R (map f (map Z.of_nat (seq s m))).
Proof.
  revert s. induction m as [| m IH]; intros s H; cbn [seq map]; constructor.
  - apply List.Forall_forall. intros b Hb.
    apply in_map_iff in Hb. destruct Hb as (z & <- & Hz).
    apply in_map_iff in Hz. destruct Hz as (j & <- & Hj). apply in_seq in Hj.
    apply H; lia.
  - apply IH. intros i j Hi Hj. apply H; lia.
Qed.

Lemma FOP_flat_map_imap {B} (f : nat -> B -> list A) (h : nat -> nat) (l : list B) :
  (forall i j, (i < j)%nat -> (h i < h j)%nat) ->
  (forall i x, ForallOrdPairs R (f i x)) ->
  (forall i j x y a b, (i < j)%nat -> In a (f i x) -> In b (f j y) -> R a b) ->
  ForallOrdPairs R (flat_map (fun p => f (fst p) (snd p)) (imap (fun i x => (h i, x)) l)).
Proof.
  intros Hh Hin Hcross. revert h Hh.
  induction l as [| x l IH]; intros h Hh; cbn [imap flat_map]; [constructor |].
  cbn [fst snd]. apply FOP_app.
  - apply Hin.
  - apply (IH (h ∘ Datatypes.S)). intros i j Hij. unfold compose. apply Hh. lia.
  - intros a b Ha Hb. apply in_flat_map in Hb. destruct Hb as ([k y] & Hk & Hb).
    apply list_elem_of_In, list_elem_of_lookup in Hk. destruct Hk as [i Hi].
    rewrite list_lookup_imap in Hi. destruct (l !! i); [| discriminate].
    cbn in Hi. inversion Hi; subst. cbn [fst snd] in Hb.
    apply (Hcross (h 0%nat) (h (Datatypes.S i)) x y); auto. apply Hh. lia.
Qed.

End OrdPairs.

Section PhaseA_faces.

Import Domain PhaseA.

Variable d : Domain.
Variable label : list Z.

(** The fractional distances of the faces lie strictly between 0 and 1. *)
Lemma face_distance_lower (vk i : Z) :
  (vk < 0)%Z -> (0 <= i < - vk)%Z ->
  0 < - (inject_Z i + (1 # 2)) / inject_Z vk < 1.
Proof.
  intros Hv Hi.
  assert (Hq : inject_Z vk < 0) by (rewrite (Zlt_Qlt vk 0) in Hv; exact Hv).
  assert (H0 : 0 <= inject_Z i) by (rewrite (Zle_Qle 0 i) in Hi; apply Hi).
  assert (H1 : inject_Z i + 1 <= - inject_Z vk).
  { assert (H : (i + 1 <= - vk)%Z) by lia. rewrite Zle_Qle in H.
    rewrite inject_Z_plus, inject_Z_opp in H. exact H. }
  assert (E : - (inject_Z i + (1 # 2)) / inject_Z vk == (inject_Z i + (1 # 2)) / - inject_Z vk).
  { field. lra. }
  rewrite E. split.
  - apply Qlt_shift_div_l; lra.
  - apply Qlt_shift_div_r; lra.
Qed.

Lemma face_distance_upper (vk i : Z) :
  (0 < vk)%Z -> (0 <= i < vk)%Z ->
  0 < (inject_Z i + (1 # 2)) / inject_Z vk < 1.
Proof.
  intros Hv Hi.
  assert (Hq : 0 < inject_Z vk) by (rewrite (Zlt_Qlt 0 vk) in Hv; exact Hv).
  assert (H0 : 0 <= inject_Z i) by (rewrite (Zle_Qle 0 i) in Hi; apply Hi).
  assert (H1 : inject_Z i + 1 <= inject_Z vk).
  { assert (H : (i + 1 <= vk)%Z) by lia. rewrite Zle_Qle in H.
    rewrite inject_Z_plus in H. exact H. }
  split.
  - apply Qlt_shift_div_l; lra.
  - apply Qlt_shift_div_r; lra.
Qed.

Lemma velocity_rows_distance (iuv k : nat) (vk : Z) (op : row_op) :
  In op (velocity_rows label iuv k vk) -> 0 < op_dvik op < 1.
Proof.
  intros H. apply velocity_rows_label in H.
  destruct H as (_ & _ & _ & _ & [(Hv & Hi & ->) | (Hv & Hi & ->)]).
  - apply face_distance_lower; assumption.
  - apply face_distance_upper; lia.
Qed.

(** Two rows written for the same axis and the same velocity share no
    node. *)
Lemma velocity_rows_apart (iuv k : nat) (vk : Z) :
  ForallOrdPairs
    (fun a b => forall n, reaches d a (op_k b) n = true ->
                          reaches d b (op_k b) n = true -> False)
    (velocity_rows label iuv k vk).
Proof.
  assert (Hrow : forall n (a b : row_op),
             op_iuv a = iuv -> op_iuv b = iuv ->
             ((0 <= op_i a)%Z /\ (0 <= op_i b)%Z \/ (op_i a < 0)%Z /\ (op_i b < 0)%Z) ->
             op_i a <> op_i b ->
             reaches d a (op_k b) n = true -> reaches d b (op_k b) n = true -> False).
  { intros n a b Ea Eb Hsign Hne. unfold reaches, row_index, row. rewrite Ea, Eb.
    destruct (index (phys_domain d) (Z.of_nat iuv)) as [bd |]; cbn [bind];
      [| rewrite andb_false_r; discriminate].
    intros Ha Hb. apply andb_true_iff in Ha, Hb. destruct Ha as [_ Ha], Hb as [_ Hb].
    revert Ha Hb.
    match goal with |- context [if ?c then Ok ?x else _] =>
      destruct c; [| discriminate] end.
    match goal with |- context [(if ?c then Ok ?x else Raise IndexError) ] =>
      destruct c; [| discriminate] end.
    intros Ha Hb. apply andb_true_iff in Ha, Hb. destruct Ha as [_ Ha], Hb as [_ Hb].
    apply Z.eqb_eq in Ha, Hb. rewrite Ha in Hb.
    destruct (Z.ltb_spec (op_i a) 0), (Z.ltb_spec (op_i b) 0); lia. }
  unfold velocity_rows. destruct (face_label label iuv vk) as [l |]; [| constructor].
  destruct (Z.ltb_spec vk 0); unfold range; apply FOP_map_seq; intros i j Hi Hj n;
    apply Hrow; cbn [op_iuv op_i]; auto; lia.
Qed.

(** In one dimension no two rows of the schedule share a node. *)
Lemma schedule_apart :
  dim (geom d) = 1%nat ->
  ForallOrdPairs
    (fun a b => forall n, reaches d a (op_k b) n = true ->
                          reaches d b (op_k b) n = true -> False)
    (schedule d label).
Proof.
  intros Hd. unfold schedule. rewrite Hd. cbn [take enumerate imap flat_map].
  rewrite app_nil_r.
  rewrite (flat_map_ext _ (fun p => velocity_rows label 0 (fst p) (snd p)))
    by (intros [k vk]; reflexivity).
  apply (FOP_flat_map_imap _ (fun k vk => velocity_rows label 0 k vk) (fun i => i)).
  - auto.
  - intros k vk. apply velocity_rows_apart.
  - intros i j x y a b Hij Ha Hb n Ra _.
    apply velocity_rows_label in Ha, Hb.
    destruct Ha as (_ & Ka & _), Hb as (_ & Kb & _).
    unfold reaches in Ra. rewrite Ka, Kb in Ra.
    destruct (Nat.eqb_spec i j); [lia | discriminate].
Qed.

End PhaseA_faces.

Section PhaseA_run.

Import Domain PhaseA.

Variable d : Domain.
Variable label : list Z.

Hypothesis fresh : forall k n, distance d k n == valin.

Lemma schedule_distance (op : row_op) :
  In op (schedule d label) -> 0 < op_dvik op < 1.
Proof.
  intros H. apply schedule_In in H. destruct H as (vk & _ & H & _).
  eapply velocity_rows_distance, H.
Qed.

(** Whenever a row of the schedule is written at a node, the distance
    stored there is larger than the one of the row. *)
Lemma write_lowers pre op post df n :
  schedule d label = pre ++ op :: post ->
  for_ pre (apply_row d) (distance d, flag d) = Ok df ->
  written d op (fst df) n = true ->
  op_dvik op < fst df (op_k op) n.
Proof.
  intros Hs Hpre W.
  destruct (Nat.eq_dec (dim (geom d)) 1%nat) as [Hd | Hd].
  - pose proof (schedule_apart d label Hd) as Hfop. rewrite Hs in Hfop.
    pose proof (written_reaches _ _ _ _ W) as R.
    destruct (rows_elsewhere d pre _ _ (op_k op) n Hpre) as [E _].
    { intros op' Hin. destruct (reaches d op' (op_k op) n) eqn:R'; [| reflexivity].
      exfalso. exact (FOP_before _ _ _ _ Hfop op' Hin n R' R). }
    rewrite E. cbn [fst]. rewrite fresh.
    assert (Hin : In op (schedule d label)) by (rewrite Hs; apply in_or_app; right; now left).
    apply schedule_distance in Hin. unfold valin. lra.
  - rewrite written_iff in W by exact Hd. apply andb_true_iff in W. destruct W as [_ W].
    destruct (Qltb_spec (op_dvik op) (fst df (op_k op) n)); [assumption | discriminate].
Qed.

Lemma not_written_higher pre op post df n :
  schedule d label = pre ++ op :: post ->
  for_ pre (apply_row d) (distance d, flag d) = Ok df ->
  reaches d op (op_k op) n = true ->
  written d op (fst df) n = false ->
  fst df (op_k op) n <= op_dvik op.
Proof.
  intros _ _ R W. unfold written, reaches, new_indices in *.
  rewrite Nat.eqb_refl in R. cbn [andb] in R.
  destruct (row_index d (op_iuv op) (op_i op)); [| discriminate].
  rewrite R in W. cbn [andb] in W. apply orb_false_iff in W. destruct W as [_ W].
  destruct (Qltb_spec (op_dvik op) (fst df (op_k op) n)); [discriminate | assumption].
Qed.

End PhaseA_run.

Section PhaseA_claims.

Import Domain PhaseA.

(** After [__add_init] on fresh arrays a node holds, for every velocity,
    the smallest of the fractional distances of the faces that it reaches
    along the velocity. *)
Lemma add_init_minimum (d d' : Domain) (label : list Z) :
  (forall k n, distance d k n == valin) ->
  add_init d label = Ok d' ->
  forall k n, distance d' k n == minimum (reaching d label k n).
Proof.
  intros Hfresh Hinit k n.
  destruct (add_init_schedule d label d' Hinit) as (Hrun & _ & _).
  pose proof (rows_minimum d (schedule d label) _ _
                (fun pre op post dfp Hs Hp n W =>
                   Qlt_le_weak _ _ (write_lowers d label Hfresh pre op post dfp n Hs Hp W))
                (fun pre op post dfp Hs Hp n R W =>
                   not_written_higher d label pre op post dfp n Hs Hp R W)
                Hrun k n) as H.
  cbn [fst] in H. rewrite H. unfold minimum, reaching. apply fold_min_base, Hfresh.
Qed.

(** C9. Box seeding ([__add_init]) from fresh arrays is the run of a
    schedule of row writes, one per velocity, axis, non-interface face and
    layer [i], each carrying the distance [(i + 1/2) / |component|] and the
    label of its face.  A row writes its distance and label at a node only
    if the distance stored there for that velocity is strictly greater, so
    that no write increases a stored distance; at the end a node holds, for
    each velocity, the minimum of the distances of the faces that it
    reaches along it, in particular the minimum of the two when it reaches
    two faces. *)
Theorem box_seeding_keeps_nearest_face (d d' : Domain) (label : list Z) :
  (forall k n, distance d k n == valin) ->
  add_init d label = Ok d' ->
  for_ (schedule d label) (apply_row d) (distance d, flag d) = Ok (distance d', flag d')
  /\ (forall op, In op (schedule d label) ->
        exists vk i,
          uv (stencil d) (op_iuv op) !! op_k op = Some vk /\
          (0 <= i < Z.abs vk)%Z /\
          op_dvik op == (inject_Z i + (1 # 2)) / inject_Z (Z.abs vk) /\
          index label (face (op_iuv op) vk) = Ok (op_lab op))
  /\ (forall pre op post df df',
        schedule d label = pre ++ op :: post ->
        for_ pre (apply_row d) (distance d, flag d) = Ok df ->
        apply_row d op df = Ok df' ->
        forall k n,
          (fst df' k n, snd df' k n) =
            (if (k =? op_k op)%nat && written d op (fst df) n
             then (op_dvik op, op_lab op) else (fst df k n, snd df k n))
          /\ (written d op (fst df) n = true -> op_dvik op < fst df (op_k op) n)
          /\ fst df' k n <= fst df k n)
  /\ (forall k n, distance d' k n == minimum (reaching d label k n))
  /\ (forall k n a b, reaching d label k n = [a; b] -> distance d' k n == Qmin a b).
Proof.
  intros Hfresh Hinit.
  destruct (add_init_schedule d label d' Hinit) as (Hrun & _ & _).
  pose proof (add_init_minimum d d' label Hfresh Hinit) as Hmin.
  split; [exact Hrun |]. split; [| split; [| split; [exact Hmin |]]].
  - intros op Hop. apply schedule_In in Hop. destruct Hop as (vk & _ & Hop & Hvk).
    apply velocity_rows_label in Hop.
    destruct Hop as (_ & _ & Hl & _ & [(Hv & Hi & E) | (Hv & Hi & E)]).
    + exists vk, (op_i op). split; [exact Hvk |]. split; [lia |]. split; [| exact Hl].
      rewrite E. replace (Z.abs vk) with (- vk)%Z by lia. rewrite inject_Z_opp.
      assert (inject_Z vk < 0) by (rewrite (Zlt_Qlt vk 0) in Hv; exact Hv).
      field. lra.
    + exists vk, (- op_i op - 1)%Z. split; [exact Hvk |]. split; [lia |]. split; [| exact Hl].
      rewrite E. replace (Z.abs vk) with vk by lia. reflexivity.
  - intros pre op post df df' Hs Hp Ha k n.
    destruct (apply_row_spec d op df df' Ha k n) as [S1 S2].
    split; [| split].
    + rewrite S1, S2. now destruct ((k =? op_k op)%nat && written d op (fst df) n).
    + intros W. exact (write_lowers d label Hfresh pre op post df n Hs Hp W).
    + rewrite S1. destruct (Nat.eqb_spec k (op_k op)) as [-> | _]; cbn [andb]; [| lra].
      destruct (written d op (fst df) n) eqn:W; [| lra].
      apply Qlt_le_weak. exact (write_lowers d label Hfresh pre op post df n Hs Hp W).
  - intros k n a b Hab. rewrite Hmin, Hab. unfold minimum. cbn [fold_right].
    assert (Hb : b < 1).
    { assert (Hin : In b (reaching d label k n)) by (rewrite Hab; right; now left).
      unfold reaching in Hin. apply in_map_iff in Hin. destruct Hin as (op & <- & Hop).
      apply list_elem_of_In, list_elem_of_filter in Hop. destruct Hop as [_ Hop].
      apply list_elem_of_In in Hop. apply (schedule_distance d label op Hop). }
    assert (E : Qmin b valin == b) by (apply Q.min_l; unfold valin; lra).
    destruct (Q.min_spec a (Qmin b valin)) as [[? ->] | [? ->]];
    destruct (Q.min_spec a b) as [[? ->] | [? ->]]; lra.
Qed.

End PhaseA_claims.

Lemma box_seeding_keeps_nearest_face_witness :
  exists d d',
    Scenes.blank Scenes.square Scenes.d2q4 1 Scenes.whole = Ok d /\
    Domain.add_init d (Domain.box_label d) = Ok d' /\
    PhaseA.reaching d (Domain.box_label d) 3 [5; 4]%Z = [1 # 4; 1 # 2] /\
    Domain.distance d' 3 [5; 4]%Z == Qmin (1 # 4) (1 # 2).
Proof.
  destruct (Scenes.blank Scenes.square Scenes.d2q4 1 Scenes.whole) as [d |] eqn:Ed;
    [| vm_compute in Ed; discriminate].
  destruct (Domain.add_init d (Domain.box_label d)) as [d' |] eqn:Ed';
    [| vm_compute in Ed; injection Ed as <-; vm_compute in Ed'; discriminate].
  exists d, d'. split; [reflexivity |]. split; [exact Ed' |].
  assert (Hr : PhaseA.reaching d (Domain.box_label d) 3 [5; 4]%Z = [1 # 4; 1 # 2]).
  { vm_compute in Ed. injection Ed as <-. vm_compute. reflexivity. }
  split; [exact Hr |].
  refine (proj2 (proj2 (proj2 (proj2
            (box_seeding_keeps_nearest_face d d' (Domain.box_label d) _ Ed')))) 3%nat _ _ _ Hr).
  intros k n. vm_compute in Ed. injection Ed as <-. reflexivity.
Defined.

Section Interfaces.

Import Domain PhaseA.

Lemma rows_flags (d : Domain) (ops : list row_op) df0 df :
  for_ ops (apply_row d) df0 = Ok df ->
  (forall op, In op ops -> op_lab op <> (-2)%Z) ->
  (forall k n, snd df0 k n <> (-2)%Z) ->
  forall k n, snd df k n <> (-2)%Z.
Proof.
  revert df0. induction ops as [| op ops IH]; intros df0; cbn [for_].
  - intros H _ H0. inversion H; subst. exact H0.
  - destruct (apply_row d op df0) as [df1 |] eqn:E; cbn [bind]; [| discriminate].
    intros H Hl H0. apply (IH df1 H); [intros; apply Hl; now right |].
    intros k n. destruct (apply_row_spec d op df0 df1 E k n) as [_ ->].
    destruct ((k =? op_k op)%nat && written d op (fst df0) n); [apply Hl; now left | apply H0].
Qed.

Lemma add_init_velocity_interface (d : Domain) (label : list Z) (iuv k : nat) (vk : Z) df :
  index label (face iuv vk) = Ok (-2)%Z ->
  add_init_velocity d label iuv k vk df = Ok df.
Proof.
  unfold add_init_velocity, face. intros H.
  destruct (Z.ltb_spec vk 0).
  - rewrite H. cbn [bind Z.eqb negb]. destruct (Z.ltb_spec 0 vk); [lia |]. reflexivity.
  - cbn [bind]. destruct (Z.ltb_spec 0 vk); [| reflexivity].
    rewrite H. reflexivity.
Qed.

(** C7. For every axis [i] of a worker, [Domain.__init__] sets
    [box_label[2i]] to [-2] exactly when the lower bound of the local index
    range is not [0], and [box_label[2i+1]] to [-2] exactly when its upper
    bound is not the global size; every other face keeps its label.  Box
    seeding then writes no distance and no flag for a face whose label is
    [-2]: the velocity is skipped, and every row written carries a label
    other than [-2].  The decomposition of the mesh is a parameter. *)
Theorem interface_faces_are_relabelled_and_skipped
    (g : Geometry) (get_region : list Q -> list (Z * Z)) (gsize : list Q)
    (label : list Z) :
  length label = (2 * dim g)%nat ->
  (dim g <= length (get_region gsize))%nat ->
  (dim g <= length gsize)%nat ->
  exists label',
    relabel g get_region gsize label = Ok label' /\
    length label' = length label /\
    (forall i r size,
        (i < dim g)%nat ->
        get_region gsize !! i = Some r -> gsize !! i = Some size ->
        label' !! (2 * i)%nat = lower_label label i r /\
        label' !! (2 * i + 1)%nat = upper_label label i r size) /\
    (forall d iuv k vk df,
        index label' (face iuv vk) = Ok (-2)%Z ->
        add_init_velocity d label' iuv k vk df = Ok df) /\
    (forall d d',
        add_init d label' = Ok d' ->
        for_ (schedule d label') (apply_row d) (distance d, flag d) = Ok (distance d', flag d') /\
        (forall op, In op (schedule d label') ->
           exists vk, uv (stencil d) (op_iuv op) !! op_k op = Some vk /\
                      index label' (face (op_iuv op) vk) = Ok (op_lab op) /\
                      op_lab op <> (-2)%Z) /\
        ((forall k n, flag d k n <> (-2)%Z) -> forall k n, flag d' k n <> (-2)%Z)).
Proof.
  intros Hlen Hreg Hsize.
  destruct (relabel_spec g get_region gsize label Hlen Hreg Hsize) as (label' & E & Hl & Hspec).
  exists label'. split; [exact E |]. split; [exact Hl |]. split; [exact Hspec |].
  split; [intros; now apply add_init_velocity_interface |].
  intros d d' Hinit. destruct (add_init_schedule d label' d' Hinit) as (Hrun & _ & _).
  assert (Hops : forall op, In op (schedule d label') ->
           exists vk, uv (stencil d) (op_iuv op) !! op_k op = Some vk /\
                      index label' (face (op_iuv op) vk) = Ok (op_lab op) /\
                      op_lab op <> (-2)%Z).
  { intros op Hop. apply schedule_In in Hop. destruct Hop as (vk & _ & Hop & Hvk).
    apply velocity_rows_label in Hop. destruct Hop as (_ & _ & H1 & H2 & _). eauto. }
  split; [exact Hrun |]. split; [exact Hops |].
  intros H0 k n.
  refine (rows_flags d _ _ _ Hrun _ H0 k n).
  intros op Hop. destruct (Hops op Hop) as (vk & _ & _ & H). exact H.
Qed.

End Interfaces.

Lemma interface_faces_are_relabelled_and_skipped_witness :
  exists label',
    Domain.relabel (Scenes.slab []) Scenes.first_half [8; 4; 4] [0; 1; 2; 3; 4; 5]%Z = Ok label' /\
    label' = [0; -2; 2; 3; 4; 5]%Z /\
    forall d k vk df, (0 < vk)%Z -> Domain.add_init_velocity d label' 0 k vk df = Ok df.
Proof.
  destruct (interface_faces_are_relabelled_and_skipped
              (Scenes.slab []) Scenes.first_half [8; 4; 4] [0; 1; 2; 3; 4; 5]%Z)
    as (label' & E & _ & _ & Hskip & _).
  - reflexivity.
  - vm_compute. lia.
  - vm_compute. lia.
  - exists label'. split; [exact E |].
    assert (El : label' = [0; -2; 2; 3; 4; 5]%Z) by (vm_compute in E; now inversion E).
    split; [exact El |].
    intros d k vk df Hvk. apply Hskip. subst label'. unfold PhaseA.face.
    destruct (Z.ltb_spec vk 0); [lia |]. reflexivity.
Defined.

Lemma for_preserves {A S} (P : nat -> S -> Prop) (l : list A)
    (body : A -> S -> result S) (s s' : S) :
  for_ l body s = Ok s' ->
  P 0%nat s ->
  (forall i x t t', l !! i = Some x -> P i t -> body x t = Ok t' -> P (Datatypes.S i) t') ->
  P (length l) s'.
Proof.
  revert P s. induction l as [| x l IH]; intros P s; cbn [for_ length].
  - intros H H0 _. inversion H; subst. exact H0.
  - destruct (body x s) as [t |] eqn:E; cbn [bind]; [| discriminate].
    intros H H0 Hstep.
    apply (IH (fun i => P (Datatypes.S i)) t H).
    + apply (Hstep 0%nat x s t eq_refl H0 E).
    + intros i y u u' Hy. apply (Hstep (Datatypes.S i)). exact Hy.
Qed.

Section PhaseB_sweep.

Import Element Domain PhaseB.

Variable d : Domain.
Variable e : Element.
Variables nmin nmax : list Z.

Lemma sweep_spec (k : nat) df df' :
  sweep d e nmin nmax k df = Ok df' ->
  forall k' n,
    (fst df' k' n, snd df' k' n) =
    if (k' =? k)%nat then swept d e nmin nmax (fst df) (snd df) k n else (fst df k' n, snd df k' n).
Proof.
  unfold sweep, swept, nonzero. destruct df as [dist flg]. cbn [fst snd].
  destruct (index (unique_velocities (stencil d)) (Z.of_nat k)) as [vk |] eqn:E;
    cbn [bind]; [| discriminate].
  apply index_Ok in E. destruct E as (j & Hj & Ej).
  destruct (Z.ltb_spec (Z.of_nat k) 0) as [Hk | Hk]; [lia |]. apply Nat2Z.inj in Ej. subst j.
  rewrite Hj.
  destruct (existsb (fun c => negb (c =? 0)%Z) vk); cbn [andb].
  - destruct (length vk <? dim (geom d))%nat; [discriminate |].
    destruct (aligned d nmin nmax vk); cbn [negb]; [| discriminate].
    intros H k' n. inversion H; subst; clear H. cbn [fst snd].
    destruct (Nat.eqb_spec k' k) as [-> | _]; cbn [andb]; [| reflexivity].
    now destruct (in_box (region d nmin nmax) n).
  - intros H k' n. inversion H; subst. cbn [fst snd].
    now destruct (Nat.eqb_spec k' k) as [-> | _].
Qed.

Lemma swept_ext dist dist' flg flg' k n :
  dist k n = dist' k n -> flg k n = flg' k n ->
  swept d e nmin nmax dist flg k n = swept d e nmin nmax dist' flg' k n.
Proof.
  intros Hd Hf. unfold swept, dist_set, flag_set, ind3, dist_reset, flag_reset.
  rewrite Hd, Hf. reflexivity.
Qed.

Lemma sweeps_spec (N : nat) df0 df :
  for_ (seq 0 N) (sweep d e nmin nmax) df0 = Ok df ->
  forall k n,
    (fst df k n, snd df k n) =
    if (k <? N)%nat then swept d e nmin nmax (fst df0) (snd df0) k n else (fst df0 k n, snd df0 k n).
Proof.
  intros H.
  pose (P := fun (i : nat) (t : (nat -> list Z -> Q) * (nat -> list Z -> Z)) =>
    forall k n, (fst t k n, snd t k n) =
      if (k <? i)%nat then swept d e nmin nmax (fst df0) (snd df0) k n else (fst df0 k n, snd df0 k n)).
  pose proof (for_preserves P _ _ _ _ H) as HP. rewrite length_seq in HP. apply HP; clear HP.
  - intros k n. reflexivity.
  - intros i x t t' Hx Hi Ht. apply lookup_seq in Hx. destruct Hx as [-> Hx]. cbn in Ht.
    intros k n. rewrite (sweep_spec _ _ _ Ht k n).
    destruct (Nat.eqb_spec k i) as [-> | Hne].
    + destruct (Nat.ltb_spec i (Datatypes.S i)); [| lia].
      pose proof (Hi i n) as Hin. destruct (Nat.ltb_spec i i); [lia |].
      inversion Hin as [[E1 E2]]. apply swept_ext; assumption.
    + rewrite (Hi k n).
      destruct (Nat.ltb_spec k i), (Nat.ltb_spec k (Datatypes.S i)); try lia; reflexivity.
Qed.

Lemma add_elem_spec (d' : Domain) :
  add_elem d e = Ok d' ->
  exists nmin nmax,
    elem_box d e = Ok (nmin, nmax) /\
    aligned d nmin nmax (zeros d) = true /\
    in_or_out d' = ioo_elem d e nmin nmax /\
    coords_halo d' = coords_halo d /\ coords d' = coords d /\
    stencil d' = stencil d /\ geom d' = geom d /\ dx d' = dx d /\
    for_ (seq 0 (unvtot (stencil d))) (sweep d e nmin nmax) (distance d, flag d)
      = Ok (distance d', flag d').
Proof.
  unfold add_elem. destruct (elem_box d e) as [[lo hi] |]; cbn [bind]; [| discriminate].
  destruct (aligned d lo hi (zeros d)) eqn:Ea; cbn [negb]; [| discriminate].
  match goal with |- context [for_ ?l ?b ?s] => destruct (for_ l b s) as [df |] eqn:Ef end;
    cbn [bind]; [| discriminate].
  intros H. inversion H; subst; clear H. cbn.
  exists lo, hi. destruct df. repeat split; try reflexivity; assumption.
Qed.

End PhaseB_sweep.

Section PhaseB_rules.

Import Element Domain PhaseB.

Lemma add_elem_at (d d' : Domain) (e : Element) (nmin nmax : list Z) :
  add_elem d e = Ok d' ->
  elem_box d e = Ok (nmin, nmax) ->
  forall k n,
    (distance d' k n, flag d' k n) =
    if (k <? unvtot (stencil d))%nat
    then swept d e nmin nmax (distance d) (flag d) k n
    else (distance d k n, flag d k n).
Proof.
  intros H Hb. apply add_elem_spec in H.
  destruct H as (lo & hi & Hb' & _ & _ & _ & _ & _ & _ & _ & Hrun).
  rewrite Hb in Hb'. inversion Hb'; subst lo hi.
  intros k n. exact (sweeps_spec d e nmin nmax _ _ _ Hrun k n).
Qed.

Lemma add_elem_velocity (d d' : Domain) (e : Element) (nmin nmax : list Z) k vk n :
  add_elem d e = Ok d' ->
  elem_box d e = Ok (nmin, nmax) ->
  unique_velocities (stencil d) !! k = Some vk ->
  nonzero vk = true ->
  in_box (region d nmin nmax) n = true ->
  (distance d' k n, flag d' k n) =
  (dist_set d e nmin nmax k vk (distance d) n,
   flag_set d e nmin nmax k vk (distance d) (flag d) n).
Proof.
  intros H Hb Hk Hnz Hin. rewrite (add_elem_at d d' e nmin nmax H Hb k n).
  pose proof (lookup_lt_Some _ _ _ Hk) as Hlt. unfold unvtot.
  destruct (Nat.ltb_spec k (length (unique_velocities (stencil d)))); [| lia].
  unfold swept. rewrite Hk, Hnz, Hin. reflexivity.
Qed.

(** The reset to [valin] never touches a node that passes the mask: the
    candidate is compared with the distance stored before the element. *)
Lemma solid_rule (d : Domain) (e : Element) (nmin nmax : list Z) k vk n :
  isfluid e = false ->
  (dist_set d e nmin nmax k vk (distance d) n,
   flag_set d e nmin nmax k vk (distance d) (flag d) n) =
  if indx d e nmin nmax vk n && (fst (candidate d e vk n) <? distance d k n)
  then candidate d e vk n
  else if point_inside e (point d n) then (valin, valin_flag)
  else (distance d k n, flag d k n).
Proof.
  intros Hs. unfold dist_set, flag_set, ind3, dist_reset, flag_reset, indx, ind_fluid, ind_solid.
  rewrite Hs. cbn [negb].
  destruct (point_inside e (point d n)); cbn [negb andb].
  - rewrite andb_false_r. reflexivity.
  - destruct (_ && _); [now destruct (candidate d e vk n) | reflexivity].
Qed.



End PhaseB_rules.

Section PhaseB_region.

Import Element Domain PhaseB.

Lemma in_box_views (shape nmin nmax zs n : list Z) :
  Forall (fun x => 0 <= x)%Z nmin -> Forall (fun x => 0 <= x)%Z nmax ->
  Forall (fun x => x = 0%Z) zs ->
  length nmin = length shape -> length nmax = length shape -> length zs = length shape ->
  in_box (zip_with (fun len ab => slice_bounds len (fst ab) (snd ab)) shape
            (zip_with (fun ab c => (fst ab + c, snd ab + c)%Z) (zip nmin nmax) zs)) n
  = in_box (zip nmin nmax) n && in_box (map (fun len => (0%Z, len)) shape) n.
Proof.
  revert nmin nmax zs n.
  induction shape as [| len shape IH]; intros [| a nmin] [| b nmax] [| z zs] n;
    cbn [length]; intros Ha Hb Hz L1 L2 L3; try discriminate.
  - destruct n; reflexivity.
  - inversion Ha; inversion Hb; inversion Hz; subst.
    destruct n as [| i n]; [reflexivity |].
    cbn [zip zip_with in_box map fst snd slice_bounds].
    rewrite IH by (auto; lia). unfold clamp. rewrite !Z.add_0_r.
    destruct (Z.ltb_spec a 0); [lia |]. destruct (Z.ltb_spec b 0); [lia |].
    destruct (in_box (zip nmin nmax) n), (in_box (map (fun len => (0%Z, len)) shape) n);
      rewrite ?andb_true_r, ?andb_false_r; try reflexivity.
    destruct (Z.leb_spec (Z.min a len) i), (Z.ltb_spec i (Z.min b len)),
             (Z.leb_spec a i), (Z.ltb_spec i b), (Z.leb_spec 0 i), (Z.ltb_spec i len);
      cbn [andb]; try reflexivity; lia.
Qed.

Lemma collect_length {A} (body : Z -> list A -> result (list A)) (n : nat) (l : list A) :
  (forall k acc acc', body k acc = Ok acc' -> length acc' = Datatypes.S (length acc)) ->
  for_ (range (Z.of_nat n)) body [] = Ok l ->
  length l = n.
Proof.
  intros Hbody H.
  pose proof (for_preserves (fun i (acc : list A) => length acc = i) _ _ _ _ H) as HP.
  rewrite range_length, Nat2Z.id in HP. apply HP; [reflexivity |].
  intros i x t t' _ Hi Hb. apply Hbody in Hb. lia.
Qed.

Lemma get_bounds_halo_length (d : Domain) (bl ur : list Q) :
  get_bounds_halo d = Ok (bl, ur) -> length bl = dim (geom d).
Proof.
  unfold get_bounds_halo.
  match goal with |- context [bind (for_ ?l ?b ?s) _] =>
    destruct (for_ l b s) as [bl' |] eqn:E1 end; cbn [bind]; [| discriminate].
  match goal with |- context [bind (for_ ?l ?b ?s) _] =>
    destruct (for_ l b s) as [ur' |] eqn:E2 end; cbn [bind]; [| discriminate].
  intros H. inversion H; subst.
  refine (collect_length _ _ _ _ E1).
  intros k acc acc'. destruct (index (coords_halo d) k) as [c |]; cbn [bind]; [| discriminate].
  destruct (index c 0); cbn [bind]; [| discriminate].
  intros H'. inversion H'; subst. rewrite length_app. cbn. lia.
Qed.

End PhaseB_region.

Section PhaseB_confined.

Import Element Domain PhaseB.

Lemma elem_box_length (d : Domain) (e : Element) (nmin nmax : list Z) :
  elem_box d e = Ok (nmin, nmax) ->
  length nmin = dim (geom d) /\ length nmax = dim (geom d).
Proof.
  unfold elem_box.
  destruct (get_bounds e) as [elem_bl elem_ur]. cbn [fst snd].
  destruct (get_bounds_halo d) as [[phys_bl phys_ur] |] eqn:Eh; cbn [bind]; [| discriminate].
  apply get_bounds_halo_length in Eh.
  destruct (Nat.eqb_spec (length (vmax (stencil d))) (dim (geom d))) as [L1 | _];
    cbn [andb negb]; [| discriminate].
  destruct (Nat.eqb_spec (length elem_bl) (dim (geom d))) as [L2 | _];
    cbn [andb negb]; [| discriminate].
  destruct (Nat.eqb_spec (length elem_ur) (dim (geom d))) as [L3 | _];
    cbn [andb negb]; [| discriminate].
  destruct (Nat.eqb_spec (length (shape_in d)) (dim (geom d))) as [L4 | _];
    cbn [andb negb]; [| discriminate].
  intros H. inversion H; subst; clear H.
  split; rewrite !length_zip_with; lia.
Qed.

Lemma aligned_nonneg (d : Domain) (nmin nmax v : list Z) :
  aligned d nmin nmax v = true ->
  Forall (fun x => 0 <= x)%Z nmin /\ Forall (fun x => 0 <= x)%Z nmax.
Proof.
  unfold aligned. intros H. apply andb_true_iff in H. destruct H as [H _].
  rewrite forallb_forall in H.
  split; apply List.Forall_forall; intros x Hx; apply Z.leb_le, H, in_or_app.
  - now left.
  - right. apply in_or_app. now left.
Qed.

End PhaseB_confined.

Lemma built_succeeds (r : result Domain.Domain) :
  Scenes.succeeds r = true -> r = Ok (Scenes.built r).
Proof. destruct r; [reflexivity | discriminate]. Qed.

Ltac by_computation := vm_compute; reflexivity.

Section Scenarios.

Import Element Domain PhaseB Scenes.


(** C6, counterexample. A fluid sphere centred on the west face of the
    cube reaches into the halo: the node [[0; 5; 5]] lies on the local grid
    with halo, in the bounding box of the sphere expanded by [vmax], and
    even inside the sphere; yet it is outside the sub-grid that [__add_elem]
    takes and its occupancy stays [valout]; it is read, though, as the west
    neighbour of the node [[1; 5; 5]] of the sub-grid.  A solid sphere in
    the middle of the cube shows the other end: the node [[2; 5; 5]]
    belongs to its sub-grid although it lies outside its bounding box
    expanded by [vmax] (by 3/10 of a step). *)
Lemma halo_nodes_are_not_visited :
  let d0 := built empty_cube in
  let n := [0; 5; 5]%Z in
  let inner := ball (4, 9 # 2, 9 # 2) (6 # 5) 7 false in
  succeeds (add_elem d0 bubble) = true /\
  elem_box d0 bubble = Ok ([1; 3; 3]%Z, [3; 8; 8]%Z) /\
  in_box (halo_grid d0) n = true /\
  widened d0 bubble 0 0 n = true /\
  in_box (region d0 [1; 3; 3]%Z [3; 8; 8]%Z) n = false /\
  isfluid bubble = true /\
  point_inside bubble (point d0 n) = true /\
  in_or_out (built (add_elem d0 bubble)) n == valout /\
  in_box (region d0 [1; 3; 3]%Z [3; 8; 8]%Z) [1; 5; 5]%Z = true /\
  neighbour d0 [1; 3; 3]%Z [3; 8; 8]%Z [-1; 0; 0]%Z [1; 5; 5]%Z = n /\
  succeeds (add_elem d0 inner) = true /\
  elem_box d0 inner = Ok ([2; 2; 2]%Z, [7; 8; 8]%Z) /\
  in_box (region d0 [2; 2; 2]%Z [7; 8; 8]%Z) [2; 5; 5]%Z = true /\
  widened d0 inner 0 0 [2; 5; 5]%Z = false.
Proof.
  cbv zeta. repeat (split; [by_computation |]). by_computation.
Qed.

(** C1, failing run. Two solid spheres are applied in turn to the cube.
    After the first one the node [[4; 5; 5]] is inside it: its occupancy is
    [valout] and its distances are the sentinel.  The node is not inside
    the second sphere but its east neighbour is, so that the second sphere
    stores the distance [1/2] and the flag [8] there, while the occupancy
    remains [valout]. *)
Lemma solid_node_receives_a_distance :
  let d1 := built one_ball in
  let d2 := built two_balls in
  let n := [4; 5; 5]%Z in
  succeeds one_ball = true /\ succeeds two_balls = true /\
  in_or_out d1 n == valout /\ distance d1 0 n == valin /\
  point_inside small_ball (point d1 n) = false /\
  in_or_out d2 n == valout /\
  distance d2 0 n == 1 # 2 /\ flag d2 0 n = 8%Z /\
  ~ distance d2 0 n == valin.
Proof.
  cbv zeta. split; [| split; [| split; [| split; [| split; [| split; [| split; [| split]]]]]]];
    try by_computation.
  intros E. vm_compute in E. discriminate E.
Qed.

(** C3, failing run. The same two solid spheres.  When the second one is
    applied the node [[4; 5; 5]] is not fluid: the first sphere has made
    it [valout], and it remains so.  The mask of [__add_elem] tests instead
    that the node is not inside the element being applied, which holds, and
    that its east neighbour [[5; 5; 5]] is outside, which holds as it is
    inside the second sphere: the candidate [1/2], smaller than the stored
    sentinel, is committed with the label [8] at a node that fails the
    condition "point is fluid". *)
Lemma solid_element_commits_at_a_solid_node :
  let d1 := built one_ball in
  let d2 := built (add_elem d1 small_ball) in
  let n := [4; 5; 5]%Z in
  let vk := [1; 0; 0]%Z in
  succeeds one_ball = true /\ succeeds (add_elem d1 small_ball) = true /\
  isfluid small_ball = false /\
  elem_box d1 small_ball = Ok ([3; 3; 3]%Z, [8; 8; 8]%Z) /\
  in_box (region d1 [3; 3; 3]%Z [8; 8; 8]%Z) n = true /\
  unique_velocities (stencil d1) !! 0%nat = Some vk /\
  in_or_out d1 n == valout /\ in_or_out d2 n == valout /\
  point_inside small_ball (point d1 n) = false /\
  in_or_out d2 [5; 5; 5]%Z == valout /\
  indx d1 small_ball [3; 3; 3]%Z [8; 8; 8]%Z vk n = true /\
  fst (candidate d1 small_ball vk n) == 1 # 2 /\ snd (candidate d1 small_ball vk n) = 8%Z /\
  distance d1 0 n == valin /\
  distance d2 0 n == 1 # 2 /\ flag d2 0 n = 8%Z.
Proof.
  cbv zeta. repeat (split; [by_computation |]). by_computation.
Qed.

End Scenarios.

Section Range.

Import Element Domain PhaseA PhaseB.

Lemma minimum_in_range (l : list Q) :
  (forall x, In x l -> 0 < x < 1) -> in_range (fold_right Qmin valin l).
Proof.
  induction l as [| x l IH]; cbn [fold_right]; intros H.
  - left. reflexivity.
  - right. assert (Hx : 0 < x < 1) by (apply H; now left).
    destruct IH as [E | [E1 E2]]; [intros; apply H; now right | |];
    destruct (Q.min_spec x (fold_right Qmin valin l)) as [[? ->] | [? ->]];
      unfold valin in *; lra.
Qed.

Lemma add_init_in_range (d d' : Domain) (label : list Z) :
  (forall k n, distance d k n == valin) ->
  add_init d label = Ok d' ->
  forall k n, in_range (distance d' k n).
Proof.
  intros Hf H k n.
  pose proof (add_init_minimum d d' label Hf H k n) as Hmin.
  destruct (minimum_in_range (reaching d label k n)) as [E | E].
  - unfold reaching. intros x Hx. apply in_map_iff in Hx. destruct Hx as (op & <- & Hop).
    apply list_elem_of_In, list_elem_of_filter in Hop. destruct Hop as [_ Hop].
    apply list_elem_of_In in Hop. apply (schedule_distance d label op Hop).
  - left. rewrite Hmin. exact E.
  - right. rewrite Hmin. exact E.
Qed.

Lemma add_elem_in_range (d d' : Domain) (e : Element) :
  honours_dmax e ->
  add_elem d e = Ok d' ->
  (forall k n, in_range (distance d k n)) ->
  forall k n, in_range (distance d' k n).
Proof.
  intros He H Hd k n.
  destruct (add_elem_spec d e d' H) as (nmin & nmax & Hb & _).
  pose proof (add_elem_at d d' e nmin nmax H Hb k n) as E.
  destruct (k <? unvtot (stencil d))%nat; [| injection E as -> _; apply Hd].
  unfold swept in E.
  destruct (unique_velocities (stencil d) !! k) as [vk |]; [| injection E as -> _; apply Hd].
  destruct (nonzero vk && in_box (region d nmin nmax) n); [| injection E as -> _; apply Hd].
  injection E as -> _. unfold dist_set.
  destruct (indx d e nmin nmax vk n && ind3 d e nmin nmax k vk (distance d) n) eqn:C.
  - right. apply andb_true_iff in C. destruct C as [C _]. unfold indx in C.
    apply andb_true_iff in C. destruct C as [C _]. apply andb_true_iff in C. destruct C as [C _].
    unfold candidate in *.
    destruct (Qltb_spec 0 (fst (Element.distance e (point d n)
                (map (fun c => dx d * inject_Z c) vk) 1))) as [Hp | Hp]; [| discriminate].
    split; [exact Hp | apply He, Hp].
  - unfold dist_reset.
    destruct (isfluid e); [destruct (borderToInt d e nmin nmax vk n) | destruct (ind_solid d e n)];
      try apply Hd; left; reflexivity.
Qed.

(** X1. When the positive answers of every element of the geometry do
    not exceed the [dmax] that [__add_elem] passes (one step), every entry
    of [distance] in the domain that [__init__] returns is [valin] or lies
    in (0, 1]. *)
Theorem construction_in_range (g : Geometry) (s : Stencil) (space_step : Q)
    (get_region : list Q -> list (Z * Z)) (d : Domain) :
  Forall honours_dmax (list_elem g) ->
  __init__ g s space_step get_region = Ok d ->
  forall k n, in_range (distance d k n).
Proof.
  intros He. unfold __init__.
  destruct (global_sizes g space_step) as [gsize |]; cbn [bind]; [| discriminate].
  destruct (create_coords g s space_step get_region gsize) as [[halo inner] |];
    cbn [bind]; [| discriminate].
  destruct (relabel g get_region gsize (geom_box_label g)) as [label |];
    cbn [bind]; [| discriminate].
  match goal with |- context [add_init ?d0 label] =>
    destruct (add_init d0 label) as [da |] eqn:Ea end; cbn [bind]; [| discriminate].
  assert (Ha : forall k n, in_range (distance da k n)).
  { match type of Ea with add_init ?d0 _ = _ =>
      apply (add_init_in_range d0 da label); [| exact Ea] end.
    intros k n. cbn [distance]. reflexivity. }
  clear Ea.
  revert da Ha. induction (list_elem g) as [| e l IH]; intros da Ea; cbn [for_].
  - intros H. inversion H; subst. exact Ea.
  - destruct (add_elem da e) as [db |] eqn:Eb; cbn [bind]; [| discriminate].
    inversion He; subst. apply IH; [assumption |].
    eapply add_elem_in_range; eauto.
Qed.

End Range.

(** ** The range of [Cylinder.distance] *)

Section CylinderRange.

Import Cylinder.

Variable c : Cylinder.
Variables p v : vec3.
Variable dmax : option Q.

(** X15. The parameter returned by [Cylinder.distance] is [-1] or it is
    not negative: [-1] is the only negative value that a caller sees, and
    the inner marker [1e16] never gets out. *)
Theorem cylinder_distance_sign (alpha : Q) (border : Z) :
  distance c p v dmax = Ok (alpha, border) ->
  alpha = -1 \/ (0 <= alpha /\ ~ alpha == big).
Proof.
  unfold distance, first_candidate.
  assert (Hs : 0 <= fst (side_candidate c p v dmax)).
  { unfold side_candidate.
    destruct (dot (iA c) v) as [[vx vy] vz], (to_cyl c p) as [[x y] z].
    destruct (lateral c p v dmax) as [a b]. cbn [fst snd].
    destruct (Qltb_spec a 0).
    - destruct ((0 <? big) && _); cbn [fst]; unfold big; lra.
    - destruct ((0 <? a) && _); cbn [fst]; unfold big; lra. }
  assert (Ht : 0 <= top_candidate c p v).
  { unfold top_candidate. destruct (Qltb_spec (top_param c p v) 0); cbn [orb].
    - unfold big; lra.
    - destruct (negb _); [unfold big; lra | assumption]. }
  assert (Hb : 0 <= bot_candidate c p v).
  { unfold bot_candidate. destruct (Qltb_spec (bot_param c p v) 0); cbn [orb].
    - unfold big; lra.
    - destruct (negb _); [unfold big; lra | assumption]. }
  destruct (side_candidate c p v dmax) as [sa sb]. cbn [fst] in *.
  destruct (index (label c) (-1)); cbn [bind]; [| discriminate].
  destruct (index (label c) (-2)); cbn [bind]; [| discriminate].
  intros H. injection H as <- _.
  destruct (Qeqb_spec (Qmin sa (Qmin (top_candidate c p v) (bot_candidate c p v))) big) as [E | E].
  - left. reflexivity.
  - right. split; [| exact E].
    apply Q.min_glb; [assumption |]. apply Q.min_glb; assumption.
Qed.

End CylinderRange.

Lemma cylinder_distance_sign_witness :
  Cylinder.distance Scenes.rod (7 # 2, 3 # 2, 3 # 2) (1, 0, 0) (Some 1) = Ok (48 # 32, 11%Z)
  /\ ((48 # 32) = -1 \/ (0 <= 48 # 32 /\ ~ (48 # 32) == Cylinder.big)).
Proof.
  assert (H : Cylinder.distance Scenes.rod (7 # 2, 3 # 2, 3 # 2) (1, 0, 0) (Some 1)
              = Ok (48 # 32, 11%Z)) by (vm_compute; reflexivity).
  split; [exact H |].
  exact (cylinder_distance_sign Scenes.rod (7 # 2, 3 # 2, 3 # 2) (1, 0, 0) (Some 1) _ _ H).
Defined.

(** ** The bounding box of a ball *)

Lemma sum_of_squares_bound (a b c r : Q) :
  0 <= r -> a ^ 2 + b ^ 2 + c ^ 2 <= r ^ 2 -> - r <= a <= r.
Proof.
  intros Hr Habc.
  assert (0 <= b ^ 2) by (simpl; nra). assert (0 <= c ^ 2) by (simpl; nra).
  assert (Ha : a ^ 2 <= r ^ 2) by lra. simpl in Ha. split; nra.
Qed.

(** ** Loops that build a list *)

Lemma range_S (n : nat) : range (Z.of_nat (S n)) = range (Z.of_nat n) ++ [Z.of_nat n].
Proof.
  unfold range. rewrite !Nat2Z.id, seq_S, map_app. reflexivity.
Qed.

Section Collect.

Context {A : Type} (f : Z -> result A) (body : Z -> list A -> result (list A)).

Hypothesis collecting : forall k acc, body k acc = let! x := f k in Ok (acc ++ [x]).

Lemma for_collect (n : nat) (acc l : list A) :
  for_ (range (Z.of_nat n)) body acc = Ok l ->
  exists xs, l = acc ++ xs /\ length xs = n /\
             forall i x, xs !! i = Some x -> f (Z.of_nat i) = Ok x.
Proof.
  revert l. induction n as [| n IH]; intros l H.
  - cbn in H. injection H as <-. exists []. rewrite app_nil_r. repeat split.
    intros i x Hx. discriminate.
  - rewrite range_S, for_app in H.
    destruct (for_ (range (Z.of_nat n)) body acc) as [l' | e] eqn:E; cbn [bind] in H;
      [| discriminate].
    destruct (IH l' eq_refl) as (xs & -> & Hlen & Hxs).
    cbn [for_] in H. rewrite collecting in H.
    destruct (f (Z.of_nat n)) as [x | e] eqn:Ex; cbn [bind] in H; [| discriminate].
    injection H as <-. exists (xs ++ [x]). rewrite app_assoc. split; [reflexivity |].
    split; [rewrite length_app; cbn; lia |].
    intros i y Hy. destruct (decide (i < length xs)%nat) as [Hi | Hi].
    + rewrite lookup_app_l in Hy by exact Hi. eauto.
    + rewrite lookup_app_r in Hy by lia.
      destruct (i - length xs)%nat eqn:Ei; [| discriminate].
      injection Hy as <-. replace i with n by lia. exact Ex.
Qed.

End Collect.

(** ** [create_coords]: the validation of the space step *)

Section GlobalSizes.

Import Domain Mesh.

Variable g : Geometry.
Variable space_step : Q.

Lemma global_sizes_prefix (n : nat) :
  ~ space_step == 0 ->
  (n <= length (bounds g))%nat ->
  for_ (range (Z.of_nat n))
    (fun k gs =>
       let! b := index (bounds g) k in
       if space_step =? 0 then Raise SystemExit
       else
         let size := (snd b - fst b) / space_step in
         if is_integer size then Ok (gs ++ [size]) else Raise SystemExit)
    [] =
  if forallb (fun b => is_integer (cells space_step b)) (take n (bounds g))
  then Ok (map (cells space_step) (take n (bounds g)))
  else Raise SystemExit.
Proof.
  intros Hdx. induction n as [| n IH]; intros Hn.
  - reflexivity.
  - rewrite range_S, for_app, IH by lia.
    destruct (lookup_lt_is_Some_2 (bounds g) n) as [b Hb]; [lia |].
    rewrite (take_S_r _ _ _ Hb), forallb_app, map_app. cbn [forallb map].
    destruct (forallb _ (take n (bounds g))); cbn [bind andb]; [| reflexivity].
    cbn [for_]. rewrite (index_nat _ _ _ Hb). cbn [bind].
    destruct (Qeqb_spec space_step 0); [contradiction |].
    fold (cells space_step b). destruct (is_integer (cells space_step b)); reflexivity.
Qed.

(** X11. With a space step other than zero and bounds for every axis,
    the validation loop of [create_coords] yields the numbers of cells of
    the axes when each of them is an integer, and exits ([sys.exit])
    as soon as the length of the box along one axis is not a multiple of the
    space step. *)
Theorem global_sizes_exits_unless_multiple :
  ~ space_step == 0 ->
  (dim g <= length (bounds g))%nat ->
  global_sizes g space_step =
  if forallb (fun b => is_integer (cells space_step b)) (take (dim g) (bounds g))
  then Ok (map (cells space_step) (take (dim g) (bounds g)))
  else Raise SystemExit.
Proof.
  intros Hdx Hn. unfold global_sizes. apply global_sizes_prefix; assumption.
Qed.

End GlobalSizes.

Lemma global_sizes_exits_unless_multiple_witness :
  Domain.global_sizes (Scenes.cube []) (1 # 2) = Ok [16 # 1; 16 # 1; 16 # 1]
  /\ Domain.global_sizes (Scenes.cube []) 3 = Raise SystemExit.
Proof.
  split.
  - rewrite global_sizes_exits_unless_multiple.
    + vm_compute. reflexivity.
    + vm_compute. discriminate.
    + vm_compute. lia.
  - rewrite global_sizes_exits_unless_multiple.
    + vm_compute. reflexivity.
    + vm_compute. discriminate.
    + vm_compute. lia.
Defined.

(** ** [create_coords]: the coordinates of the nodes *)

Lemma slice_halo_lookup {A} (c : list A) (h : Z) (i : nat) (x : A) :
  (0 < h)%Z ->
  slice c h (- h) !! i = Some x <->
  c !! (Z.to_nat h + i)%nat = Some x /\ (Z.of_nat i < Z.of_nat (length c) - 2 * h)%Z.
Proof.
  intros Hh. unfold slice, slice_bounds, clamp.
  destruct (Z.ltb_spec h 0); [lia |]. destruct (Z.ltb_spec (- h) 0); [| lia].
  rewrite lookup_take_Some, lookup_drop.
  split.
  - intros [Hx Hi]. pose proof (lookup_lt_Some _ _ _ Hx) as Hlt.
    rewrite Z.min_l in Hx by lia. split; [exact Hx | lia].
  - intros [Hx Hi]. pose proof (lookup_lt_Some _ _ _ Hx) as Hlt.
    rewrite Z.min_l by lia. split; [exact Hx | lia].
Qed.

Lemma slice_halo_length {A} (c : list A) (h : Z) :
  (0 < h)%Z ->
  length (slice c h (- h)) = Z.to_nat (Z.of_nat (length c) - 2 * h).
Proof.
  intros Hh. unfold slice, slice_bounds, clamp.
  destruct (Z.ltb_spec h 0); [lia |]. destruct (Z.ltb_spec (- h) 0); [| lia].
  rewrite length_take, length_drop. lia.
Qed.

Lemma slice_no_halo {A} (c : list A) : slice c 0 (- 0) = [].
Proof.
  unfold slice, slice_bounds, clamp. cbn [Z.opp Z.ltb Z.compare].
  rewrite Z.sub_diag. reflexivity.
Qed.

Lemma linspace_lookup (a b : Q) (num : Z) (c : list Q) :
  Domain.linspace a b num = Ok c ->
  length c = Z.to_nat num /\
  forall i x, c !! i = Some x ->
    x = inject_Z (Z.of_nat i) * ((b - a) / inject_Z (num - 1)) + a.
Proof.
  unfold Domain.linspace. destruct (Z.ltb_spec num 0) as [| Hnum]; [discriminate |].
  intros E. injection E as <-. split.
  - rewrite length_map, range_length. reflexivity.
  - intros i x Hx. rewrite list_lookup_fmap in Hx.
    destruct (range num !! i) as [j |] eqn:Ej; [| discriminate].
    apply range_lookup_Some in Ej. destruct Ej as [-> _].
    injection Hx as <-. reflexivity.
Qed.

Section Coordinates.

Import Domain Mesh.

Variable g : Geometry.
Variable s : Stencil.
Variable space_step : Q.
Variable get_region : list Q -> list (Z * Z).
Variable gsize : list Q.

(** The coordinates with halo of one axis. *)
Lemma halo_axis (x0 : Q) (r0 r1 h : Z) (c : list Q) :
  linspace (x0 + space_step * inject_Z r0 - space_step * (inject_Z h - (1 # 2)))
           (x0 + space_step * inject_Z r1 + space_step * (inject_Z h - (1 # 2)))
           (r1 - r0 + 2 * h) = Ok c ->
  length c = Z.to_nat (r1 - r0 + 2 * h) /\
  forall i x, c !! i = Some x -> x == centre x0 space_step (r0 - h + Z.of_nat i).
Proof.
  intros H. apply linspace_lookup in H. destruct H as [Hlen Hc].
  split; [exact Hlen |]. intros i x Hx.
  pose proof (lookup_lt_Some _ _ _ Hx) as Hi. rewrite Hlen in Hi.
  rewrite (Hc i x Hx). unfold centre.
  set (num := (r1 - r0 + 2 * h)%Z) in *.
  destruct (decide (num - 1 = 0)%Z) as [E | E].
  - assert (i = 0%nat) by lia. subst i.
    change (Z.of_nat 0) with 0%Z. rewrite Z.add_0_r.
    set (q := _ / inject_Z (num - 1)). clearbody q.
    unfold Z.sub. rewrite inject_Z_plus, inject_Z_opp.
    change (inject_Z 0) with 0. ring.
  - assert (Hne : ~ inject_Z (num - 1) == 0).
    { change 0 with (inject_Z 0). rewrite inject_Z_injective. exact E. }
    assert (Hstep : inject_Z (num - 1) == inject_Z r1 - inject_Z r0 + 2 * inject_Z h - 1).
    { subst num. unfold Z.sub. rewrite !inject_Z_plus, !inject_Z_opp, inject_Z_mult.
      change (inject_Z 2) with 2. change (inject_Z 1) with 1. ring. }
    set (N := inject_Z (num - 1)) in *. clearbody N.
    unfold Z.sub. rewrite !inject_Z_plus, inject_Z_opp.
    field_simplify_eq; [| exact Hne]. rewrite Hstep. ring.
Qed.

Lemma create_coords_axes (halo inner : list (list Q)) :
  create_coords g s space_step get_region gsize = Ok (halo, inner) ->
  length halo = dim g /\ length inner = dim g /\
  forall k c, halo !! k = Some c ->
    exists b r h,
      bounds g !! k = Some b /\ get_region gsize !! k = Some r /\
      vmax s !! k = Some h /\
      linspace (fst b + space_step * inject_Z (fst r) - space_step * (inject_Z h - (1 # 2)))
               (fst b + space_step * inject_Z (snd r) + space_step * (inject_Z h - (1 # 2)))
               (snd r - fst r + 2 * h) = Ok c /\
      inner !! k = Some (slice c h (- h)).
Proof.
  unfold create_coords.
  set (f1 := fun k : Z =>
    let! b := index (bounds g) k in
    let! r := index (get_region gsize) k in
    let! h := index (vmax s) k in
    linspace (fst b + space_step * inject_Z (fst r) - space_step * (inject_Z h - (1 # 2)))
             (fst b + space_step * inject_Z (snd r) + space_step * (inject_Z h - (1 # 2)))
             (snd r - fst r + 2 * h)).
  destruct (for_ _ _ []) as [halo' | e] eqn:E1; cbn [bind]; [| discriminate].
  destruct (for_ _ _ []) as [inner' | e] eqn:E2 in |- *; cbn [bind]; [| discriminate].
  intros H. injection H as <- <-.
  apply (for_collect f1) in E1.
  2:{ intros k acc. unfold f1.
      destruct (index (bounds g) k); cbn [bind]; [| reflexivity].
      destruct (index (get_region gsize) k); cbn [bind]; [| reflexivity].
      destruct (index (vmax s) k); cbn [bind]; reflexivity. }
  apply (for_collect (fun k => let! c := index halo' k in
                               let! h := index (vmax s) k in Ok (slice c h (- h)))) in E2.
  2:{ intros k acc.
      destruct (index halo' k); cbn [bind]; [| reflexivity].
      destruct (index (vmax s) k); cbn [bind]; reflexivity. }
  destruct E1 as (xs & -> & Hlen1 & H1). destruct E2 as (ys & -> & Hlen2 & H2).
  cbn [app] in *. split; [exact Hlen1 |]. split; [exact Hlen2 |].
  intros k c Hc. specialize (H1 k c Hc). unfold f1 in H1.
  assert (Hnat : forall {A} (l : list A) x, index l (Z.of_nat k) = Ok x -> l !! k = Some x).
  { intros A l x Hx. apply index_Ok in Hx. destruct Hx as (j & Hj & Ej).
    destruct (Z.ltb_spec (Z.of_nat k) 0); [lia |]. replace k with j by lia. exact Hj. }
  destruct (index (bounds g) (Z.of_nat k)) as [b |] eqn:Eb; cbn [bind] in H1; [| discriminate].
  destruct (index (get_region gsize) (Z.of_nat k)) as [r |] eqn:Er; cbn [bind] in H1;
    [| discriminate].
  destruct (index (vmax s) (Z.of_nat k)) as [h |] eqn:Eh; cbn [bind] in H1; [| discriminate].
  exists b, r, h. repeat (split; [now apply Hnat |]). split; [exact H1 |].
  pose proof (lookup_lt_Some _ _ _ Hc) as Hk.
  destruct (lookup_lt_is_Some_2 ys k) as [y Hy]; [lia |].
  rewrite Hy. specialize (H2 k y Hy). cbn beta in H2.
  rewrite (index_nat _ _ _ Hc), Eh in H2. cbn [bind] in H2. congruence.
Qed.

(** X12. The coordinates built by [create_coords] are the centres of the
    cells: on every axis the nodes with halo number
    [region size + 2 vmax], the node of rank [i] is at the centre of the
    cell of global rank [region start - vmax + i], and, when [vmax] is
    positive, the nodes without halo are the [region size] centres of the
    cells of the worker: consecutive nodes are one space step apart. *)
Theorem create_coords_cell_centres (halo inner : list (list Q)) :
  create_coords g s space_step get_region gsize = Ok (halo, inner) ->
  length halo = dim g /\ length inner = dim g /\
  forall k b r h c,
    bounds g !! k = Some b -> get_region gsize !! k = Some r ->
    vmax s !! k = Some h -> halo !! k = Some c ->
    length c = Z.to_nat (snd r - fst r + 2 * h) /\
    (forall i x, c !! i = Some x ->
       x == centre (fst b) space_step (fst r - h + Z.of_nat i)) /\
    exists c', inner !! k = Some c' /\
      ((0 < h)%Z ->
       length c' = Z.to_nat (snd r - fst r) /\
       forall i x, c' !! i = Some x ->
         x == centre (fst b) space_step (fst r + Z.of_nat i)).
Proof.
  intros H. destruct (create_coords_axes halo inner H) as (L1 & L2 & Hax).
  split; [exact L1 |]. split; [exact L2 |].
  intros k b r h c Hb Hr Hh Hc.
  destruct (Hax k c Hc) as (b' & r' & h' & Hb' & Hr' & Hh' & Hlin & Hin).
  assert (b' = b) by congruence. assert (r' = r) by congruence.
  assert (h' = h) by congruence. subst b' r' h'.
  pose proof Hlin as Hnum. unfold linspace in Hnum.
  destruct (Z.ltb_spec (snd r - fst r + 2 * h) 0) as [| Hnum']; [discriminate |]. clear Hnum.
  apply halo_axis in Hlin. destruct Hlin as [Hlen Hcen].
  split; [exact Hlen |]. split; [exact Hcen |].
  exists (slice c h (- h)). split; [exact Hin |]. intros Hpos. split.
  - rewrite slice_halo_length, Hlen by exact Hpos. lia.
  - intros i x Hx. apply slice_halo_lookup in Hx; [| exact Hpos].
    destruct Hx as [Hx _]. rewrite (Hcen _ _ Hx).
    replace (fst r - h + Z.of_nat (Z.to_nat h + i))%Z with (fst r + Z.of_nat i)%Z by lia.
    reflexivity.
Qed.

(** With a halo of width zero on an axis, the slice
    [coords_halo[k][0:-0]] is empty: [create_coords] leaves no node without
    halo on that axis, whatever the region of the worker. *)
Lemma create_coords_no_halo_no_node (halo inner : list (list Q)) (k : nat) :
  create_coords g s space_step get_region gsize = Ok (halo, inner) ->
  (k < dim g)%nat ->
  vmax s !! k = Some 0%Z ->
  inner !! k = Some [].
Proof.
  intros H Hk Hh. destruct (create_coords_axes halo inner H) as (L1 & L2 & Hax).
  destruct (lookup_lt_is_Some_2 halo k) as [c Hc]; [lia |].
  destruct (Hax k c Hc) as (b & r & h & _ & _ & Hh' & _ & Hin).
  assert (h = 0%Z) by congruence. subst h.
  rewrite Hin. f_equal. apply slice_no_halo.
Qed.

End Coordinates.

(** ** Boxes of nodes, axis by axis *)

Lemma in_box_lookup (box : list (Z * Z)) (n : list Z) :
  Domain.in_box box n = true <->
  length box = length n /\
  forall i b x, box !! i = Some b -> n !! i = Some x -> (fst b <= x < snd b)%Z.
Proof.
  revert n. induction box as [| [lo hi] box IH]; intros [| x n]; cbn [Domain.in_box length].
  - split; [intros _; split; [reflexivity | intros i b x H; discriminate] | reflexivity].
  - split; [discriminate | intros [H _]; discriminate].
  - split; [discriminate | intros [H _]; discriminate].
  - rewrite !andb_true_iff, IH, Z.leb_le, Z.ltb_lt. split.
    + intros [[H1 H2] [H3 H4]]. split; [lia |].
      intros j b y Hb Hy. destruct j as [| j]; cbn in Hb, Hy.
      * injection Hb as <-. injection Hy as <-. cbn [fst snd]. lia.
      * eauto.
    + intros [H1 H2]. pose proof (H2 0%nat (lo, hi) x eq_refl eq_refl) as H0.
      cbn [fst snd] in H0. split; [lia |]. split; [lia |].
      intros j b y Hb Hy. exact (H2 (S j) b y Hb Hy).
Qed.

Lemma in_box_empty_axis (box : list (Z * Z)) (n : list Z) (i : nat) (b : Z * Z) :
  box !! i = Some b -> (snd b <= fst b)%Z -> Domain.in_box box n = false.
Proof.
  intros Hb He. destruct (Domain.in_box box n) eqn:E; [| reflexivity].
  apply in_box_lookup in E. destruct E as [Hlen E].
  destruct (lookup_lt_is_Some_2 n i) as [x Hx].
  { rewrite <- Hlen. eapply lookup_lt_Some, Hb. }
  specialize (E i b x Hb Hx). lia.
Qed.

Lemma interior_axis {A} (c : list A) (h x : Z) :
  (0 <= x)%Z ->
  (h <= x < h + Z.of_nat (length (slice c h (- h))))%Z ->
  (fst (slice_bounds (Z.of_nat (length c)) h (- h)) <= x
   < snd (slice_bounds (Z.of_nat (length c)) h (- h)))%Z.
Proof.
  unfold slice, slice_bounds, clamp. cbn [fst snd].
  rewrite length_take, length_drop.
  destruct (Z.ltb_spec h 0), (Z.ltb_spec (- h) 0); lia.
Qed.

Section Region.

Import Element Domain PhaseB Mesh.

Variable d : Domain.
Variable e : Element.
Variables nmin nmax : list Z.

Hypothesis Hbox : elem_box d e = Ok (nmin, nmax).

(** The bounds of the sub-grid of an element on one axis. *)
Lemma elem_box_axis :
  exists phys_bl phys_ur,
    get_bounds_halo d = Ok (phys_bl, phys_ur) /\
    forall i, (i < dim (geom d))%nat ->
      exists h m bl ur pbl,
        vmax (stencil d) !! i = Some h /\ shape_in d !! i = Some m /\
        fst (get_bounds e) !! i = Some bl /\ snd (get_bounds e) !! i = Some ur /\
        phys_bl !! i = Some pbl /\
        nmin !! i = Some (Z.max h (trunc ((bl - pbl) / dx d) - h)) /\
        nmax !! i = Some (Z.min (h + m) (trunc ((ur - pbl) / dx d) + h + 1)).
Proof.
  revert Hbox. unfold elem_box.
  destruct (get_bounds e) as [elem_bl elem_ur]. cbn [fst snd].
  destruct (get_bounds_halo d) as [[phys_bl phys_ur] |] eqn:Eh; cbn [bind]; [| discriminate].
  pose proof (get_bounds_halo_length _ _ _ Eh) as L0.
  destruct (Nat.eqb_spec (length (vmax (stencil d))) (dim (geom d))) as [L1 | _];
    cbn [andb negb]; [| discriminate].
  destruct (Nat.eqb_spec (length elem_bl) (dim (geom d))) as [L2 | _];
    cbn [andb negb]; [| discriminate].
  destruct (Nat.eqb_spec (length elem_ur) (dim (geom d))) as [L3 | _];
    cbn [andb negb]; [| discriminate].
  destruct (Nat.eqb_spec (length (shape_in d)) (dim (geom d))) as [L4 | _];
    cbn [andb negb]; [| discriminate].
  intros H. injection H as <- <-.
  exists phys_bl, phys_ur. split; [reflexivity |]. intros i Hi.
  destruct (lookup_lt_is_Some_2 (vmax (stencil d)) i) as [h Hh]; [lia |].
  destruct (lookup_lt_is_Some_2 (shape_in d) i) as [m Hm]; [lia |].
  destruct (lookup_lt_is_Some_2 elem_bl i) as [bl Hbl]; [lia |].
  destruct (lookup_lt_is_Some_2 elem_ur i) as [ur Hur]; [lia |].
  destruct (lookup_lt_is_Some_2 phys_bl i) as [pbl Hpbl]; [lia |].
  exists h, m, bl, ur, pbl. repeat (split; [assumption |]).
  rewrite !lookup_zip_with, Hh, Hm, Hbl, Hur, Hpbl. cbn. split; reflexivity.
Qed.

Hypothesis Haligned : aligned d nmin nmax (zeros d) = true.

Hypothesis Hgrid : length (coords_halo d) = dim (geom d).

(** The sub-grid of an element is the part of its box that lies on the
    grid. *)
Lemma region_clipped (n : list Z) :
  in_box (region d nmin nmax) n = in_box (zip nmin nmax) n && in_box (halo_grid d) n.
Proof.
  destruct (elem_box_length d e nmin nmax Hbox) as (L1 & L2).
  destruct (aligned_nonneg d nmin nmax _ Haligned) as [N1 N2].
  unfold region, view_box, halo_grid. apply in_box_views; auto.
  - unfold zeros. apply Forall_replicate. reflexivity.
  - unfold shape_halo. rewrite length_map. lia.
  - unfold shape_halo. rewrite length_map. lia.
  - unfold zeros, shape_halo. rewrite length_replicate, length_map. lia.
Qed.

Hypothesis Hsliced : sliced d.

(** The sub-grid of an element holds no node of the halo. *)
Lemma region_in_phys (n : list Z) :
  in_box (region d nmin nmax) n = true -> in_box (phys_domain d) n = true.
Proof.
  rewrite region_clipped, andb_true_iff, !in_box_lookup.
  destruct Hsliced as (Hc & _ & Hv).
  destruct (elem_box_length d e nmin nmax Hbox) as (L1 & L2).
  destruct (aligned_nonneg d nmin nmax _ Haligned) as [N1 N2].
  destruct elem_box_axis as (pbl & pur & _ & Hax).
  intros [[Hl1 H1] [Hl2 H2]]. split.
  - unfold phys_domain. rewrite length_zip_with. unfold halo_grid in Hl2.
    rewrite length_map in Hl2. unfold shape_halo in *. rewrite length_map in *. lia.
  - intros i b x Hb Hx. unfold phys_domain in Hb.
    apply lookup_zip_with_Some in Hb. destruct Hb as (len & h & -> & Hlen & Hh).
    unfold shape_halo in Hlen. rewrite list_lookup_fmap in Hlen.
    destruct (coords_halo d !! i) as [c |] eqn:Ec; [| discriminate].
    injection Hlen as <-.
    assert (Hi : (i < dim (geom d))%nat) by (rewrite <- Hv; eapply lookup_lt_Some, Hh).
    destruct (Hax i Hi) as (h' & m & bl & ur & p & Hh' & Hm & _ & _ & _ & Ea & Eb).
    assert (h' = h) by congruence. subst h'.
    unfold shape_in in Hm. rewrite Hc, list_lookup_fmap, lookup_zip_with, Ec, Hh in Hm.
    cbn in Hm. injection Hm as <-.
    assert (Hab : zip nmin nmax !! i
                  = Some (Z.max h (trunc ((bl - p) / dx d) - h),
                          Z.min (h + Z.of_nat (length (slice c h (- h))))
                                (trunc ((ur - p) / dx d) + h + 1))).
    { rewrite lookup_zip_with, Ea, Eb. reflexivity. }
    specialize (H1 _ _ _ Hab Hx). cbn [fst snd] in H1.
    assert (H0 : (0 <= Z.max h (trunc ((bl - p) / dx d) - h))%Z).
    { rewrite Forall_forall in N1. apply N1. eapply list_elem_of_lookup_2, Ea. }
    apply interior_axis; lia.
Qed.

End Region.

(** ** The phases of [Domain.__init__] *)

Section Phases.

Import Element Domain PhaseA PhaseB Mesh Scenes.

Variable g : Geometry.
Variable s : Stencil.
Variable space_step : Q.
Variable get_region : list Q -> list (Z * Z).

Lemma init_phases (d : Domain) :
  __init__ g s space_step get_region = Ok d ->
  exists d0 da,
    blank g s space_step get_region = Ok d0 /\
    add_init d0 (box_label d0) = Ok da /\
    for_ (list_elem g) (fun elem d => add_elem d elem) da = Ok d.
Proof.
  unfold __init__, blank.
  destruct (global_sizes g space_step) as [gsize |]; cbn [bind]; [| discriminate].
  destruct (create_coords g s space_step get_region gsize) as [[halo inner] |];
    cbn [bind]; [| discriminate].
  destruct (relabel g get_region gsize (geom_box_label g)) as [label |];
    cbn [bind]; [| discriminate].
  match goal with |- context [add_init ?d0 label] =>
    destruct (add_init d0 label) as [da |] eqn:Ea; cbn [bind]; [| discriminate];
    intros H; exists d0, da end.
  split; [reflexivity |]. split; [exact Ea | exact H].
Qed.

Lemma blank_spec (d0 : Domain) :
  blank g s space_step get_region = Ok d0 ->
  geom d0 = g /\ stencil d0 = s /\ dx d0 = space_step /\
  in_or_out d0 = (fun _ => valin) /\
  distance d0 = (fun _ _ => valin) /\ flag d0 = (fun _ _ => valin_flag) /\
  exists gsize,
    global_sizes g space_step = Ok gsize /\
    create_coords g s space_step get_region gsize = Ok (coords_halo d0, coords d0) /\
    relabel g get_region gsize (geom_box_label g) = Ok (box_label d0).
Proof.
  unfold blank.
  destruct (global_sizes g space_step) as [gsize |]; cbn [bind]; [| discriminate].
  destruct (create_coords g s space_step get_region gsize) as [[halo inner] |] eqn:Ec;
    cbn [bind]; [| discriminate].
  destruct (relabel g get_region gsize (geom_box_label g)) as [label |] eqn:El;
    cbn [bind]; [| discriminate].
  intros H. injection H as <-. cbn. repeat (split; [reflexivity |]).
  exists gsize. repeat split; assumption.
Qed.

End Phases.

Section Frames.

Import Element Domain PhaseA PhaseB Mesh Scenes.

Lemma add_init_frame (d d' : Domain) (label : list Z) :
  add_init d label = Ok d' ->
  geom d' = geom d /\ stencil d' = stencil d /\ dx d' = dx d /\
  coords_halo d' = coords_halo d /\ coords d' = coords d /\
  box_label d' = box_label d /\ global_size d' = global_size d.
Proof.
  unfold add_init. destruct (negb _); [discriminate |].
  destruct (for_ _ _ _); cbn [bind]; [| discriminate].
  intros H. injection H as <-. cbn. repeat split.
Qed.

Lemma sliced_blank (g : Geometry) (s : Stencil) (space_step : Q)
    (get_region : list Q -> list (Z * Z)) (d0 : Domain) :
  blank g s space_step get_region = Ok d0 ->
  length (vmax s) = dim g ->
  sliced d0.
Proof.
  intros H Hv. destruct (blank_spec _ _ _ _ _ H) as (Eg & Es & _ & _ & _ & _ & gsize & _ & Hc & _).
  destruct (create_coords_axes _ _ _ _ _ _ _ Hc) as (L1 & L2 & Hax).
  unfold sliced. rewrite Eg, Es. split; [| split; assumption].
  apply list_eq. intros i. rewrite lookup_zip_with.
  destruct (coords_halo d0 !! i) as [c |] eqn:Ei; cbn.
  - destruct (Hax i c Ei) as (b & r & h & _ & _ & Hh & _ & Hin). rewrite Hh. cbn. exact Hin.
  - apply lookup_ge_None. apply lookup_ge_None in Ei. lia.
Qed.

Lemma sliced_frame (d d' : Domain) :
  sliced d ->
  geom d' = geom d -> stencil d' = stencil d ->
  coords_halo d' = coords_halo d -> coords d' = coords d ->
  sliced d'.
Proof.
  unfold sliced. intros H -> -> -> ->. exact H.
Qed.

(** [__add_init] writes on no node of the halo. *)
Lemma add_init_halo (d d' : Domain) (label : list Z) (n : list Z) :
  add_init d label = Ok d' ->
  in_box (phys_domain d) n = false ->
  in_or_out d' n = valout /\
  forall k, distance d' k n = distance d k n /\ flag d' k n = flag d k n.
Proof.
  intros H Hn. destruct (add_init_schedule d label d' H) as (Hrun & Hioo & _).
  split.
  - rewrite Hioo, Hn. reflexivity.
  - intros k.
    apply (rows_elsewhere d (schedule d label) (distance d, flag d) (distance d', flag d') k n Hrun).
    intros op _. unfold reaches. destruct (op_k op =? k)%nat; [| reflexivity].
    destruct (row_index d (op_iuv op) (op_i op)); [| reflexivity].
    unfold row. rewrite Hn. reflexivity.
Qed.

(** [__add_elem] keeps the mesh and changes nothing outside its sub-grid. *)
Lemma add_elem_frame (d d' : Domain) (e : Element) :
  add_elem d e = Ok d' ->
  geom d' = geom d /\ stencil d' = stencil d /\ dx d' = dx d /\
  coords_halo d' = coords_halo d /\ coords d' = coords d /\
  exists nmin nmax,
    elem_box d e = Ok (nmin, nmax) /\ aligned d nmin nmax (zeros d) = true /\
    in_or_out d' = ioo_elem d e nmin nmax /\
    forall n, in_box (region d nmin nmax) n = false ->
      in_or_out d' n = in_or_out d n /\
      forall k, distance d' k n = distance d k n /\ flag d' k n = flag d k n.
Proof.
  intros H. destruct (add_elem_spec d e d' H)
    as (nmin & nmax & Hb & Ha & Hioo & Hch & Hco & Hst & Hg & Hdx & _).
  repeat (split; [assumption |]).
  exists nmin, nmax. repeat (split; [assumption |]).
  intros n Hr. split.
  - rewrite Hioo. unfold ioo_elem. rewrite Hr. reflexivity.
  - intros k. pose proof (add_elem_at d d' e nmin nmax H Hb k n) as E.
    unfold swept in E. rewrite Hr in E.
    destruct (k <? unvtot (stencil d))%nat.
    + destruct (unique_velocities (stencil d) !! k) as [vk |].
      * rewrite andb_false_r in E. injection E as -> ->. split; reflexivity.
      * injection E as -> ->. split; reflexivity.
    + injection E as -> ->. split; reflexivity.
Qed.

Lemma phys_domain_frame (d d' : Domain) :
  stencil d' = stencil d -> coords_halo d' = coords_halo d ->
  phys_domain d' = phys_domain d.
Proof.
  unfold phys_domain, shape_halo. intros -> ->. reflexivity.
Qed.

(** An invariant of the loop on the elements, established by
    [__add_init], holds of the domain that [__init__] returns. *)
Lemma init_invariant (P : Domain -> Prop) (g : Geometry) (s : Stencil) (space_step : Q)
    (get_region : list Q -> list (Z * Z)) (d : Domain) :
  __init__ g s space_step get_region = Ok d ->
  (forall d0 da,
      blank g s space_step get_region = Ok d0 ->
      add_init d0 (box_label d0) = Ok da ->
      P da) ->
  (forall d e d',
      In e (list_elem g) ->
      sliced d -> geom d = g -> stencil d = s -> dx d = space_step ->
      P d -> add_elem d e = Ok d' -> P d') ->
  P d /\ sliced d /\ geom d = g /\ stencil d = s /\ dx d = space_step.
Proof.
  intros H Hinit Hstep.
  destruct (init_phases _ _ _ _ _ H) as (d0 & da & H0 & Ha & Hl).
  destruct (blank_spec _ _ _ _ _ H0) as (Eg & Es & Ex & _).
  destruct (add_init_frame _ _ _ Ha) as (Fg & Fs & Fx & Fh & Fc & _).
  destruct (add_init_schedule _ _ _ Ha) as (_ & _ & Hv).
  assert (Hs : sliced da).
  { apply (sliced_frame d0); try assumption.
    apply (sliced_blank g s space_step get_region); [assumption |].
    rewrite <- Es, <- Eg. exact Hv. }
  assert (Ia : P da /\ sliced da /\ geom da = g /\ stencil da = s /\ dx da = space_step).
  { split; [eapply Hinit; eassumption |]. split; [exact Hs |]. repeat split; congruence. }
  clear H H0 Ha Eg Es Ex Fg Fs Fx Fh Fc Hv Hs Hinit.
  assert (Hgen : forall l da,
    (forall e, In e l -> In e (list_elem g)) ->
    P da /\ sliced da /\ geom da = g /\ stencil da = s /\ dx da = space_step ->
    for_ l (fun elem d => add_elem d elem) da = Ok d ->
    P d /\ sliced d /\ geom d = g /\ stencil d = s /\ dx d = space_step).
  { clear da Ia Hl. induction l as [| e l IH]; intros da Hin Ia Hl; cbn [for_] in Hl.
    - injection Hl as <-. exact Ia.
    - destruct (add_elem da e) as [db |] eqn:Eb; cbn [bind] in Hl; [| discriminate].
      destruct Ia as (Ip & Is & Ig & Ist & Idx).
      destruct (add_elem_frame _ _ _ Eb) as (Fg & Fs & Fx & Fh & Fc & _).
      apply (IH db); [intros e' He'; apply Hin; right; exact He' | | exact Hl].
      split; [apply (Hstep da e db); auto; apply Hin; left; reflexivity |].
      split; [apply (sliced_frame da); assumption |]. repeat split; congruence. }
  apply (Hgen (list_elem g) da); auto.
Qed.

End Frames.

(** ** Invariants of the construction *)

Section Invariants.

Import Element Domain PhaseA PhaseB Mesh Scenes.

Variable g : Geometry.
Variable s : Stencil.
Variable space_step : Q.
Variable get_region : list Q -> list (Z * Z).
Variable d : Domain.

Hypothesis Hinit : __init__ g s space_step get_region = Ok d.

Lemma init_halo (n : list Z) :
  in_box (phys_domain d) n = false ->
  in_or_out d n = valout /\
  forall k, distance d k n = valin /\ flag d k n = valin_flag.
Proof.
  revert n.
  apply (init_invariant
           (fun d => forall n, in_box (phys_domain d) n = false ->
                               in_or_out d n = valout /\
                               forall k, distance d k n = valin /\ flag d k n = valin_flag)
           g s space_step get_region d Hinit).
  - intros d0 da H0 Ha n Hn.
    destruct (blank_spec _ _ _ _ _ H0) as (_ & _ & _ & _ & Hd & Hf & _).
    destruct (add_init_frame _ _ _ Ha) as (_ & Fs & _ & Fh & _).
    rewrite (phys_domain_frame d0 da Fs Fh) in Hn.
    destruct (add_init_halo _ _ _ n Ha Hn) as [Hio Hk].
    split; [exact Hio |]. intros k. destruct (Hk k) as [-> ->].
    rewrite Hd, Hf. split; reflexivity.
  - intros d1 e d2 _ Hs _ _ _ IH He n Hn.
    destruct (add_elem_frame _ _ _ He) as (_ & Fs & _ & Fh & _ & nmin & nmax & Hb & Ha & _ & Hout).
    rewrite (phys_domain_frame d1 d2 Fs Fh) in Hn.
    assert (Hr : in_box (region d1 nmin nmax) n = false).
    { destruct (in_box (region d1 nmin nmax) n) eqn:E; [| reflexivity].
      apply (region_in_phys d1 e nmin nmax Hb Ha) in E; [congruence | apply Hs | exact Hs]. }
    destruct (Hout n Hr) as [-> Hk]. destruct (IH n Hn) as [Hio Hd].
    split; [exact Hio |]. intros k. destruct (Hk k) as [-> ->]. apply Hd.
Qed.

(** X2. In the domain that [__init__] returns, a node of the halo (a node
    that is not in the slice [vmax : -vmax] of every axis) is outside and
    carries no boundary: its entry of [in_or_out] is [valout], and for every
    velocity its distance and its flag are [valin]. *)
Theorem halo_nodes_stay_outside (n : list Z) :
  in_box (phys_domain d) n = false ->
  in_or_out d n = valout /\
  forall k, distance d k n = valin /\ flag d k n = valin_flag.
Proof.
  exact (init_halo n).
Qed.

(** X7. When the stencil has a halo of width zero on one axis of the
    geometry, no node of the domain that [__init__] returns is in the
    fluid: every entry of [in_or_out] is [valout]. *)
Theorem no_halo_no_fluid (k : nat) (n : list Z) :
  (k < dim g)%nat ->
  vmax s !! k = Some 0%Z ->
  in_or_out d n = valout.
Proof.
  intros Hk Hv.
  destruct (init_invariant (fun _ => True) g s space_step get_region d Hinit)
    as (_ & Hs & Hg & Hst & _); auto.
  apply init_halo. destruct Hs as (_ & Hlen & _).
  destruct (lookup_lt_is_Some_2 (coords_halo d) k) as [c Hc]; [rewrite Hlen, Hg; exact Hk |].
  apply (in_box_empty_axis _ n k (slice_bounds (Z.of_nat (length c)) 0 (- 0))).
  - unfold phys_domain, shape_halo. rewrite lookup_zip_with, list_lookup_fmap, Hc, Hst, Hv.
    reflexivity.
  - unfold slice_bounds. cbn [fst snd]. change (- 0)%Z with 0%Z. lia.
Qed.

(** X8. In the domain that [__init__] returns every entry of [in_or_out]
    is one of the two values [valin] and [valout]. *)
Theorem occupancy_is_in_or_out (n : list Z) :
  in_or_out d n = valin \/ in_or_out d n = valout.
Proof.
  revert n.
  apply (init_invariant
           (fun d => forall n, in_or_out d n = valin \/ in_or_out d n = valout)
           g s space_step get_region d Hinit).
  - intros d0 da _ Ha n. destruct (add_init_schedule _ _ _ Ha) as (_ & -> & _).
    destruct (in_box _ n); auto.
  - intros d1 e d2 _ _ _ _ _ IH He n.
    destruct (add_elem_frame _ _ _ He) as (_ & _ & _ & _ & _ & nmin & nmax & _ & _ & -> & _).
    unfold ioo_elem. destruct (in_box _ n); [| apply IH].
    destruct (isfluid e); [destruct (ind_fluid _ _ _) | destruct (ind_solid _ _ _)];
      auto; apply IH.
Qed.

(** X5. For a velocity whose components are all zero, the construction
    writes nothing: in the domain that [__init__] returns its distance and
    its flag are [valin] at every node. *)
Theorem rest_velocity_is_never_written (k : nat) (v : list Z) (n : list Z) :
  unique_velocities s !! k = Some v ->
  Forall (fun c => c = 0%Z) v ->
  distance d k n = valin /\ flag d k n = valin_flag.
Proof.
  intros Hk Hv.
  assert (Hnz : nonzero v = false).
  { unfold nonzero. apply not_true_is_false. intros H.
    apply existsb_exists in H. destruct H as (c & Hc & Hne).
    rewrite Forall_forall in Hv. apply list_elem_of_In in Hc.
    rewrite (Hv c Hc) in Hne. discriminate. }
  assert (Huv : forall axis, uv s axis !! k = Some 0%Z).
  { intros axis. unfold uv. rewrite list_lookup_fmap, Hk. cbn. f_equal.
    destruct (nth_in_or_default axis v 0%Z) as [Hin | ->]; [| reflexivity].
    rewrite Forall_forall in Hv. apply Hv, list_elem_of_In, Hin. }
  revert n.
  apply (init_invariant
           (fun d => stencil d = s /\
                     forall n, distance d k n = valin /\ flag d k n = valin_flag)
           g s space_step get_region d Hinit).
  - intros d0 da H0 Ha.
    destruct (blank_spec _ _ _ _ _ H0) as (_ & Es & _ & _ & Hd & Hf & _).
    destruct (add_init_frame _ _ _ Ha) as (_ & Fs & _).
    split; [congruence |]. intros n.
    destruct (add_init_schedule _ _ _ Ha) as (Hrun & _ & _).
    pose proof (rows_elsewhere d0 (schedule d0 (box_label d0)) (distance d0, flag d0)
                  (distance da, flag da) k n Hrun) as Hrows.
    cbn [fst snd] in Hrows. rewrite Hd, Hf in Hrows. apply Hrows.
    intros op Hop. unfold reaches.
    destruct (Nat.eqb_spec (op_k op) k) as [Ek | _]; [| reflexivity]. exfalso.
    apply schedule_In in Hop. destruct Hop as (vk & _ & Hrow & Hvk).
    apply velocity_rows_label in Hrow.
    rewrite Es, Ek, Huv in Hvk. injection Hvk as <-.
    destruct Hrow as (_ & _ & _ & _ & [[H _] | [H _]]); lia.
  - intros d1 e d2 _ _ _ Hst _ [_ IH] He.
    destruct (add_elem_frame _ _ _ He) as (_ & Fs & _ & _ & _ & nmin & nmax & Hb & _).
    split; [congruence |]. intros n.
    pose proof (add_elem_at d1 d2 e nmin nmax He Hb k n) as E.
    unfold swept in E. rewrite Hst, Hk, Hnz in E. cbn [andb] in E.
    destruct (k <? unvtot s)%nat; injection E as -> ->; apply IH.
Qed.

End Invariants.

Section ElementFrames.

Import Element Domain PhaseA PhaseB Mesh Scenes.

(** X9. When the range of indices computed for an element is empty on
    some axis without counting from the end (its upper bound is not
    negative and does not exceed its lower bound: the element lies above
    the nodes without halo, or at most just below them), [__add_elem]
    changes nothing when it returns: the occupancy, the distances and the
    flags are those of before at every node. *)
Theorem element_off_the_grid_changes_nothing
    (d d' : Domain) (e : Element) (nmin nmax : list Z) (i : nat) (a b : Z) :
  length (coords_halo d) = dim (geom d) ->
  add_elem d e = Ok d' ->
  elem_box d e = Ok (nmin, nmax) ->
  nmin !! i = Some a -> nmax !! i = Some b -> (0 <= b <= a)%Z ->
  forall n,
    in_or_out d' n = in_or_out d n /\
    forall k, distance d' k n = distance d k n /\ flag d' k n = flag d k n.
Proof.
  intros Hgrid H Hb Ha Hb' Hab n.
  destruct (add_elem_frame _ _ _ H) as (_ & _ & _ & _ & _ & nmin' & nmax' & Hb2 & Hal & _ & Hout).
  assert (nmin' = nmin /\ nmax' = nmax) as [-> ->] by (split; congruence).
  apply Hout. rewrite (region_clipped d e nmin nmax Hb Hal Hgrid).
  rewrite (in_box_empty_axis (zip nmin nmax) n i (a, b)); [reflexivity | | cbn [fst snd]; lia].
  rewrite lookup_zip_with, Ha, Hb'. reflexivity.
Qed.

(** X10. Right after a solid element is applied, every node of its
    sub-grid that lies inside the element is outside and carries no
    boundary for the moving velocities: its entry of [in_or_out] is
    [valout], its distance and flag are [valin]. *)
Theorem solid_element_resets_its_nodes
    (d d' : Domain) (e : Element) (nmin nmax : list Z) (n : list Z) :
  isfluid e = false ->
  add_elem d e = Ok d' ->
  elem_box d e = Ok (nmin, nmax) ->
  in_box (region d nmin nmax) n = true ->
  point_inside e (point d n) = true ->
  in_or_out d' n = valout /\
  forall k vk, unique_velocities (stencil d) !! k = Some vk -> nonzero vk = true ->
    distance d' k n = valin /\ flag d' k n = valin_flag.
Proof.
  intros Hs H Hb Hr Hp.
  destruct (add_elem_frame _ _ _ H) as (_ & _ & _ & _ & _ & nmin' & nmax' & Hb2 & _ & Hioo & _).
  assert (nmin' = nmin /\ nmax' = nmax) as [-> ->] by (split; congruence).
  split.
  - rewrite Hioo. unfold ioo_elem, ind_solid. rewrite Hr, Hs, Hp. reflexivity.
  - intros k vk Hk Hnz.
    pose proof (add_elem_velocity d d' e nmin nmax k vk n H Hb Hk Hnz Hr) as E.
    rewrite (solid_rule d e nmin nmax k vk n Hs) in E.
    unfold indx, ind_fluid in E. rewrite Hs, Hp in E. cbn [negb andb] in E.
    rewrite andb_false_r in E. cbn [andb] in E. injection E as -> ->. split; reflexivity.
Qed.

End ElementFrames.

(** ** The scenes, once more *)

Lemma smallest_root_within (a b c dmax : Q) :
  0 < Scenes.smallest_root a b c (Some dmax) ->
  Scenes.smallest_root a b c (Some dmax) <= dmax.
Proof.
  unfold Scenes.smallest_root.
  destruct ((_ <? 0) || (a =? 0)); [intros Hp; lra |].
  set (d1 := (- b - _) / _). set (d2 := (- b + _) / _). clearbody d1 d2.
  destruct (Qltb_spec 0 (Qmin d1 d2)) as [A1 | A1],
           (Qleb_spec (Qmin d1 d2) dmax) as [A2 | A2],
           (Qltb_spec 0 (Qmax d1 d2)) as [A3 | A3],
           (Qleb_spec (Qmax d1 d2) dmax) as [A4 | A4];
    cbn [andb]; intros Hp; try assumption; lra.
Qed.

Lemma ball_honours_dmax (c : vec3) (r : Q) (l : Z) (fluid : bool) :
  PhaseB.honours_dmax (Scenes.ball c r l fluid).
Proof.
  intros p v dmax. unfold Scenes.ball, Element.of_sphere. cbn [Element.distance].
  destruct p as [| x [| y [| z [| ? ?]]]]; try (cbn; intros Hp; lra).
  destruct v as [| a [| b [| c' [| ? ?]]]]; try (cbn; intros Hp; lra).
  unfold Sphere.distance, Scenes.distance_ellipsoid. cbn [Sphere.radius Sphere.center Sphere.label].
  destruct c as [[c0 c1] c2].
  match goal with |- context [Scenes.smallest_root ?A ?B ?C (Some dmax)] =>
    pose proof (smallest_root_within A B C dmax) as Hroot;
    set (t := Scenes.smallest_root A B C (Some dmax)) in * end.
  destruct (Qltb_spec 0 t) as [Ht | Ht]; cbn [fst]; [intros _; auto | intros Hp; lra].
Qed.

Section MoreScenarios.

Import Element Domain PhaseA PhaseB Mesh Scenes Cases.

Lemma construction_in_range_witness :
  let d := built (__init__ (cube [large_ball]) d3q6 1 whole) in
  succeeds (__init__ (cube [large_ball]) d3q6 1 whole) = true /\ in_range (distance d 1 [1; 5; 5]%Z).
Proof.
  intros d.
  assert (H : __init__ (cube [large_ball]) d3q6 1 whole = Ok d)
    by exact (built_succeeds (__init__ (cube [large_ball]) d3q6 1 whole) ltac:(by_computation)).
  assert (S : succeeds (__init__ (cube [large_ball]) d3q6 1 whole) = true) by by_computation.
  clearbody d. split; [exact S |].
  assert (F : Forall honours_dmax (list_elem (cube [large_ball]))).
  { unfold cube, large_ball. cbn [list_elem]. constructor; [| constructor].
    apply ball_honours_dmax. }
  exact (construction_in_range (cube [large_ball]) d3q6 1 whole d F H 1%nat [1; 5; 5]%Z).
Defined.

Lemma create_coords_cell_centres_witness :
  exists halo inner c,
    create_coords (cube []) d3q6 1 whole [8; 8; 8] = Ok (halo, inner) /\
    inner !! 0%nat = Some c /\ length c = 8%nat /\
    forall i x, c !! i = Some x -> x == centre 0 1 (0 + Z.of_nat i).
Proof.
  destruct (create_coords (cube []) d3q6 1 whole [8; 8; 8]) as [[halo inner] |] eqn:E;
    [| vm_compute in E; discriminate].
  destruct (create_coords_cell_centres _ _ _ _ _ halo inner E) as (_ & _ & Hax).
  assert (Eh : exists c, halo !! 0%nat = Some c).
  { vm_compute in E. injection E as <- _. eexists. reflexivity. }
  destruct Eh as [ch Hch].
  destruct (Hax 0%nat (0, 8) (0%Z, 8%Z) 1%Z ch eq_refl eq_refl eq_refl Hch)
    as (_ & _ & c & Hc & Hpos).
  destruct (Hpos eq_refl) as [Hlen Hcen].
  exists halo, inner, c. split; [reflexivity |]. split; [exact Hc |].
  split; [exact Hlen | exact Hcen].
Defined.

Lemma halo_nodes_stay_outside_witness :
  let d := built (__init__ (cube [large_ball]) d3q6 1 whole) in
  let n := [0; 5; 5]%Z in
  in_box (phys_domain d) n = false /\
  in_or_out d n = valout /\ distance d 0 n = valin /\ flag d 0 n = valin_flag.
Proof.
  intros d n.
  assert (H : __init__ (cube [large_ball]) d3q6 1 whole = Ok d)
    by exact (built_succeeds (__init__ (cube [large_ball]) d3q6 1 whole) ltac:(by_computation)).
  assert (Hn : in_box (phys_domain d) n = false) by by_computation.
  clearbody d. split; [exact Hn |].
  destruct (halo_nodes_stay_outside _ _ _ _ d H n Hn) as [H1 H2].
  split; [exact H1 | apply H2].
Defined.

Lemma no_halo_no_fluid_witness :
  let d := built (__init__ square d2q2 1 whole) in
  succeeds (__init__ square d2q2 1 whole) = true /\ in_or_out d [2; 2]%Z = valout.
Proof.
  intros d.
  assert (H : __init__ square d2q2 1 whole = Ok d)
    by exact (built_succeeds (__init__ square d2q2 1 whole) ltac:(by_computation)).
  assert (S : succeeds (__init__ square d2q2 1 whole) = true) by by_computation.
  clearbody d. split; [exact S |].
  apply (no_halo_no_fluid square d2q2 1 whole d H 1 [2; 2]%Z).
  - vm_compute. lia.
  - reflexivity.
Defined.

Lemma occupancy_is_in_or_out_witness :
  let d := built (__init__ (cube [large_ball; small_ball]) d3q6 1 whole) in
  succeeds (__init__ (cube [large_ball; small_ball]) d3q6 1 whole) = true /\
  (in_or_out d [4; 5; 5]%Z = valin \/ in_or_out d [4; 5; 5]%Z = valout).
Proof.
  intros d.
  assert (H : __init__ (cube [large_ball; small_ball]) d3q6 1 whole = Ok d)
    by exact (built_succeeds (__init__ (cube [large_ball; small_ball]) d3q6 1 whole) ltac:(by_computation)).
  assert (S : succeeds (__init__ (cube [large_ball; small_ball]) d3q6 1 whole) = true) by by_computation.
  clearbody d. split; [exact S |].
  apply (occupancy_is_in_or_out _ _ _ _ d H).
Defined.

Lemma rest_velocity_is_never_written_witness :
  let d := built (__init__ (cube [large_ball]) d3q7 1 whole) in
  succeeds (__init__ (cube [large_ball]) d3q7 1 whole) = true /\
  distance d 0 [5; 5; 5]%Z = valin /\ flag d 0 [5; 5; 5]%Z = valin_flag.
Proof.
  intros d.
  assert (H : __init__ (cube [large_ball]) d3q7 1 whole = Ok d)
    by exact (built_succeeds (__init__ (cube [large_ball]) d3q7 1 whole) ltac:(by_computation)).
  assert (S : succeeds (__init__ (cube [large_ball]) d3q7 1 whole) = true) by by_computation.
  clearbody d. split; [exact S |].
  apply (rest_velocity_is_never_written _ _ _ _ d H 0 [0; 0; 0]%Z).
  - reflexivity.
  - repeat constructor.
Defined.

Lemma element_off_the_grid_changes_nothing_witness :
  let d0 := built empty_cube in
  let d' := built (add_elem d0 far_ball) in
  add_elem d0 far_ball = Ok d' /\
  elem_box d0 far_ball = Ok ([18; 3; 3]%Z, [9; 8; 8]%Z) /\
  in_or_out d' [8; 5; 5]%Z = in_or_out d0 [8; 5; 5]%Z /\
  distance d' 0 [8; 5; 5]%Z = distance d0 0 [8; 5; 5]%Z.
Proof.
  intros d0 d'.
  pose (e := far_ball).
  assert (H : add_elem d0 e = Ok d')
    by exact (built_succeeds (add_elem d0 e) ltac:(by_computation)).
  assert (L : length (coords_halo d0) = dim (geom d0)) by by_computation.
  assert (B : elem_box d0 e = Ok ([18; 3; 3]%Z, [9; 8; 8]%Z)) by by_computation.
  fold e. clearbody d'. clearbody d0. clearbody e.
  split; [exact H |]. split; [exact B |].
  destruct (element_off_the_grid_changes_nothing d0 d' e _ _ 0 18 9 L H B eq_refl eq_refl
              ltac:(lia) [8; 5; 5]%Z) as [H1 H2].
  split; [exact H1 | apply H2].
Defined.

Lemma solid_element_resets_its_nodes_witness :
  let d0 := built empty_cube in
  let d' := built (add_elem d0 large_ball) in
  let n := [4; 5; 5]%Z in
  add_elem d0 large_ball = Ok d' /\
  in_or_out d' n = valout /\ distance d' 0 n = valin /\ flag d' 0 n = valin_flag.
Proof.
  intros d0 d' n.
  pose (e := large_ball).
  assert (H : add_elem d0 e = Ok d')
    by exact (built_succeeds (add_elem d0 e) ltac:(by_computation)).
  assert (B : elem_box d0 e = Ok ([1; 2; 2]%Z, [7; 9; 9]%Z)) by by_computation.
  assert (R : in_box (region d0 [1; 2; 2]%Z [7; 9; 9]%Z) n = true) by by_computation.
  assert (P : point_inside e (point d0 n) = true) by by_computation.
  assert (K : unique_velocities (stencil d0) !! 0%nat = Some [1; 0; 0]%Z) by by_computation.
  assert (F : isfluid e = false) by reflexivity.
  fold e. clearbody d'. clearbody d0. clearbody e.
  split; [exact H |].
  destruct (solid_element_resets_its_nodes d0 d' e _ _ n F H B R P) as [H1 H2].
  split; [exact H1 |]. apply (H2 0%nat [1; 0; 0]%Z K eq_refl).
Defined.

End MoreScenarios.

(** ** No node inside a solid is missed *)

Lemma trunc_le (q : Q) (x : Z) : q <= inject_Z x -> (0 <= x)%Z -> (trunc q <= x)%Z.
Proof.
  unfold trunc, Qle. cbn [Qnum Qden inject_Z]. intros H Hx.
  destruct (Z.le_gt_cases 0 (Qnum q)) as [Hn | Hn].
  - rewrite Z.quot_div_nonneg by lia. apply Z.div_le_upper_bound; lia.
  - pose proof (Z.quot_opp_l (Qnum q) (Zpos (Qden q)) ltac:(lia)) as E.
    pose proof (Z.quot_pos (- Qnum q) (Zpos (Qden q)) ltac:(lia) ltac:(lia)) as B.
    lia.
Qed.

Lemma le_trunc (q : Q) (x : Z) : inject_Z x <= q -> (0 <= x)%Z -> (x <= trunc q)%Z.
Proof.
  unfold trunc, Qle. cbn [Qnum Qden inject_Z]. intros H Hx.
  assert (Hn : (0 <= Qnum q)%Z) by nia.
  rewrite Z.quot_div_nonneg by lia. apply Z.div_le_lower_bound; lia.
Qed.

Section Covering.

Import Element Domain PhaseA PhaseB Mesh Scenes.

Lemma get_bounds_halo_lookup (d : Domain) (pbl pur : list Q) (i : nat) (c : list Q) :
  get_bounds_halo d = Ok (pbl, pur) ->
  (i < dim (geom d))%nat ->
  coords_halo d !! i = Some c ->
  exists x0, c !! 0%nat = Some x0 /\ pbl !! i = Some x0.
Proof.
  unfold get_bounds_halo.
  destruct (for_ _ _ []) as [bl |] eqn:E1; cbn [bind]; [| discriminate].
  destruct (for_ _ _ []) as [ur |] eqn:E2 in |- *; cbn [bind]; [| discriminate].
  intros H Hi Hc. injection H as <- <-.
  apply (for_collect (fun k => let! c := index (coords_halo d) k in index c 0)) in E1.
  2:{ intros k acc. destruct (index (coords_halo d) k); cbn [bind]; [| reflexivity].
      destruct (index _ 0); reflexivity. }
  destruct E1 as (xs & -> & Hlen & Hxs). cbn [app].
  destruct (lookup_lt_is_Some_2 xs i) as [x0 Hx0]; [lia |].
  exists x0. split; [| exact Hx0].
  specialize (Hxs i x0 Hx0). cbn beta in Hxs.
  rewrite (index_nat _ _ _ Hc) in Hxs. cbn [bind] in Hxs.
  apply index_Ok in Hxs. destruct Hxs as (j & Hj & Ej). cbn in Ej.
  replace j with 0%nat in Hj by lia. exact Hj.
Qed.

Lemma uniform_blank (g : Geometry) (s : Stencil) (space_step : Q)
    (get_region : list Q -> list (Z * Z)) (d0 : Domain) :
  blank g s space_step get_region = Ok d0 -> uniform d0.
Proof.
  intros H. destruct (blank_spec _ _ _ _ _ H) as (_ & _ & Ex & _ & _ & _ & gsize & _ & Hc & _).
  destruct (create_coords_axes _ _ _ _ _ _ _ Hc) as (_ & _ & Hax).
  intros k c i x0 x Hk H0 Hi. rewrite Ex.
  destruct (Hax k c Hk) as (b & r & h & _ & _ & _ & Hlin & _).
  apply halo_axis in Hlin. destruct Hlin as [_ Hcen].
  rewrite (Hcen _ _ Hi), (Hcen _ _ H0). unfold centre.
  change (Z.of_nat 0) with 0%Z. rewrite Z.add_0_r, inject_Z_plus. ring.
Qed.

Variable d : Domain.
Variable e : Element.

Hypothesis Hsliced : sliced d.
Hypothesis Huniform : uniform d.
Hypothesis Hdx : 0 < dx d.
Hypothesis Hvmax : Forall (fun h => 0 <= h)%Z (vmax (stencil d)).
Hypothesis Hbounded : bounded e.

(** A node without halo that lies inside the element belongs to the
    sub-grid of the element. *)
Lemma inside_in_region (nmin nmax : list Z) (n : list Z) :
  elem_box d e = Ok (nmin, nmax) ->
  aligned d nmin nmax (zeros d) = true ->
  in_box (phys_domain d) n = true ->
  point_inside e (point d n) = true ->
  in_box (region d nmin nmax) n = true.
Proof.
  intros Hb Ha Hn Hp.
  destruct Hsliced as (Hc & Hlen & Hv).
  rewrite (region_clipped d e nmin nmax Hb Ha Hlen), andb_true_iff, !in_box_lookup.
  destruct (elem_box_length d e nmin nmax Hb) as (L1 & L2).
  destruct (elem_box_axis d e nmin nmax Hb) as (pbl & pur & Eh & Hax).
  apply in_box_lookup in Hn. destruct Hn as [Hln Hn].
  assert (Hdim : length n = dim (geom d)).
  { rewrite <- Hln. unfold phys_domain, shape_halo. rewrite length_zip_with, length_map. lia. }
  destruct (Hbounded _ Hp) as [Hlo Hhi].
  assert (Haxis : forall i x, n !! i = Some x ->
            exists c h a b, coords_halo d !! i = Some c /\ vmax (stencil d) !! i = Some h /\
              nmin !! i = Some a /\ nmax !! i = Some b /\
              (0 <= x < Z.of_nat (length c))%Z /\ (a <= x < b)%Z).
  { intros i x Hx. assert (Hi : (i < dim (geom d))%nat).
    { rewrite <- Hdim. eapply lookup_lt_Some, Hx. }
    destruct (lookup_lt_is_Some_2 (coords_halo d) i) as [c Hci]; [lia |].
    destruct (Hax i Hi) as (h & m & bl & ur & p0 & Hh & Hm & Hbl & Hur & Hp0 & Ea & Eb).
    exists c, h. do 2 eexists. repeat (split; [eassumption |]).
    assert (Hm' : shape_in d !! i = Some (Z.of_nat (length (slice c h (- h))))).
    { unfold shape_in. rewrite Hc, list_lookup_fmap, lookup_zip_with, Hci, Hh. reflexivity. }
    assert (m = Z.of_nat (length (slice c h (- h)))) by congruence. subst m. clear Hm'.
    assert (Hphys : phys_domain d !! i = Some (slice_bounds (Z.of_nat (length c)) h (- h))).
    { unfold phys_domain, shape_halo. rewrite lookup_zip_with, list_lookup_fmap, Hci, Hh.
      reflexivity. }
    specialize (Hn i _ x Hphys Hx).
    assert (Hh0 : (0 <= h)%Z).
    { rewrite Forall_forall in Hvmax. eapply Hvmax, list_elem_of_lookup_2, Hh. }
    assert (Hrange : (h <= x < Z.of_nat (length c) - h)%Z /\ (0 < h)%Z).
    { revert Hn. unfold slice_bounds, clamp. cbn [fst snd].
      destruct (Z.ltb_spec h 0), (Z.ltb_spec (- h) 0); lia. }
    destruct Hrange as [Hrange Hpos].
    split; [lia |].
    rewrite slice_halo_length by exact Hpos.
    destruct (get_bounds_halo_lookup d pbl pur i c Eh Hi Hci) as (x0 & Hx0 & Hp0').
    assert (p0 = x0) by congruence. subst p0.
    destruct (lookup_lt_is_Some_2 c (Z.to_nat x)) as [xc Hxc]; [lia |].
    assert (Hpt : point d n !! i = Some xc).
    { unfold point. rewrite lookup_zip_with, Hci, Hx. cbn. f_equal.
      apply nth_lookup_Some with (d := 0) in Hxc. exact Hxc. }
    pose proof (Huniform i c (Z.to_nat x) x0 xc Hci Hx0 Hxc) as Hxc'.
    rewrite Z2Nat.id in Hxc' by lia.
    assert (Hbl' : bl <= xc).
    { eapply Forall2_lookup_lr in Hlo; eauto. }
    assert (Hur' : xc <= ur).
    { eapply Forall2_lookup_lr in Hhi; eauto. }
    assert (Q1 : (bl - x0) / dx d <= inject_Z x).
    { apply Qle_shift_div_r; [exact Hdx |]. rewrite Hxc' in Hbl'. lra. }
    assert (Q2 : inject_Z x <= (ur - x0) / dx d).
    { apply Qle_shift_div_l; [exact Hdx |]. rewrite Hxc' in Hur'. lra. }
    apply trunc_le in Q1; [| lia]. apply le_trunc in Q2; [| lia]. lia. }
  split; split.
  - rewrite length_zip_with. lia.
  - intros i b x Hb' Hx. destruct (Haxis i x Hx) as (c & h & a & b' & _ & _ & Ea & Eb & _ & Hab).
    rewrite lookup_zip_with, Ea, Eb in Hb'. cbn in Hb'. injection Hb' as <-. exact Hab.
  - unfold halo_grid, shape_halo. rewrite !length_map. lia.
  - intros i b x Hb' Hx. destruct (Haxis i x Hx) as (c & h & a & b' & Hci & _ & _ & _ & Hx0 & _).
    unfold halo_grid, shape_halo in Hb'. rewrite !list_lookup_fmap, Hci in Hb'.
    cbn in Hb'. injection Hb' as <-. exact Hx0.
Qed.

End Covering.

Section Solids.

Import Element Domain PhaseA PhaseB Mesh Scenes.

Lemma uniform_frame (d d' : Domain) :
  uniform d -> coords_halo d' = coords_halo d -> dx d' = dx d -> uniform d'.
Proof.
  unfold uniform. intros H -> ->. exact H.
Qed.

Lemma point_frame (d d' : Domain) (n : list Z) :
  coords_halo d' = coords_halo d -> point d' n = point d n.
Proof.
  unfold point. intros ->. reflexivity.
Qed.

Lemma solid_keeps_out (d d' : Domain) (e : Element) (n : list Z) :
  isfluid e = false -> add_elem d e = Ok d' ->
  in_or_out d n = valout -> in_or_out d' n = valout.
Proof.
  intros Hs H Hn.
  destruct (add_elem_frame _ _ _ H) as (_ & _ & _ & _ & _ & nmin & nmax & _ & _ & -> & _).
  unfold ioo_elem. rewrite Hs. destruct (in_box _ n); [| exact Hn].
  destruct (ind_solid _ _ _); [reflexivity | exact Hn].
Qed.

Lemma solid_covers (d d' : Domain) (e : Element) (n : list Z) :
  sliced d -> uniform d -> 0 < dx d ->
  Forall (fun h => 0 <= h)%Z (vmax (stencil d)) ->
  bounded e -> isfluid e = false ->
  add_elem d e = Ok d' ->
  in_box (phys_domain d) n = true ->
  point_inside e (point d n) = true ->
  in_or_out d' n = valout.
Proof.
  intros Hsl Hu Hdx Hv Hb Hs H Hn Hp.
  destruct (add_elem_frame _ _ _ H) as (_ & _ & _ & _ & _ & nmin & nmax & Hbox & Ha & -> & _).
  unfold ioo_elem, ind_solid.
  rewrite (inside_in_region d e Hsl Hu Hdx Hv Hb nmin nmax n Hbox Ha Hn Hp), Hs, Hp.
  reflexivity.
Qed.

Lemma solids_cover (l : list Element) (da d : Domain) :
  sliced da -> uniform da -> 0 < dx da ->
  Forall (fun h => 0 <= h)%Z (vmax (stencil da)) ->
  Forall (fun e => isfluid e = false /\ bounded e) l ->
  for_ l (fun elem d => add_elem d elem) da = Ok d ->
  coords_halo d = coords_halo da /\ stencil d = stencil da /\
  forall n,
    in_box (phys_domain da) n = true ->
    in_or_out da n = valout \/ (exists e, In e l /\ point_inside e (point da n) = true) ->
    in_or_out d n = valout.
Proof.
  revert da. induction l as [| e l IH]; intros da Hsl Hu Hdx Hv Hl Hrun; cbn [for_] in Hrun.
  - injection Hrun as <-. repeat split. intros n _ [Hn | (e & [] & _)]. exact Hn.
  - destruct (add_elem da e) as [db |] eqn:Eb; cbn [bind] in Hrun; [| discriminate].
    inversion Hl as [| e' l' [Hs Hb] Hl']; subst.
    destruct (add_elem_frame _ _ _ Eb) as (Fg & Fs & Fx & Fh & Fc & _).
    destruct (IH db) as (Gh & Gs & Hcov); auto.
    + apply (sliced_frame da); assumption.
    + apply (uniform_frame da); assumption.
    + rewrite Fx. exact Hdx.
    + rewrite Fs. exact Hv.
    + split; [congruence |]. split; [congruence |].
      intros n Hn Hcase. apply Hcov.
      * rewrite (phys_domain_frame da db Fs Fh). exact Hn.
      * destruct Hcase as [Hout | (e0 & [<- | Hin] & Hp)].
        -- left. eapply solid_keeps_out; eassumption.
        -- left. eapply solid_covers; eassumption.
        -- right. exists e0. split; [exact Hin |]. rewrite (point_frame da db n Fh). exact Hp.
Qed.

(** X3. When every element of the geometry is solid and lies within
    its bounds, the space step is positive and the widths of the halo are
    not negative, no node is missed: in the domain that [__init__] returns,
    every node without halo whose point lies inside one of the elements is
    outside ([in_or_out] is [valout]). *)
Theorem solid_nodes_are_outside (g : Geometry) (s : Stencil) (space_step : Q)
    (get_region : list Q -> list (Z * Z)) (d : Domain) (e : Element) (n : list Z) :
  __init__ g s space_step get_region = Ok d ->
  0 < space_step ->
  Forall (fun h => 0 <= h)%Z (vmax s) ->
  Forall (fun e => isfluid e = false /\ bounded e) (list_elem g) ->
  In e (list_elem g) ->
  in_box (phys_domain d) n = true ->
  point_inside e (point d n) = true ->
  in_or_out d n = valout.
Proof.
  intros H Hdx Hv Hl He Hn Hp.
  destruct (init_phases _ _ _ _ _ H) as (d0 & da & H0 & Ha & Hrun).
  destruct (blank_spec _ _ _ _ _ H0) as (Eg & Es & Ex & _).
  destruct (add_init_frame _ _ _ Ha) as (Fg & Fs & Fx & Fh & Fc & _).
  destruct (add_init_schedule _ _ _ Ha) as (_ & _ & Hvl).
  assert (Hsl : sliced da).
  { apply (sliced_frame d0); try assumption.
    apply (sliced_blank g s space_step get_region); [assumption |].
    rewrite <- Es, <- Eg. exact Hvl. }
  assert (Hu : uniform da).
  { apply (uniform_frame d0); try assumption.
    apply (uniform_blank g s space_step get_region). exact H0. }
  destruct (solids_cover (list_elem g) da d) as (Gh & Gs & Hcov); auto.
  - rewrite Fx, Ex. exact Hdx.
  - rewrite Fs, Es. exact Hv.
  - apply Hcov.
    + rewrite <- (phys_domain_frame da d Gs Gh). exact Hn.
    + right. exists e. split; [exact He |]. rewrite <- (point_frame da d n Gh). exact Hp.
Qed.

End Solids.

Lemma ball_bounded (c : vec3) (r : Q) (l : Z) (fluid : bool) :
  0 <= r -> Mesh.bounded (Scenes.ball c r l fluid).
Proof.
  intros Hr p. unfold Scenes.ball, Element.of_sphere.
  cbn [Element.point_inside Element.get_bounds].
  destruct p as [| x [| y [| z [| ? ?]]]]; try discriminate.
  unfold Sphere.point_inside, Sphere.get_bounds. cbn [Sphere.center Sphere.radius].
  destruct c as [[c0 c1] c2]. cbn [fst snd Element.of_vec3].
  destruct (Qleb_spec ((x - c0) ^ 2 + (y - c1) ^ 2 + (z - c2) ^ 2) (r ^ 2)) as [Hin |];
    [| discriminate].
  intros _.
  pose proof (sum_of_squares_bound (x - c0) (y - c1) (z - c2) r Hr Hin) as H0.
  assert (H1 : - r <= y - c1 <= r).
  { apply (sum_of_squares_bound (y - c1) (x - c0) (z - c2)); [exact Hr | lra]. }
  assert (H2 : - r <= z - c2 <= r).
  { apply (sum_of_squares_bound (z - c2) (x - c0) (y - c1)); [exact Hr | lra]. }
  split; repeat constructor; lra.
Qed.

Section CoveringScenario.

Import Element Domain PhaseA PhaseB Mesh Scenes.

Lemma solid_nodes_are_outside_witness :
  let d := built (__init__ (cube [large_ball; small_ball]) d3q6 1 whole) in
  let n := [6; 5; 5]%Z in
  point_inside small_ball (point d n) = true /\ in_or_out d n = valout.
Proof.
  intros d n.
  assert (H : __init__ (cube [large_ball; small_ball]) d3q6 1 whole = Ok d)
    by exact (built_succeeds (__init__ (cube [large_ball; small_ball]) d3q6 1 whole)
                ltac:(by_computation)).
  assert (Hn : in_box (phys_domain d) n = true) by by_computation.
  assert (Hp : point_inside small_ball (point d n) = true) by by_computation.
  clearbody d. split; [exact Hp |].
  assert (F : Forall (fun e => isfluid e = false /\ bounded e)
                (list_elem (cube [large_ball; small_ball]))).
  { unfold cube, large_ball, small_ball. cbn [list_elem].
    constructor; [| constructor; [| constructor]].
    - split; [reflexivity | apply ball_bounded; discriminate].
    - split; [reflexivity | apply ball_bounded; discriminate]. }
  assert (V : Forall (fun h => 0 <= h)%Z (vmax d3q6)).
  { unfold d3q6. cbn [vmax]. repeat constructor; lia. }
  assert (I : In small_ball (list_elem (cube [large_ball; small_ball]))).
  { unfold cube. cbn [list_elem]. right. left. reflexivity. }
  exact (solid_nodes_are_outside _ _ _ _ d small_ball n H ltac:(reflexivity) V F I Hn Hp).
Defined.

End CoveringScenario.

(** ** The frame of a cylinder *)

Section CylinderFrame.

Import Cylinder CylinderInit.

Variable inv : mat3 -> result mat3.
Variable mk_base : vec3 -> vec3 -> vec3 -> Base.
Variable test_label : list Z -> nat -> result unit.
Variable number_of_bounds : nat.

Lemma init_Ok (center v1 v2 w : vec3) (lab : Sphere.label_arg) (fluid : bool) (c : Cylinder) :
  __init__ inv mk_base test_label number_of_bounds center v1 v2 w lab fluid = Ok c ->
  inv (columns v1 v2 w) = Ok (iA c) /\
  Cylinder.center c = center /\ Cylinder.v1 c = v1 /\ Cylinder.v2 c = v2 /\ Cylinder.w c = w /\
  label c = match lab with
            | Sphere.LInt l => replicate number_of_bounds l
            | Sphere.LList l => l
            end.
Proof.
  unfold __init__, change_of_variables.
  destruct (inv (columns v1 v2 w)) as [N |]; cbn [bind]; [| discriminate].
  destruct (test_label _ number_of_bounds); cbn [bind]; [| discriminate].
  intros H. injection H as <-. cbn. repeat split.
Qed.

(** X17. In a cylinder that its constructor returns, [iA] is the inverse
    of the matrix of [v1], [v2] and [w]: the coordinates of the point
    [center + a v1 + b v2 + t w] in the frame of the cylinder are
    [(a, b, t)].  The inversion of NumPy is supposed to return a matrix
    that undoes its argument. *)
Theorem cylinder_frame_round_trip
    (center v1 v2 w : vec3) (lab : Sphere.label_arg) (fluid : bool) (c : Cylinder)
    (a b t : Q) :
  (forall M N, inv M = Ok N -> undoes N M) ->
  __init__ inv mk_base test_label number_of_bounds center v1 v2 w lab fluid = Ok c ->
  let '(x, y, z) := to_cyl c (move (move (move center v1 a) v2 b) w t) in
  x == a /\ y == b /\ z == t.
Proof.
  intros Hinv H. destruct (init_Ok _ _ _ _ _ _ _ H) as (HN & Hc & _).
  pose proof (Hinv _ _ HN (a, b, t)) as Hu.
  unfold to_cyl. rewrite Hc. clear H Hc HN Hinv.
  destruct center as [[c0 c1] c2], v1 as [[a0 a1] a2], v2 as [[b0 b1] b2], w as [[w0 w1] w2].
  unfold columns, dot in Hu. cbn [move m00 m01 m02 m10 m11 m12 m20 m21 m22] in *.
  destruct Hu as (E1 & E2 & E3).
  split; [| split].
  - etransitivity; [| exact E1]. ring.
  - etransitivity; [| exact E2]. ring.
  - etransitivity; [| exact E3]. ring.
Qed.

(** X19. A cylinder built with one integer as label carries
    [number_of_bounds] copies of it; as the classes of cylinders have three
    or five bounds, [distance] then returns for every point and direction
    instead of raising [IndexError]. *)
Theorem cylinder_integer_label_suffices
    (center v1 v2 w : vec3) (l : Z) (fluid : bool) (c : Cylinder) :
  (2 <= number_of_bounds)%nat ->
  __init__ inv mk_base test_label number_of_bounds center v1 v2 w (Sphere.LInt l) fluid = Ok c ->
  label c = replicate number_of_bounds l /\
  forall p v dmax, exists alpha border, distance c p v dmax = Ok (alpha, border).
Proof.
  intros Hn H. destruct (init_Ok _ _ _ _ _ _ _ H) as (_ & _ & _ & _ & _ & Hl).
  split; [exact Hl |]. intros p v dmax.
  assert (Hidx : forall i, (- 2 <= i < 0)%Z -> index (label c) i = Ok l).
  { intros i Hi. rewrite Hl. unfold index. rewrite length_replicate.
    destruct (Z.ltb_spec i 0); [| lia].
    destruct (Z.leb_spec 0 (i + Z.of_nat number_of_bounds)); [| lia].
    destruct (Z.ltb_spec (i + Z.of_nat number_of_bounds) (Z.of_nat number_of_bounds)); [| lia].
    cbn [andb]. rewrite lookup_replicate_2 by lia. reflexivity. }
  unfold distance. destruct (side_candidate c p v dmax) as [sa sb].
  rewrite !Hidx by lia. cbn [bind]. do 2 eexists. reflexivity.
Qed.

End CylinderFrame.

Lemma cramer_undoes (M N : mat3) : Cases.cramer M = Ok N -> CylinderInit.undoes N M.
Proof.
  unfold Cases.cramer. destruct (Qeqb_spec (Cases.det M) 0) as [| Hd]; [discriminate |].
  intros H. injection H as <-. intros [[a b] c]. unfold Cases.det in *.
  destruct M as [p00 p01 p02 p10 p11 p12 p20 p21 p22].
  cbn [dot m00 m01 m02 m10 m11 m12 m20 m21 m22] in *.
  repeat split; field; exact Hd.
Qed.

Section CylinderScenarios.

Import Cylinder CylinderInit Scenes Cases.

Lemma cylinder_frame_round_trip_witness :
  exists c,
    __init__ cramer Base_Circle (fun _ _ => Ok tt) 3 (6, 3 # 2, 3 # 2) (0, 2, 0) (0, 0, 2)
      (1, 0, 0) (Sphere.LList [10; 11; 12]%Z) false = Ok c /\
    let '(x, y, z) :=
      to_cyl c (move (move (move (6, 3 # 2, 3 # 2) (0, 2, 0) (1 # 2)) (0, 0, 2) (- (1 # 2)))
                     (1, 0, 0) 1) in
    x == 1 # 2 /\ y == - (1 # 2) /\ z == 1.
Proof.
  assert (S : succeeds (__init__ cramer Base_Circle (fun _ _ => Ok tt) 3 (6, 3 # 2, 3 # 2)
                          (0, 2, 0) (0, 0, 2) (1, 0, 0) (Sphere.LList [10; 11; 12]%Z) false)
              = true)
    by (vm_compute; reflexivity).
  destruct (__init__ cramer Base_Circle (fun _ _ => Ok tt) 3 (6, 3 # 2, 3 # 2) (0, 2, 0)
              (0, 0, 2) (1, 0, 0) (Sphere.LList [10; 11; 12]%Z) false) as [c |] eqn:E;
    [| discriminate S].
  exists c. split; [reflexivity |].
  exact (cylinder_frame_round_trip cramer _ _ _ _ _ _ _ _ _ c (1 # 2) (- (1 # 2)) 1
           cramer_undoes E).
Defined.

Lemma cylinder_integer_label_suffices_witness :
  exists c,
    __init__ cramer Base_Circle (fun _ _ => Ok tt) 3 (6, 3 # 2, 3 # 2) (0, 1, 0) (0, 0, 1)
      (1, 0, 0) (Sphere.LInt 7) false = Ok c /\
    label c = [7; 7; 7]%Z /\
    exists alpha border, distance c (7 # 2, 3 # 2, 3 # 2) (1, 0, 0) (Some 1) = Ok (alpha, border).
Proof.
  assert (S : succeeds (__init__ cramer Base_Circle (fun _ _ => Ok tt) 3 (6, 3 # 2, 3 # 2)
                          (0, 1, 0) (0, 0, 1) (1, 0, 0) (Sphere.LInt 7) false) = true)
    by (vm_compute; reflexivity).
  destruct (__init__ cramer Base_Circle (fun _ _ => Ok tt) 3 (6, 3 # 2, 3 # 2) (0, 1, 0)
              (0, 0, 1) (1, 0, 0) (Sphere.LInt 7) false) as [c |] eqn:E;
    [| discriminate S].
  exists c. split; [reflexivity |].
  destruct (cylinder_integer_label_suffices cramer _ _ 3 _ _ _ _ 7 false c ltac:(lia) E)
    as [Hl Hd].
  split; [exact Hl | apply Hd].
Defined.

End CylinderScenarios.

(** ** Distances and flags go together *)

Section Flags.

Import Element Domain PhaseA PhaseB Mesh Scenes.

Lemma add_init_flags (d d' : Domain) (label : list Z) :
  (forall k n, distance d k n == valin -> flag d k n = valin_flag) ->
  add_init d label = Ok d' ->
  forall k n, distance d' k n == valin -> flag d' k n = valin_flag.
Proof.
  intros Hd H. destruct (add_init_schedule d label d' H) as (Hrun & _ & _).
  pose proof (for_preserves
    (fun (_ : nat) (df : (nat -> list Z -> Q) * (nat -> list Z -> Z)) =>
       forall k n, fst df k n == valin -> snd df k n = valin_flag)
    _ _ _ _ Hrun) as HP.
  cbn [fst snd] in HP. apply HP; [exact Hd |].
  intros i op df df' Hop IH Hstep k n.
  pose proof (apply_row_spec d op df df' Hstep k n) as [E1 E2].
  rewrite E1, E2.
  destruct ((k =? op_k op)%nat && written d op (fst df) n); [| apply IH].
  apply list_elem_of_lookup_2, list_elem_of_In in Hop.
  pose proof (schedule_distance d label op Hop) as Hr.
  intros E. rewrite E in Hr. unfold valin in Hr. lra.
Qed.

Lemma add_elem_flags (d d' : Domain) (e : Element) :
  honours_dmax e ->
  add_elem d e = Ok d' ->
  (forall k n, distance d k n == valin -> flag d k n = valin_flag) ->
  forall k n, distance d' k n == valin -> flag d' k n = valin_flag.
Proof.
  intros He H Hd k n.
  destruct (add_elem_spec d e d' H) as (nmin & nmax & Hb & _).
  pose proof (add_elem_at d d' e nmin nmax H Hb k n) as E.
  destruct (k <? unvtot (stencil d))%nat; [| injection E as -> ->; apply Hd].
  unfold swept in E.
  destruct (unique_velocities (stencil d) !! k) as [vk |]; [| injection E as -> ->; apply Hd].
  destruct (nonzero vk && in_box (region d nmin nmax) n); [| injection E as -> ->; apply Hd].
  injection E as -> ->. unfold dist_set, flag_set.
  destruct (indx d e nmin nmax vk n && ind3 d e nmin nmax k vk (distance d) n) eqn:C.
  - apply andb_true_iff in C. destruct C as [C _]. unfold indx in C.
    apply andb_true_iff in C. destruct C as [C _]. apply andb_true_iff in C. destruct C as [C _].
    unfold candidate in *.
    destruct (Qltb_spec 0 (fst (Element.distance e (point d n)
                (map (fun c => dx d * inject_Z c) vk) 1))) as [Hp | Hp]; [| discriminate].
    pose proof (He _ _ _ Hp) as Hle. intros E. rewrite E in Hle. unfold valin in Hle. lra.
  - unfold dist_reset, flag_reset.
    destruct (isfluid e); [destruct (borderToInt d e nmin nmax vk n) | destruct (ind_solid d e n)];
      try apply Hd; reflexivity.
Qed.

(** X4. When every element honours the [dmax] that it is given, the
    distances and the flags of the domain that [__init__] returns agree on
    the absence of a boundary: wherever the distance is [valin] the flag is
    [valin] too. *)
Theorem sentinel_distance_has_sentinel_flag (g : Geometry) (s : Stencil) (space_step : Q)
    (get_region : list Q -> list (Z * Z)) (d : Domain) (k : nat) (n : list Z) :
  Forall honours_dmax (list_elem g) ->
  __init__ g s space_step get_region = Ok d ->
  distance d k n == valin -> flag d k n = valin_flag.
Proof.
  intros He H. revert k n.
  apply (init_invariant
           (fun d => forall k n, distance d k n == valin -> flag d k n = valin_flag)
           g s space_step get_region d H).
  - intros d0 da H0 Ha.
    destruct (blank_spec _ _ _ _ _ H0) as (_ & _ & _ & _ & Hd & Hf & _).
    apply (add_init_flags d0 da (box_label d0)); [| exact Ha].
    intros k n _. rewrite Hf. reflexivity.
  - intros d1 e d2 Hin _ _ _ _ IH Hadd.
    apply (add_elem_flags d1 d2 e); [| exact Hadd | exact IH].
    rewrite Forall_forall in He. apply He, list_elem_of_In, Hin.
Qed.

(** X6. Box seeding is local: for a velocity of rank [k], a node that is,
    on every axis, at least as many nodes away from the face towards which
    the velocity points as the component of the velocity is large keeps its
    distance and its flag through [__add_init]. *)
Theorem box_seeding_is_local (d d' : Domain) (label : list Z) (k : nat) (v n : list Z) :
  add_init d label = Ok d' ->
  unique_velocities (stencil d) !! k = Some v ->
  (forall iuv b, (iuv < dim (geom d))%nat -> phys_domain d !! iuv = Some b ->
     ((nth iuv v 0 < 0)%Z -> (fst b - nth iuv v 0 <= nth iuv n 0)%Z) /\
     ((0 < nth iuv v 0)%Z -> (nth iuv n 0 < snd b - nth iuv v 0)%Z)) ->
  distance d' k n = distance d k n /\ flag d' k n = flag d k n.
Proof.
  intros H Hk Hfar. destruct (add_init_schedule d label d' H) as (Hrun & _ & _).
  apply (rows_elsewhere d (schedule d label) (distance d, flag d) (distance d', flag d') k n Hrun).
  intros op Hop. unfold reaches.
  destruct (Nat.eqb_spec (op_k op) k) as [Ek | _]; [| reflexivity]. cbn [andb].
  destruct (row_index d (op_iuv op) (op_i op)) as [x |] eqn:Ex; [| reflexivity].
  unfold row. destruct (in_box (phys_domain d) n); [| reflexivity]. cbn [andb].
  apply Z.eqb_neq. intros En.
  apply schedule_In in Hop. destruct Hop as (vk & Hdim & Hrow & Hvk).
  apply velocity_rows_label in Hrow. destruct Hrow as (_ & _ & _ & _ & Hcase).
  unfold uv in Hvk. rewrite Ek, list_lookup_fmap, Hk in Hvk. cbn in Hvk. injection Hvk as <-.
  unfold row_index in Ex.
  destruct (index (phys_domain d) (Z.of_nat (op_iuv op))) as [b |] eqn:Eb; cbn [bind] in Ex;
    [| discriminate].
  apply index_Ok in Eb. destruct Eb as (j & Hb & Ej).
  destruct (Z.ltb_spec (Z.of_nat (op_iuv op)) 0); [lia |].
  assert (j = op_iuv op) by lia. subst j.
  destruct (Hfar (op_iuv op) b Hdim Hb) as [Hlow Hup].
  revert Ex. set (size := Z.max (snd b - fst b) 0).
  destruct (Z.ltb_spec (op_i op) 0);
    match goal with |- context [(?a <=? ?b)%Z && (?c <? ?d)%Z] =>
      destruct (Z.leb_spec a b), (Z.ltb_spec c d) end;
    cbn [andb]; intros Ex; try discriminate; injection Ex as <-;
    destruct Hcase as [(Hv & Hi & _) | (Hv & Hi & _)]; lia.
Qed.

End Flags.

Section FlagScenarios.

Import Element Domain PhaseA PhaseB Mesh Scenes.

Lemma sentinel_distance_has_sentinel_flag_witness :
  let d := built (__init__ (cube [large_ball; small_ball]) d3q6 1 whole) in
  distance d 0 [2; 5; 5]%Z == valin /\ flag d 0 [2; 5; 5]%Z = valin_flag.
Proof.
  intros d.
  assert (H : __init__ (cube [large_ball; small_ball]) d3q6 1 whole = Ok d)
    by exact (built_succeeds (__init__ (cube [large_ball; small_ball]) d3q6 1 whole)
                ltac:(by_computation)).
  assert (V : distance d 0 [2; 5; 5]%Z == valin) by by_computation.
  clearbody d. split; [exact V |].
  assert (F : Forall honours_dmax (list_elem (cube [large_ball; small_ball]))).
  { unfold cube, large_ball, small_ball. cbn [list_elem].
    constructor; [| constructor; [| constructor]]; apply ball_honours_dmax. }
  exact (sentinel_distance_has_sentinel_flag _ _ _ _ d 0 [2; 5; 5]%Z F H V).
Defined.

Lemma box_seeding_is_local_witness :
  let d0 := built (blank (cube []) d3q6 1 whole) in
  let d' := built (add_init d0 (box_label d0)) in
  add_init d0 (box_label d0) = Ok d' /\
  distance d' 0 [7; 5; 5]%Z = distance d0 0 [7; 5; 5]%Z /\
  flag d' 0 [7; 5; 5]%Z = flag d0 0 [7; 5; 5]%Z.
Proof.
  intros d0 d'.
  assert (H : add_init d0 (box_label d0) = Ok d')
    by exact (built_succeeds (add_init d0 (box_label d0)) ltac:(by_computation)).
  assert (K : unique_velocities (stencil d0) !! 0%nat = Some [1; 0; 0]%Z) by by_computation.
  assert (G : dim (geom d0) = 3%nat) by by_computation.
  assert (P : phys_domain d0 = [(1, 9); (1, 9); (1, 9)]%Z) by by_computation.
  clearbody d'. clearbody d0. split; [exact H |].
  apply (box_seeding_is_local d0 d' (box_label d0) 0 [1; 0; 0]%Z [7; 5; 5]%Z H K).
  intros iuv b Hi Hb. rewrite G in Hi. rewrite P in Hb.
  destruct iuv as [| [| [| ?]]]; try lia; cbn in Hb; injection Hb as <-; cbn; lia.
Defined.

End FlagScenarios.

(** ** The bounds of the nodes of a worker *)

Section CollectAll.

Context {A : Type} (f : Z -> result A) (body : Z -> list A -> result (list A)).

Hypothesis collecting : forall k acc, body k acc = let! x := f k in Ok (acc ++ [x]).

Lemma for_collect_Ok (xs acc : list A) :
  (forall i x, xs !! i = Some x -> f (Z.of_nat i) = Ok x) ->
  for_ (range (Z.of_nat (length xs))) body acc = Ok (acc ++ xs).
Proof.
  induction xs as [| x xs IH] using rev_ind; intros H.
  - cbn. rewrite app_nil_r. reflexivity.
  - rewrite length_app. cbn [length]. rewrite Nat.add_1_r, range_S, for_app, IH.
    + cbn [bind for_]. rewrite collecting, (H (length xs) x).
      * cbn [bind]. rewrite app_assoc. reflexivity.
      * rewrite lookup_app_r, Nat.sub_diag by lia. reflexivity.
    + intros i y Hy. apply H. rewrite lookup_app_l; [exact Hy |].
      eapply lookup_lt_Some, Hy.
Qed.

End CollectAll.

Lemma pick_all {A B} (f : A -> option B) (l : list A) :
  (forall k a, l !! k = Some a -> is_Some (f a)) ->
  exists xs, length xs = length l /\
    forall k x, xs !! k = Some x -> exists a, l !! k = Some a /\ f a = Some x.
Proof.
  induction l as [| a l IH]; intros Hl.
  - exists []. split; [reflexivity |]. intros k x Hx. discriminate.
  - destruct (Hl 0%nat a eq_refl) as [x0 Hx0].
    destruct IH as (xs & L & Hxs); [intros k b Hk; apply (Hl (S k) b Hk) |].
    exists (x0 :: xs). split; [cbn; lia |].
    intros [| k] x Hx; cbn in Hx.
    + injection Hx as <-. exists a. split; [reflexivity | exact Hx0].
    + apply Hxs. exact Hx.
Qed.

Section Bounds.

Import Element Domain Mesh.

Variable g : Geometry.
Variable s : Stencil.
Variable space_step : Q.
Variable get_region : list Q -> list (Z * Z).
Variable gsize : list Q.
Variable d : Domain.

Hypothesis Hcoords :
  create_coords g s space_step get_region gsize = Ok (coords_halo d, coords d).
Hypothesis Hdim : dim (geom d) = dim g.

(** X13. When every axis has a halo of positive width and a region that
    is not empty, [Domain.get_bounds] returns, on every axis, the centres of
    the first and of the last cell of the worker. *)
Theorem get_bounds_are_cell_centres :
  (forall k r h, get_region gsize !! k = Some r -> vmax s !! k = Some h ->
                 (k < dim g)%nat -> (0 < h)%Z /\ (fst r < snd r)%Z) ->
  exists bl ur,
    Bounds.get_bounds d = Ok (bl, ur) /\
    length bl = dim g /\ length ur = dim g /\
    forall k b r x y,
      bounds g !! k = Some b -> get_region gsize !! k = Some r ->
      bl !! k = Some x -> ur !! k = Some y ->
      x == centre (fst b) space_step (fst r) /\
      y == centre (fst b) space_step (snd r - 1).
Proof.
  intros Hpos.
  destruct (create_coords_cell_centres g s space_step get_region gsize _ _ Hcoords)
    as (L1 & L2 & Hcen).
  destruct (create_coords_axes g s space_step get_region gsize _ _ Hcoords) as (_ & _ & Hax).
  (* every axis has a first and a last node *)
  assert (Haxis : forall k c', coords d !! k = Some c' ->
            exists b r x y,
              bounds g !! k = Some b /\ get_region gsize !! k = Some r /\
              c' !! 0%nat = Some x /\ index c' (-1) = Ok y /\
              x == centre (fst b) space_step (fst r) /\
              y == centre (fst b) space_step (snd r - 1)).
  { intros k c' Hc'. assert (Hk : (k < dim g)%nat).
    { rewrite <- L2. eapply lookup_lt_Some, Hc'. }
    destruct (lookup_lt_is_Some_2 (coords_halo d) k) as [c Hc]; [lia |].
    destruct (Hax k c Hc) as (b & r & h & Hb & Hr & Hh & _ & _).
    destruct (Hpos k r h Hr Hh Hk) as [Hh0 Hr0].
    destruct (Hcen k b r h c Hb Hr Hh Hc) as (_ & _ & c'' & Hc'' & Hin).
    assert (c'' = c') by congruence. subst c''.
    destruct (Hin Hh0) as [Hlen Hnodes].
    destruct (lookup_lt_is_Some_2 c' 0) as [x Hx]; [lia |].
    destruct (lookup_lt_is_Some_2 c' (Z.to_nat (snd r - fst r - 1))) as [y Hy]; [lia |].
    exists b, r, x, y. repeat (split; [assumption |]). split; [| split].
    - unfold index. destruct (Z.ltb_spec (-1) 0); [| lia].
      destruct (Z.leb_spec 0 (-1 + Z.of_nat (length c'))); [| lia].
      destruct (Z.ltb_spec (-1 + Z.of_nat (length c')) (Z.of_nat (length c'))); [| lia].
      cbn [andb]. replace (Z.to_nat (-1 + Z.of_nat (length c')))
        with (Z.to_nat (snd r - fst r - 1)) by lia.
      rewrite Hy. reflexivity.
    - rewrite (Hnodes _ _ Hx). change (Z.of_nat 0) with 0%Z. rewrite Z.add_0_r. reflexivity.
    - rewrite (Hnodes _ _ Hy). rewrite Z2Nat.id by lia.
      replace (fst r + (snd r - fst r - 1))%Z with (snd r - 1)%Z by lia. reflexivity. }
  assert (Hfirst : exists bl, length bl = dim g /\
            forall k x, bl !! k = Some x ->
              exists c', coords d !! k = Some c' /\ c' !! 0%nat = Some x).
  { destruct (pick_all (fun c' : list Q => c' !! 0%nat) (coords d)) as (bl & E1 & E2).
    - intros k c' Hc'. destruct (Haxis k c' Hc') as (_ & _ & x & _ & _ & _ & Hx & _). eauto.
    - exists bl. split; [lia | exact E2]. }
  assert (Hlast : exists ur, length ur = dim g /\
            forall k y, ur !! k = Some y ->
              exists c', coords d !! k = Some c' /\ index c' (-1) = Ok y).
  { destruct (pick_all (fun c' : list Q => match index c' (-1) with
                                           | Ok y => Some y
                                           | Raise _ => None
                                           end) (coords d)) as (ur & E1 & E2).
    - intros k c' Hc'. destruct (Haxis k c' Hc') as (_ & _ & _ & y & _ & _ & _ & Hy & _).
      rewrite Hy. eauto.
    - exists ur. split; [lia |]. intros k y Hy. destruct (E2 k y Hy) as (c' & Hc' & Hi).
      exists c'. split; [exact Hc' |]. destruct (index c' (-1)); congruence. }
  destruct Hfirst as (bl & Lbl & Hbl). destruct Hlast as (ur & Lur & Hur).
  exists bl, ur. split; [| split; [exact Lbl | split; [exact Lur |]]].
  - unfold Bounds.get_bounds. rewrite Hdim.
    assert (R1 : for_ (range (Z.of_nat (dim g)))
                   (fun k acc => let! c := index (coords d) k in
                                 let! x := index c 0 in Ok (acc ++ [x])) [] = Ok ([] ++ bl)).
    { rewrite <- Lbl.
      apply (for_collect_Ok (fun k => let! c := index (coords d) k in index c 0)).
      - intros k acc. destruct (index (coords d) k); cbn [bind]; [| reflexivity].
        destruct (index _ 0); reflexivity.
      - intros i x Hx. destruct (Hbl i x Hx) as (c' & Hc' & Hx').
        rewrite (index_nat _ _ _ Hc'). cbn [bind]. apply (index_nat _ 0%nat). exact Hx'. }
    assert (R2 : for_ (range (Z.of_nat (dim g)))
                   (fun k acc => let! c := index (coords d) k in
                                 let! x := index c (-1) in Ok (acc ++ [x])) [] = Ok ([] ++ ur)).
    { rewrite <- Lur.
      apply (for_collect_Ok (fun k => let! c := index (coords d) k in index c (-1))).
      - intros k acc. destruct (index (coords d) k); cbn [bind]; [| reflexivity].
        destruct (index _ (-1)); reflexivity.
      - intros i y Hy. destruct (Hur i y Hy) as (c' & Hc' & Hy').
        rewrite (index_nat _ _ _ Hc'). exact Hy'. }
    rewrite R1. cbn [bind]. rewrite R2. reflexivity.
  - intros k b r x y Hb Hr Hx Hy.
    destruct (Hbl k x Hx) as (c' & Hc' & Hx'). destruct (Hur k y Hy) as (c'' & Hc'' & Hy').
    assert (c'' = c') by congruence. subst c''.
    destruct (Haxis k c' Hc') as (b' & r' & x' & y' & Hb' & Hr' & Ex & Ey & Cx & Cy).
    assert (b' = b) by congruence. assert (r' = r) by congruence.
    assert (x' = x) by congruence. assert (y' = y) by congruence. subst. split; assumption.
Qed.

End Bounds.

Section BoundsScenario.

Import Element Domain Mesh Scenes.

Lemma get_bounds_are_cell_centres_witness :
  let d := built (blank (cube []) d3q6 (1 # 2) whole) in
  exists bl ur x y,
    Bounds.get_bounds d = Ok (bl, ur) /\ bl !! 0%nat = Some x /\ ur !! 0%nat = Some y /\
    x == 1 # 4 /\ y == 31 # 4.
Proof.
  intros d.
  assert (C : create_coords (cube []) d3q6 (1 # 2) whole [16; 16; 16]
              = Ok (coords_halo d, coords d)) by by_computation.
  assert (G : dim (geom d) = dim (cube [])) by by_computation.
  clearbody d.
  destruct (get_bounds_are_cell_centres (cube []) d3q6 (1 # 2) whole [16; 16; 16] d C G)
    as (bl & ur & Hb & Lbl & Lur & Hcen).
  { intros k r h Hr Hh Hk. cbn in Hk.
    destruct k as [| [| [| ?]]]; try lia; vm_compute in Hr, Hh;
      injection Hr as <-; injection Hh as <-; cbn [fst snd]; lia. }
  destruct (lookup_lt_is_Some_2 bl 0) as [x Hx]; [rewrite Lbl; cbn; lia |].
  destruct (lookup_lt_is_Some_2 ur 0) as [y Hy]; [rewrite Lur; cbn; lia |].
  exists bl, ur, x, y. repeat (split; [assumption |]).
  destruct (Hcen 0%nat (0, 8) (0%Z, 16%Z) x y eq_refl eq_refl Hx Hy) as [Ex Ey].
  rewrite Ex, Ey. split; reflexivity.
Defined.

End BoundsScenario.

(** ** A sphere that is accepted *)

Section SphereAccepted.

Import Sphere.

Variable Element_init :
  gmap string value -> label_arg -> bool -> result (gmap string value).
Variable str : value -> string.

(** X21. A radius that is not negative, zero included, is accepted: the
    constructor of [Sphere] returns an object that holds the centre and the
    radius given.  The initialiser of the base class, whose code is in
    another file, is supposed to return, to keep [center] and [radius] and
    to set [isfluid]. *)
Theorem sphere_nonnegative_radius_is_built (center : list Q) (radius : Q)
    (label : label_arg) (isfluid : bool) :
  (forall self : gmap string value,
      self !! "number_of_bounds"%string = Some (VInt 1) ->
      exists self',
        Element_init self label isfluid = Ok self' /\
        self' !! "center"%string = self !! "center"%string /\
        self' !! "radius"%string = self !! "radius"%string /\
        is_Some (self' !! "isfluid"%string)) ->
  0 <= radius ->
  exists self,
    __init__ Element_init str center radius label isfluid = Ok self /\
    self !! "center"%string = Some (VVec center) /\
    self !! "radius"%string = Some (VNum radius).
Proof.
  intros Hbase Hr. unfold __init__.
  destruct (Qleb_spec 0 radius) as [_ | H]; [| lra].
  match goal with |- context [Element_init ?self0 label isfluid] =>
    destruct (Hbase self0) as (self' & E & Hc & Hrad & [f Hf]) end.
  { rewrite !lookup_insert_ne by discriminate. apply lookup_insert_eq. }
  rewrite E. cbn [bind].
  rewrite lookup_insert_eq in Hrad.
  rewrite lookup_insert_ne, lookup_insert_eq in Hc by discriminate.
  unfold __str__, getattr. rewrite Hc, Hrad, Hf. cbn [bind].
  exists self'. split; [destruct f as [| | [] | |]; reflexivity |]. split; assumption.
Qed.

End SphereAccepted.

Lemma sphere_nonnegative_radius_is_built_witness :
  exists self,
    Sphere.__init__ Sphere.Element_init Scenes.str [1; 2; 3] 0 (Sphere.LInt 5) true = Ok self /\
    self !! "center"%string = Some (Sphere.VVec [1; 2; 3]) /\
    self !! "radius"%string = Some (Sphere.VNum 0).
Proof.
  apply sphere_nonnegative_radius_is_built.
  - intros self Hn. unfold Sphere.Element_init, Sphere.getattr.
    rewrite lookup_insert_ne, Hn by discriminate. cbn [bind].
    eexists. split; [reflexivity |].
    rewrite !lookup_insert_ne by discriminate.
    split; [reflexivity |]. split; [reflexivity |].
    rewrite lookup_insert_eq. eauto.
  - discriminate.
Defined.

(** ** The sub-grid of an element and its bounding box *)

Lemma trunc_above (q : Q) : q - 1 < inject_Z (trunc q).
Proof.
  destruct q as [n d]. unfold trunc, Qlt, Qminus, Qplus, Qopp, inject_Z. cbn [Qnum Qden].
  destruct (Z.le_gt_cases 0 n) as [Hn | Hn].
  - rewrite Z.quot_div_nonneg by lia.
    pose proof (Z.mul_succ_div_gt n (Zpos d) ltac:(lia)). nia.
  - pose proof (Z.quot_opp_l n (Zpos d) ltac:(lia)) as E.
    rewrite Z.quot_div_nonneg in E by lia.
    pose proof (Z.mul_div_le (- n) (Zpos d) ltac:(lia)). nia.
Qed.

Lemma trunc_below (q : Q) : 0 <= q -> inject_Z (trunc q) <= q.
Proof.
  destruct q as [n d]. unfold trunc, Qle, inject_Z. cbn [Qnum Qden]. intros Hq.
  assert (Hn : (0 <= n)%Z) by lia.
  rewrite Z.quot_div_nonneg by lia.
  pose proof (Z.mul_div_le n (Zpos d) ltac:(lia)). nia.
Qed.

Lemma trunc_nonneg (q : Q) : 0 <= q -> (0 <= trunc q)%Z.
Proof.
  intros Hq. apply le_trunc; [exact Hq | lia].
Qed.

Section Subgrid.

Import Element Domain PhaseA PhaseB Mesh Scenes.

Variable d : Domain.
Variable e : Element.
Variables nmin nmax : list Z.

Hypothesis Hsliced : sliced d.
Hypothesis Huniform : uniform d.
Hypothesis Hdx : 0 < dx d.
Hypothesis Hvmax : Forall (fun h => 0 <= h)%Z (vmax (stencil d)).
Hypothesis Hbox : elem_box d e = Ok (nmin, nmax).

(** What [__add_elem] computes on one axis: the first node [x0], the
    width [h] of the halo, the bounds [bl] and [ur] of the element and the
    two bounds of the slice. *)
Lemma subgrid_axis (i : nat) :
  (i < dim (geom d))%nat ->
  exists c h bl ur x0,
    coords_halo d !! i = Some c /\ c !! 0%nat = Some x0 /\
    vmax (stencil d) !! i = Some h /\ (0 <= h)%Z /\
    fst (get_bounds e) !! i = Some bl /\ snd (get_bounds e) !! i = Some ur /\
    nmin !! i = Some (Z.max h (trunc ((bl - x0) / dx d) - h)) /\
    nmax !! i = Some (Z.min (h + Z.of_nat (length (slice c h (- h))))
                            (trunc ((ur - x0) / dx d) + h + 1)).
Proof.
  intros Hi. destruct Hsliced as (Hc & Hlen & Hv).
  destruct (elem_box_axis d e nmin nmax Hbox) as (pbl & pur & Eh & Hax).
  destruct (Hax i Hi) as (h & m & bl & ur & p0 & Hh & Hm & Hbl & Hur & Hp0 & Ea & Eb).
  destruct (lookup_lt_is_Some_2 (coords_halo d) i) as [c Hci]; [lia |].
  destruct (get_bounds_halo_lookup d pbl pur i c Eh Hi Hci) as (x0 & Hx0 & Hp0').
  assert (p0 = x0) by congruence. subst p0.
  assert (Hm' : shape_in d !! i = Some (Z.of_nat (length (slice c h (- h))))).
  { unfold shape_in. rewrite Hc, list_lookup_fmap, lookup_zip_with, Hci, Hh. reflexivity. }
  assert (m = Z.of_nat (length (slice c h (- h)))) by congruence. subst m.
  exists c, h, bl, ur, x0. repeat (split; [assumption |]).
  split; [| repeat split; assumption].
  rewrite Forall_forall in Hvmax. eapply Hvmax, list_elem_of_lookup_2, Hh.
Qed.

(** The coordinate of a node of the grid on one axis. *)
Lemma point_axis (n : list Z) (i : nat) (c : list Q) (x : Z) (x0 : Q) :
  coords_halo d !! i = Some c -> c !! 0%nat = Some x0 -> n !! i = Some x ->
  (0 <= x < Z.of_nat (length c))%Z ->
  nth i (point d n) 0 == x0 + dx d * inject_Z x.
Proof.
  intros Hci Hx0 Hx Hr.
  destruct (lookup_lt_is_Some_2 c (Z.to_nat x)) as [xc Hxc]; [lia |].
  assert (Hpt : point d n !! i = Some xc).
  { unfold point. rewrite lookup_zip_with, Hci, Hx. cbn. f_equal.
    apply nth_lookup_Some with (d := 0) in Hxc. exact Hxc. }
  apply nth_lookup_Some with (d := 0) in Hpt. rewrite Hpt.
  pose proof (Huniform i c (Z.to_nat x) x0 xc Hci Hx0 Hxc) as Hxc'.
  rewrite Z2Nat.id in Hxc' by lia. exact Hxc'.
Qed.

Hypothesis Haligned : aligned d nmin nmax (zeros d) = true.

(** The reading of [widened] on one axis. *)
Lemma widened_axis (lower upper : Z) (n : list Z) (i : nat) :
  widened d e lower upper n = true ->
  (i < dim (geom d))%nat ->
  nth i (fst (get_bounds e)) 0 - dx d * inject_Z (nth i (vmax (stencil d)) 0%Z + lower)
    <= nth i (point d n) 0 /\
  nth i (point d n) 0
    <= nth i (snd (get_bounds e)) 0 + dx d * inject_Z (nth i (vmax (stencil d)) 0%Z + upper).
Proof.
  unfold widened. rewrite forallb_forall. intros H Hi.
  specialize (H i). rewrite in_seq in H. specialize (H ltac:(lia)).
  apply andb_true_iff in H. destruct H as [H1 H2].
  destruct (Qleb_spec (nth i (fst (get_bounds e)) 0
              - dx d * inject_Z (nth i (vmax (stencil d)) 0%Z + lower)) (nth i (point d n) 0));
    [| discriminate].
  destruct (Qleb_spec (nth i (point d n) 0)
              (nth i (snd (get_bounds e)) 0
               + dx d * inject_Z (nth i (vmax (stencil d)) 0%Z + upper)));
    [| discriminate].
  split; assumption.
Qed.

(** The bounds of a node of the sub-grid on one axis. *)
Lemma region_axis (n : list Z) :
  in_box (region d nmin nmax) n = true ->
  length n = dim (geom d) /\
  forall i x c a b,
    n !! i = Some x -> coords_halo d !! i = Some c ->
    nmin !! i = Some a -> nmax !! i = Some b ->
    (a <= x < b)%Z /\ (0 <= x < Z.of_nat (length c))%Z.
Proof.
  destruct Hsliced as (Hc & Hlen & Hv).
  rewrite (region_clipped d e nmin nmax Hbox Haligned Hlen), andb_true_iff, !in_box_lookup.
  destruct (elem_box_length d e nmin nmax Hbox) as (L1 & L2).
  intros [[Hl1 H1] [Hl2 H2]].
  assert (Hn : length n = dim (geom d)).
  { rewrite <- Hl1, length_zip_with. lia. }
  split; [exact Hn |].
  intros i x c a b Hx Hci Ha Hb. split.
  - refine (H1 i (a, b) x _ Hx). rewrite lookup_zip_with, Ha, Hb. reflexivity.
  - refine (H2 i (0%Z, Z.of_nat (length c)) x _ Hx).
    unfold halo_grid, shape_halo. rewrite !list_lookup_fmap, Hci. reflexivity.
Qed.

(** The sub-grid holds every node without halo that lies in the bounding
    box of the element expanded by [vmax] steps. *)
Lemma expanded_in_region (n : list Z) :
  in_box (phys_domain d) n = true ->
  widened d e 0 0 n = true ->
  in_box (region d nmin nmax) n = true.
Proof.
  intros Hn Hw.
  destruct Hsliced as (Hc & Hlen & Hv).
  rewrite (region_clipped d e nmin nmax Hbox Haligned Hlen), andb_true_iff, !in_box_lookup.
  destruct (elem_box_length d e nmin nmax Hbox) as (L1 & L2).
  apply in_box_lookup in Hn. destruct Hn as [Hln Hn].
  assert (Hdim : length n = dim (geom d)).
  { rewrite <- Hln. unfold phys_domain, shape_halo. rewrite length_zip_with, length_map. lia. }
  assert (Haxis : forall i x, n !! i = Some x ->
            exists c a b, coords_halo d !! i = Some c /\
              nmin !! i = Some a /\ nmax !! i = Some b /\
              (0 <= x < Z.of_nat (length c))%Z /\ (a <= x < b)%Z).
  { intros i x Hx. assert (Hi : (i < dim (geom d))%nat).
    { rewrite <- Hdim. eapply lookup_lt_Some, Hx. }
    destruct (subgrid_axis i Hi) as (c & h & bl & ur & x0 & Hci & Hx0 & Hh & Hh0 & Hbl & Hur & Ea & Eb).
    exists c. do 2 eexists. repeat (split; [eassumption |]).
    assert (Hphys : phys_domain d !! i = Some (slice_bounds (Z.of_nat (length c)) h (- h))).
    { unfold phys_domain, shape_halo. rewrite lookup_zip_with, list_lookup_fmap, Hci, Hh.
      reflexivity. }
    specialize (Hn i _ x Hphys Hx).
    assert (Hrange : (h <= x < Z.of_nat (length c) - h)%Z /\ (0 < h)%Z).
    { revert Hn. unfold slice_bounds, clamp. cbn [fst snd].
      destruct (Z.ltb_spec h 0), (Z.ltb_spec (- h) 0); lia. }
    destruct Hrange as [Hrange Hpos].
    split; [lia |].
    rewrite slice_halo_length by exact Hpos.
    pose proof (point_axis n i c x x0 Hci Hx0 Hx ltac:(lia)) as Hp.
    destruct (widened_axis 0 0 n i Hw Hi) as [W1 W2].
    rewrite (nth_lookup_Some _ _ 0 _ Hbl), (nth_lookup_Some _ _ 0%Z _ Hh), Hp in W1.
    rewrite (nth_lookup_Some _ _ 0 _ Hur), (nth_lookup_Some _ _ 0%Z _ Hh), Hp in W2.
    rewrite Z.add_0_r in W1, W2.
    assert (Q1 : (bl - x0) / dx d <= inject_Z (x + h)).
    { apply Qle_shift_div_r; [exact Hdx |]. rewrite inject_Z_plus. lra. }
    assert (Q2 : inject_Z (x - h) <= (ur - x0) / dx d).
    { apply Qle_shift_div_l; [exact Hdx |].
      unfold Z.sub. rewrite inject_Z_plus, inject_Z_opp. lra. }
    apply trunc_le in Q1; [| lia]. apply le_trunc in Q2; [| lia]. lia. }
  split; split.
  - rewrite length_zip_with. lia.
  - intros i b x Hb' Hx. destruct (Haxis i x Hx) as (c & a & b' & _ & Ea & Eb & _ & Hab).
    rewrite lookup_zip_with, Ea, Eb in Hb'. cbn in Hb'. injection Hb' as <-. exact Hab.
  - unfold halo_grid, shape_halo. rewrite !length_map. lia.
  - intros i b x Hb' Hx. destruct (Haxis i x Hx) as (c & a & b' & Hci & _ & _ & Hx0 & _).
    unfold halo_grid, shape_halo in Hb'. rewrite !list_lookup_fmap, Hci in Hb'.
    cbn in Hb'. injection Hb' as <-. exact Hx0.
Qed.

Hypothesis Hreach : reaches_grid d e = true.

(** A node of the sub-grid lies in the bounding box of the element
    expanded by [vmax] steps above and by one step more below. *)
Lemma region_in_expanded (n : list Z) :
  in_box (region d nmin nmax) n = true ->
  widened d e 1 0 n = true.
Proof.
  intros Hr. destruct (region_axis n Hr) as [Hdim Hax].
  unfold widened. rewrite forallb_forall. intros i Hi. rewrite in_seq in Hi.
  assert (Hi' : (i < dim (geom d))%nat) by lia.
  destruct (subgrid_axis i Hi') as (c & h & bl & ur & x0 & Hci & Hx0 & Hh & Hh0 & Hbl & Hur & Ea & Eb).
  destruct (lookup_lt_is_Some_2 n i) as [x Hx]; [lia |].
  destruct (Hax i x c _ _ Hx Hci Ea Eb) as [Hab Hxc].
  pose proof (point_axis n i c x x0 Hci Hx0 Hx Hxc) as Hp.
  rewrite (nth_lookup_Some _ _ 0 _ Hbl), (nth_lookup_Some _ _ 0 _ Hur),
    (nth_lookup_Some _ _ 0%Z _ Hh).
  assert (Hq : 0 <= (ur - x0) / dx d).
  { unfold reaches_grid in Hreach. rewrite forallb_forall in Hreach.
    specialize (Hreach i). rewrite in_seq in Hreach. specialize (Hreach ltac:(lia)).
    rewrite (nth_lookup_Some _ _ [] _ Hci), (nth_lookup_Some _ _ 0 _ Hx0),
      (nth_lookup_Some _ _ 0 _ Hur) in Hreach.
    destruct (Qleb_spec x0 ur) as [Hle |]; [| discriminate].
    apply Qle_shift_div_l; [exact Hdx | lra]. }
  pose proof (trunc_below _ Hq) as T2.
  pose proof (trunc_above ((bl - x0) / dx d)) as T1.
  set (ta := trunc ((bl - x0) / dx d)) in *. set (tb := trunc ((ur - x0) / dx d)) in *.
  assert (X1 : inject_Z ta <= inject_Z (x + h)) by (rewrite <- Zle_Qle; lia).
  assert (X2 : inject_Z (x - h) <= inject_Z tb) by (rewrite <- Zle_Qle; lia).
  rewrite inject_Z_plus in X1. unfold Z.sub in X2. rewrite inject_Z_plus, inject_Z_opp in X2.
  assert (B1 : (bl - x0) / dx d - 1 < inject_Z x + inject_Z h) by lra.
  assert (B2 : inject_Z x - inject_Z h <= (ur - x0) / dx d) by lra.
  assert (C1 : bl - x0 < (inject_Z x + inject_Z h + 1) * dx d).
  { apply (Qmult_lt_r _ _ (dx d) Hdx) in B1.
    setoid_replace (((bl - x0) / dx d - 1) * dx d) with (bl - x0 - dx d) using relation Qeq in B1
      by (field; lra).
    lra. }
  assert (C2 : (inject_Z x - inject_Z h) * dx d <= ur - x0).
  { apply (Qmult_le_r _ _ (dx d) Hdx) in B2.
    setoid_replace ((ur - x0) / dx d * dx d) with (ur - x0) using relation Qeq in B2
      by (field; lra).
    exact B2. }
  rewrite !inject_Z_plus.
  apply andb_true_iff. split.
  - destruct (Qleb_spec (bl - dx d * (inject_Z h + inject_Z 1)) (nth i (point d n) 0)) as [| Hn];
      [reflexivity |]. exfalso. rewrite Hp in Hn. change (inject_Z 1) with 1 in Hn. lra.
  - destruct (Qleb_spec (nth i (point d n) 0) (ur + dx d * (inject_Z h + inject_Z 0))) as [| Hn];
      [reflexivity |]. exfalso. rewrite Hp in Hn. change (inject_Z 0) with 0 in Hn. lra.
Qed.

End Subgrid.

(** ** The views of [__add_elem] line up *)

Lemma slice_halo_size {A} (c : list A) (h : Z) :
  (0 <= h)%Z ->
  length (slice c h (- h)) = 0%nat \/
  (Z.of_nat (length (slice c h (- h))) = Z.of_nat (length c) - 2 * h)%Z.
Proof.
  intros Hh. unfold slice, slice_bounds, clamp.
  rewrite length_take, length_drop.
  destruct (Z.ltb_spec h 0), (Z.ltb_spec (- h) 0); lia.
Qed.

Lemma shifted_view_size (len h m a b c : Z) :
  (0 <= len)%Z -> (0 <= h <= a)%Z -> (h <= b <= h + m)%Z -> (Z.abs c <= h)%Z ->
  (m = 0 \/ m = len - 2 * h)%Z ->
  (0 <= a + c)%Z /\ (0 <= b + c)%Z /\
  (Z.max (snd (slice_bounds len a b) - fst (slice_bounds len a b)) 0
   = Z.max (snd (slice_bounds len (a + c) (b + c)) - fst (slice_bounds len (a + c) (b + c))) 0)%Z.
Proof.
  intros Hlen Ha Hb Hc Hm. unfold slice_bounds, clamp. cbn [fst snd].
  destruct (Z.ltb_spec a 0), (Z.ltb_spec b 0), (Z.ltb_spec (a + c) 0), (Z.ltb_spec (b + c) 0);
    lia.
Qed.

Section Alignment.

Import Element Domain PhaseA PhaseB Mesh Scenes.

Variable d : Domain.
Variable e : Element.
Variables nmin nmax : list Z.

Hypothesis Hsliced : sliced d.
Hypothesis Hdx : 0 < dx d.
Hypothesis Hvmax : Forall (fun h => 0 <= h)%Z (vmax (stencil d)).
Hypothesis Hbox : elem_box d e = Ok (nmin, nmax).
Hypothesis Hreach : reaches_grid d e = true.

Lemma subgrid_bounds (i : nat) (a b : Z) :
  nmin !! i = Some a -> nmax !! i = Some b ->
  exists c h,
    coords_halo d !! i = Some c /\ vmax (stencil d) !! i = Some h /\
    (0 <= h <= a)%Z /\ (h <= b <= h + Z.of_nat (length (slice c h (- h))))%Z.
Proof.
  intros Ha Hb. destruct (elem_box_length d e nmin nmax Hbox) as (L1 & L2).
  assert (Hi : (i < dim (geom d))%nat) by (rewrite <- L1; eapply lookup_lt_Some, Ha).
  destruct (subgrid_axis d e nmin nmax Hsliced Hvmax Hbox i Hi)
    as (c & h & bl & ur & x0 & Hci & Hx0 & Hh & Hh0 & Hbl & Hur & Ea & Eb).
  exists c, h. split; [exact Hci |]. split; [exact Hh |].
  assert (Hq : 0 <= (ur - x0) / dx d).
  { unfold reaches_grid in Hreach. rewrite forallb_forall in Hreach.
    specialize (Hreach i). rewrite in_seq in Hreach. specialize (Hreach ltac:(lia)).
    rewrite (nth_lookup_Some _ _ [] _ Hci), (nth_lookup_Some _ _ 0 _ Hx0),
      (nth_lookup_Some _ _ 0 _ Hur) in Hreach.
    destruct (Qleb_spec x0 ur) as [Hle |]; [| discriminate].
    apply Qle_shift_div_l; [exact Hdx | lra]. }
  apply trunc_nonneg in Hq.
  rewrite Ha in Ea. rewrite Hb in Eb. injection Ea as ->. injection Eb as ->. lia.
Qed.

(** When the upper bounds of the element are not below the first node of
    the grid and the velocity does not exceed [vmax], no bound of the
    slices of [__add_elem] is negative and the view shifted by the velocity
    has the shape of the view of the element: NumPy neither counts from the
    end of an axis nor broadcasts. *)
Lemma views_line_up (vk : list Z) :
  (forall i c h, vk !! i = Some c -> vmax (stencil d) !! i = Some h -> (Z.abs c <= h)%Z) ->
  aligned d nmin nmax vk = true.
Proof.
  intros Hvk. unfold aligned. apply andb_true_iff. split.
  - rewrite forallb_forall. intros x Hx. apply Z.leb_le.
    apply in_app_or in Hx. destruct Hx as [Hx | Hx];
      [| apply in_app_or in Hx; destruct Hx as [Hx | Hx];
         [| apply in_app_or in Hx; destruct Hx as [Hx | Hx]]].
    + apply list_elem_of_In, list_elem_of_lookup_1 in Hx. destruct Hx as [i Ha].
      destruct (elem_box_length d e nmin nmax Hbox) as (L1 & L2).
      destruct (lookup_lt_is_Some_2 nmax i) as [b Hb];
        [rewrite L2, <- L1; eapply lookup_lt_Some, Ha |].
      destruct (subgrid_bounds i x b Ha Hb) as (c & h & _ & _ & H1 & H2). lia.
    + apply list_elem_of_In, list_elem_of_lookup_1 in Hx. destruct Hx as [i Hb].
      destruct (elem_box_length d e nmin nmax Hbox) as (L1 & L2).
      destruct (lookup_lt_is_Some_2 nmin i) as [a Ha];
        [rewrite L1, <- L2; eapply lookup_lt_Some, Hb |].
      destruct (subgrid_bounds i a x Ha Hb) as (c & h & _ & _ & H1 & H2). lia.
    + apply list_elem_of_In, elem_of_lookup_zip_with_1 in Hx.
      destruct Hx as (i & a & c & -> & Ha & Hc).
      destruct (elem_box_length d e nmin nmax Hbox) as (L1 & L2).
      destruct (lookup_lt_is_Some_2 nmax i) as [b Hb];
        [rewrite L2, <- L1; eapply lookup_lt_Some, Ha |].
      destruct (subgrid_bounds i a b Ha Hb) as (cs & h & _ & Hh & H1 & H2).
      pose proof (Hvk i c h Hc Hh). lia.
    + apply list_elem_of_In, elem_of_lookup_zip_with_1 in Hx.
      destruct Hx as (i & b & c & -> & Hb & Hc).
      destruct (elem_box_length d e nmin nmax Hbox) as (L1 & L2).
      destruct (lookup_lt_is_Some_2 nmin i) as [a Ha];
        [rewrite L1, <- L2; eapply lookup_lt_Some, Hb |].
      destruct (subgrid_bounds i a b Ha Hb) as (cs & h & _ & Hh & H1 & H2).
      pose proof (Hvk i c h Hc Hh). lia.
  - rewrite forallb_forall. intros [b1 b2] Hx. apply Z.eqb_eq.
    apply list_elem_of_In, elem_of_lookup_zip_with_1 in Hx.
    destruct Hx as (i & x & y & Exy & H1 & H2). injection Exy as -> ->.
    unfold view_box in H1, H2.
    apply lookup_zip_with_Some in H1. destruct H1 as (len & ab & -> & Hlen & Hab).
    apply lookup_zip_with_Some in H2. destruct H2 as (len' & ab' & -> & Hlen' & Hab').
    assert (len' = len) by congruence. subst len'.
    apply lookup_zip_with_Some in Hab. destruct Hab as ([a b] & z & -> & Hzip & Hz).
    apply lookup_zip_with_Some in Hab'. destruct Hab' as ([a' b'] & c & -> & Hzip' & Hc).
    assert (a' = a /\ b' = b) as [-> ->] by (split; congruence).
    apply lookup_zip_with_Some in Hzip. destruct Hzip as (a0 & b0 & E & Ha & Hb).
    injection E as <- <-.
    assert (z = 0%Z).
    { unfold zeros in Hz. apply lookup_replicate in Hz. tauto. }
    subst z. cbn [fst snd]. rewrite !Z.add_0_r.
    destruct (subgrid_bounds i a b Ha Hb) as (cs & h & Hci & Hh & B1 & B2).
    unfold shape_halo in Hlen. rewrite list_lookup_fmap, Hci in Hlen. injection Hlen as <-.
    pose proof (Hvk i c h Hc Hh) as Hch.
    refine (proj2 (proj2 (shifted_view_size (Z.of_nat (length cs)) h
              (Z.of_nat (length (slice cs h (- h)))) a b c _ B1 B2 Hch _))); [lia |].
    destruct (slice_halo_size cs h ltac:(lia)) as [E | E]; [left; lia | right; exact E].
Qed.

End Alignment.

(** ** The neighbour test of [__add_elem] *)

Lemma for_returns {A S} (l : list A) (body : A -> S -> result S) (s s' : S) (i : nat) (x : A) :
  for_ l body s = Ok s' -> l !! i = Some x -> exists t t', body x t = Ok t'.
Proof.
  revert s i. induction l as [| y l IH]; intros s i; cbn [for_]; [discriminate |].
  destruct (body y s) as [t |] eqn:E; cbn [bind]; [| discriminate].
  intros H Hi. destruct i as [| i]; cbn in Hi.
  - injection Hi as <-. eauto.
  - eapply IH; eauto.
Qed.

Section Neighbours.

Import Element Domain PhaseA PhaseB Mesh Scenes.

Variable d : Domain.
Variable e : Element.
Variables nmin nmax : list Z.

(** A velocity that moves and whose turn of the loop returns has a
    component for every axis, and its views line up. *)
Lemma sweep_aligned (k : nat) (vk : list Z) df df' :
  sweep d e nmin nmax k df = Ok df' ->
  unique_velocities (stencil d) !! k = Some vk -> nonzero vk = true ->
  (dim (geom d) <= length vk)%nat /\ aligned d nmin nmax vk = true.
Proof.
  unfold sweep. destruct df as [dist flg]. intros H Hk Hnz.
  rewrite (index_nat _ _ _ Hk) in H. cbn [bind] in H. rewrite Hnz in H.
  destruct (Nat.ltb_spec (length vk) (dim (geom d))); [discriminate |].
  destruct (aligned d nmin nmax vk); [| discriminate]. split; [assumption | reflexivity].
Qed.

Hypothesis Hbox : elem_box d e = Ok (nmin, nmax).

(** The node read through the shifted view at the place of a node of the
    sub-grid is the node one velocity further. *)
Lemma neighbour_is_shift (vk n : list Z) :
  (dim (geom d) <= length vk)%nat ->
  aligned d nmin nmax vk = true ->
  in_box (region d nmin nmax) n = true ->
  neighbour d nmin nmax vk n = zip_with Z.add n vk.
Proof.
  intros Hlen Ha Hn. destruct (elem_box_length d e nmin nmax Hbox) as (L1 & L2).
  apply in_box_lookup in Hn. destruct Hn as [Hl Hn].
  unfold aligned in Ha. apply andb_true_iff in Ha. destruct Ha as [Hpos Hsize].
  rewrite forallb_forall in Hpos. rewrite forallb_forall in Hsize.
  unfold neighbour. apply list_eq. intros i. rewrite !lookup_zip_with.
  destruct (n !! i) as [x |] eqn:Hx; cbn [mbind option_bind]; [| reflexivity].
  pose proof (lookup_lt_Some _ _ _ Hx) as Hi.
  destruct (lookup_lt_is_Some_2 (region d nmin nmax) i) as [b1 Hb1]; [lia |].
  pose proof (Hn i b1 x Hb1 Hx) as Hx1.
  unfold region, view_box in Hb1. fold (view_box d nmin nmax (zeros d)) in Hb1.
  pose proof Hb1 as Hb1'. unfold view_box in Hb1'.
  apply lookup_zip_with_Some in Hb1'. destruct Hb1' as (len & ab & -> & Hlen' & Hab).
  apply lookup_zip_with_Some in Hab. destruct Hab as ([a b] & z & -> & Hzip & Hz).
  apply lookup_zip_with_Some in Hzip. destruct Hzip as (a0 & b0 & E & Ha0 & Hb0).
  injection E as <- <-.
  assert (z = 0%Z) by (unfold zeros in Hz; apply lookup_replicate in Hz; tauto). subst z.
  assert (Hi' : (i < dim (geom d))%nat) by (rewrite <- L1; eapply lookup_lt_Some, Ha0).
  destruct (lookup_lt_is_Some_2 vk i) as [c Hc]; [lia |].
  assert (Hb2 : view_box d nmin nmax vk !! i
                = Some (slice_bounds len (a + c) (b + c))).
  { unfold view_box. rewrite !lookup_zip_with, Hlen', Ha0, Hb0, Hc. reflexivity. }
  rewrite Hb1, Hb2, Hc. cbn [mbind option_bind fst snd]. f_equal.
  assert (P1 : (0 <= a)%Z).
  { apply Z.leb_le, Hpos, in_or_app. left. eapply list_elem_of_In, list_elem_of_lookup_2, Ha0. }
  assert (P2 : (0 <= b)%Z).
  { apply Z.leb_le, Hpos, in_or_app. right. apply in_or_app. left.
    eapply list_elem_of_In, list_elem_of_lookup_2, Hb0. }
  assert (P3 : (0 <= a + c)%Z).
  { apply Z.leb_le, Hpos, in_or_app. right. apply in_or_app. right. apply in_or_app. left.
    apply list_elem_of_In. eapply (elem_of_lookup_zip_with_2 Z.add); eauto. }
  assert (P4 : (0 <= b + c)%Z).
  { apply Z.leb_le, Hpos, in_or_app. right. apply in_or_app. right. apply in_or_app. right.
    apply list_elem_of_In. eapply (elem_of_lookup_zip_with_2 Z.add); eauto. }
  assert (S1 : (Z.max (snd (slice_bounds len (a + 0) (b + 0)) - fst (slice_bounds len (a + 0) (b + 0))) 0
                =? Z.max (snd (slice_bounds len (a + c) (b + c))
                          - fst (slice_bounds len (a + c) (b + c))) 0)%Z = true).
  { apply (Hsize (slice_bounds len (a + 0) (b + 0), slice_bounds len (a + c) (b + c))).
    apply list_elem_of_In. eapply list_elem_of_lookup_2 with (i := i).
    rewrite lookup_zip_with, Hb1, Hb2. reflexivity. }
  apply Z.eqb_eq in S1. revert S1 Hx1.
  unfold slice_bounds, clamp. cbn [fst snd]. rewrite !Z.add_0_r.
  destruct (Z.ltb_spec a 0), (Z.ltb_spec b 0), (Z.ltb_spec (a + c) 0), (Z.ltb_spec (b + c) 0);
    lia.
Qed.

End Neighbours.

Section NeighbourTest.

Import Element Domain PhaseA PhaseB Mesh Scenes.

(** The test [out_cells] of a turn of the loop that returns reads the
    occupancy, once the element is written into it, one velocity away. *)
Lemma out_cells_reads_neighbour (d d' : Domain) (e : Element) (nmin nmax : list Z)
    (k : nat) (vk n : list Z) :
  add_elem d e = Ok d' ->
  elem_box d e = Ok (nmin, nmax) ->
  unique_velocities (stencil d) !! k = Some vk -> nonzero vk = true ->
  in_box (region d nmin nmax) n = true ->
  out_cells d e nmin nmax vk n = (in_or_out d' (zip_with Z.add n vk) =? valout).
Proof.
  intros H Hb Hk Hnz Hn.
  destruct (add_elem_spec d e d' H) as (lo & hi & Hb' & _ & Hioo & _ & _ & _ & _ & _ & Hrun).
  rewrite Hb in Hb'. injection Hb' as <- <-.
  pose proof (lookup_lt_Some _ _ _ Hk) as Hlt.
  destruct (for_returns _ _ _ _ k k Hrun) as (t & t' & Ht).
  { rewrite lookup_seq_lt by exact Hlt. reflexivity. }
  destruct (sweep_aligned d e nmin nmax k vk t t' Ht Hk Hnz) as [Hlen Ha].
  unfold out_cells. rewrite Hioo.
  rewrite (neighbour_is_shift d e nmin nmax Hb vk n Hlen Ha Hn). reflexivity.
Qed.

End NeighbourTest.

(** ** The mesh at the stages of the construction *)

Section Stages.

Import Element Domain PhaseA PhaseB Mesh Scenes Construction.

Lemma add_elems_frame (l : list Element) (da d : Domain) :
  for_ l (fun elem d => add_elem d elem) da = Ok d ->
  geom d = geom da /\ stencil d = stencil da /\ dx d = dx da /\
  coords_halo d = coords_halo da /\ coords d = coords da.
Proof.
  revert da. induction l as [| e l IH]; intros da H; cbn [for_] in H.
  - injection H as <-. repeat split.
  - destruct (add_elem da e) as [db |] eqn:Eb; cbn [bind] in H; [| discriminate].
    destruct (add_elem_frame _ _ _ Eb) as (Fg & Fs & Fx & Fh & Fc & _).
    destruct (IH db H) as (Gg & Gs & Gx & Gh & Gc).
    repeat split; congruence.
Qed.

Variable g : Geometry.
Variable s : Stencil.
Variable space_step : Q.
Variable get_region : list Q -> list (Z * Z).

Lemma stage_mesh (n : nat) (d : Domain) :
  stage g s space_step get_region n = Ok d ->
  sliced d /\ uniform d /\ geom d = g /\ stencil d = s /\ dx d = space_step.
Proof.
  unfold stage.
  destruct (blank g s space_step get_region) as [d0 |] eqn:H0; cbn [bind]; [| discriminate].
  destruct (add_init d0 (box_label d0)) as [da |] eqn:Ha; cbn [bind]; [| discriminate].
  intros Hl.
  destruct (blank_spec _ _ _ _ _ H0) as (Eg & Es & Ex & _).
  destruct (add_init_frame _ _ _ Ha) as (Fg & Fs & Fx & Fh & Fc & _).
  destruct (add_init_schedule _ _ _ Ha) as (_ & _ & Hv).
  destruct (add_elems_frame _ _ _ Hl) as (Gg & Gs & Gx & Gh & Gc).
  split; [| split; [| repeat split; congruence]].
  - apply (sliced_frame d0); try congruence.
    apply (sliced_blank g s space_step get_region); [assumption |].
    rewrite <- Es, <- Eg. exact Hv.
  - apply (uniform_frame d0); try congruence.
    apply (uniform_blank g s space_step get_region). exact H0.
Qed.


Lemma within_vmax_lookup (vk : list Z) (i : nat) (c h : Z) :
  within_vmax s = true -> In vk (unique_velocities s) ->
  vk !! i = Some c -> vmax s !! i = Some h -> (Z.abs c <= h)%Z.
Proof.
  unfold within_vmax. rewrite forallb_forall. intros H Hin Hc Hh.
  specialize (H vk Hin). rewrite forallb_forall in H.
  specialize (H i). rewrite in_seq in H.
  pose proof (lookup_lt_Some _ _ _ Hh).
  specialize (H ltac:(lia)).
  rewrite (nth_lookup_Some _ _ 0%Z _ Hc), (nth_lookup_Some _ _ 0%Z _ Hh) in H.
  apply Z.leb_le in H. exact H.
Qed.

(** C6, amended. Let an element be applied at a stage of the construction
    of a domain whose space step is positive and whose stencil has
    non-negative halo widths [vmax] that no velocity exceeds, the upper
    bounds of the element being not below the first node of the grid.  The
    sub-grid that [__add_elem] takes for the element lies between two
    boxes: it holds every node without halo of the bounding box of the
    element expanded by [vmax] space steps per axis, and it holds only
    nodes without halo of the bounding box expanded by [vmax] steps above
    and [vmax + 1] steps below.  Outside the latter, and on the halo, the
    element changes neither the occupancy nor any distance or flag.  For
    every velocity of the stencil the view shifted by the velocity has its
    bounds on the grid and the shape of the sub-grid, and what is read
    through it for a node of the sub-grid is the occupancy of the node one
    velocity further, which may lie outside the sub-grid and on the halo. *)
Theorem element_subgrid_between_expanded_boxes
    (m : nat) (d d' : Domain) (e : Element) :
  0 < space_step ->
  Forall (fun h => 0 <= h)%Z (vmax s) ->
  within_vmax s = true ->
  stage g s space_step get_region m = Ok d ->
  reaches_grid d e = true ->
  add_elem d e = Ok d' ->
  exists nmin nmax,
    elem_box d e = Ok (nmin, nmax) /\
    (forall n, in_box (phys_domain d) n && widened d e 0 0 n = true ->
               in_box (region d nmin nmax) n = true) /\
    (forall n, in_box (region d nmin nmax) n = true ->
               in_box (phys_domain d) n && widened d e 1 0 n = true) /\
    (forall n, in_box (phys_domain d) n && widened d e 1 0 n = false -> untouched d d' n) /\
    (forall vk, In vk (unique_velocities s) -> aligned d nmin nmax vk = true) /\
    (forall k vk n,
        unique_velocities s !! k = Some vk -> nonzero vk = true ->
        in_box (region d nmin nmax) n = true ->
        out_cells d e nmin nmax vk n = (in_or_out d' (zip_with Z.add n vk) =? valout)).
Proof.
  intros Hdx Hv Hw Hst Hreach H.
  destruct (stage_mesh m d Hst) as (Hsl & Hu & Eg & Es & Ex).
  destruct (add_elem_frame _ _ _ H) as (_ & _ & _ & _ & _ & nmin & nmax & Hb & Ha & _ & Hout).
  rewrite <- Ex in Hdx. rewrite <- Es in Hv.
  assert (Hup : forall n, in_box (region d nmin nmax) n = true ->
                  in_box (phys_domain d) n && widened d e 1 0 n = true).
  { intros n Hr. apply andb_true_iff. split.
    - destruct Hsl as (Hc & Hlen & Hvl).
      apply (region_in_phys d e nmin nmax Hb Ha Hlen (conj Hc (conj Hlen Hvl)) n Hr).
    - apply (region_in_expanded d e nmin nmax Hsl Hu Hdx Hv Hb Ha Hreach n Hr). }
  exists nmin, nmax. split; [exact Hb |]. split; [| split; [exact Hup |]; split; [| split]].
  - intros n Hn. apply andb_true_iff in Hn. destruct Hn as [Hn Hwn].
    apply (expanded_in_region d e nmin nmax Hsl Hu Hdx Hv Hb Ha n Hn Hwn).
  - intros n Hn. apply Hout.
    destruct (in_box (region d nmin nmax) n) eqn:Hr; [| reflexivity].
    rewrite (Hup n Hr) in Hn. discriminate.
  - intros vk Hvk. apply (views_line_up d e nmin nmax Hsl Hdx Hv Hb Hreach).
    intros i c h Hc Hh. rewrite Es in Hh. exact (within_vmax_lookup vk i c h Hw Hvk Hc Hh).
  - intros k vk n Hk Hnz Hn. rewrite <- Es in Hk.
    exact (out_cells_reads_neighbour d d' e nmin nmax k vk n H Hb Hk Hnz Hn).
Qed.

End Stages.

Section SubgridScenario.

Import Element Domain PhaseA PhaseB Mesh Scenes Construction.

Lemma element_subgrid_between_expanded_boxes_witness :
  let d0 := built (stage (cube []) d3q6 1 whole 0) in
  let d' := built (add_elem d0 bubble) in
  exists nmin nmax,
    elem_box d0 bubble = Ok (nmin, nmax) /\
    (forall n, in_box (phys_domain d0) n && widened d0 bubble 0 0 n = true ->
               in_box (region d0 nmin nmax) n = true) /\
    (forall n, in_box (region d0 nmin nmax) n = true ->
               in_box (phys_domain d0) n && widened d0 bubble 1 0 n = true) /\
    (forall n, in_box (phys_domain d0) n && widened d0 bubble 1 0 n = false ->
               untouched d0 d' n) /\
    (forall vk, In vk (unique_velocities d3q6) -> aligned d0 nmin nmax vk = true) /\
    (forall k vk n,
        unique_velocities d3q6 !! k = Some vk -> nonzero vk = true ->
        in_box (region d0 nmin nmax) n = true ->
        out_cells d0 bubble nmin nmax vk n = (in_or_out d' (zip_with Z.add n vk) =? valout)).
Proof.
  intros d0 d'.
  assert (S : stage (cube []) d3q6 1 whole 0 = Ok d0)
    by exact (built_succeeds (stage (cube []) d3q6 1 whole 0) ltac:(by_computation)).
  assert (H : add_elem d0 bubble = Ok d')
    by exact (built_succeeds (add_elem d0 bubble) ltac:(by_computation)).
  assert (R : reaches_grid d0 bubble = true) by by_computation.
  assert (V : Forall (fun h => 0 <= h)%Z (vmax d3q6)).
  { unfold d3q6. cbn [vmax]. repeat constructor; lia. }
  assert (W : within_vmax d3q6 = true) by reflexivity.
  clearbody d'. clearbody d0.
  exact (element_subgrid_between_expanded_boxes (cube []) d3q6 1 whole 0%nat d0 d' bubble
           ltac:(reflexivity) V W S R H).
Defined.

End SubgridScenario.

(** ** The range of the distances throughout the construction *)

Section Throughout.

Import Element Domain PhaseA PhaseB Mesh Scenes Construction.




Variable g : Geometry.
Variable s : Stencil.
Variable space_step : Q.
Variable get_region : list Q -> list (Z * Z).

Hypothesis Hhonour : Forall honours_dmax (list_elem g).



End Throughout.

Section ThroughoutScenario.

Import Element Domain PhaseA PhaseB Mesh Scenes Construction.


End ThroughoutScenario.

(** ** The rule of the solid elements *)

Section SolidRule.

Import Element Domain PhaseA PhaseB Mesh Scenes.



End SolidRule.
